(** * leaf-db: the document store of [src/model.ts]

    A shallow embedding of the class [LeafDB] (index, persistence log,
    insert / find / update / delete / drop) and the properties of its
    specification that concern them.

    Conventions of the embedding.
    - A document, an update and a query are JavaScript objects: ordered
      association lists from property names to JSON values.  Numbers are
      integers; no property here computes with them.
    - The code is read at its TypeScript types: an identifier is a
      [string], a payload is [OneOrMore<T>], the value [JSON.parse] returns
      is a [Doc<T>].  Any string is an identifier, also the name of a
      member of [Object.prototype].
    - [this.map] (a [Record<string, Doc<T>>]) is an ordinary object made
      by [{}]: its own properties, and the prototype an assignment to
      [this.map['__proto__']] installs, are a [gmap string Obj]; reading
      [this.map[_id]] follows the prototype chain.  A document is taken
      to have no own property named [__proto__], which an object literal
      cannot make.  [this.list] (a [Set<string>]) is a duplicate-free
      [list string] in insertion order.
    - A payload of [insert] lists objects: where the same object occurs
      twice, the second turn meets what the first one made of it.
    - A method is a computation in the monad [M]: it threads the instance,
      the file system and the identifier generator, and either returns a
      value or throws.  A rejected promise is a thrown error: the executor
      passed to [new Promise] runs synchronously, and a [throw] inside it
      rejects the promise while every mutation made before it stays.
    - The functions imported from [./validation], [./modifiers] and
      [./utils], and the platform functions [JSON.parse] and
      [JSON.stringify], are the fields of the interface [Helpers]: the
      theorems hold for every implementation of it. *)

From Stdlib Require Import ZArith Ascii String.
From stdpp Require Import gmap strings list fin_maps pretty.

(** ** JSON values and objects *)

#[warnings="-register-all"]
Inductive JSON : Type :=
| JNull
| JBool (b : bool)
| JNum (n : Z)
| JStr (s : string)
| JArr (l : list JSON)
| JObj (o : list (string * JSON)).

Definition Obj : Type := list (string * JSON).

(** [o[k]]; [None] is JavaScript's [undefined]. *)
Fixpoint obj_get (k : string) (o : Obj) : option JSON :=
  match o with
  | [] => None
  | (k', v) :: r => if decide (k = k') then Some v else obj_get k r
  end.

(** [{ ...o, [k]: v }]: an existing key keeps its place, a new one goes last. *)
Fixpoint obj_set (k : string) (v : JSON) (o : Obj) : Obj :=
  match o with
  | [] => [(k, v)]
  | (k', v') :: r =>
      if decide (k = k') then (k, v) :: r else (k', v') :: obj_set k v r
  end.

(** JavaScript truthiness of a property read. *)
Definition truthy (v : option JSON) : bool :=
  match v with
  | None | Some JNull => false
  | Some (JBool b) => b
  | Some (JNum n) => negb (n =? 0)%Z
  | Some (JStr s) => negb (bool_decide (s = ""))
  | Some (JArr _) | Some (JObj _) => true
  end.

(** [doc._id] at its declared type [string | undefined]: a value of another
    type is outside [Doc<T>] and reads as [undefined]. *)
Definition get_id (d : Obj) : option string :=
  match obj_get "_id" d with
  | Some (JStr s) => Some s
  | _ => None
  end.

(** [doc._id] used as a property key of [this.map]: the key of an absent
    identifier is the text [undefined]. *)
Definition id_key (d : Obj) : string :=
  match get_id d with
  | Some s => s
  | None => "undefined"
  end.

(** [doc.$deleted] as a condition. *)
Definition is_deleted (d : Obj) : bool := truthy (obj_get "$deleted" d).

(** [{ ...doc, $deleted: true }] *)
Definition mark_deleted (d : Obj) : Obj := obj_set "$deleted" (JBool true) d.

(** [{ ...newDoc, _id }] *)
Definition with_id (newDoc : Obj) (_id : string) : Obj :=
  obj_set "_id" (JStr _id) newDoc.

(** ** Errors and outcomes *)

Inductive error : Type :=
| LoadInMemoryMode                (* 'Cannot load file in memory mode' *)
| PersistInMemoryMode             (* 'Tried to call `persist()` in memory mode' *)
| InvalidPayload                  (* 'Invalid payload: ...' *)
| InvalidNewDoc (d : Obj)         (* 'newDoc is not a valid document: ...' *)
| IdExists (_id : string)         (* ''_id' already exists: ...' *)
| InvalidDoc (d : Obj)            (* 'Invalid doc: ...' *)
| InvalidId (_id : string)        (* 'Invalid _id: ...' *)
| InvalidIds (ids : string)       (* 'Invalid ids, must be of type Array: ...' *)
| InvalidQuery (q : Obj)          (* 'Invalid query: ...' *)
| InvalidUpdate (u : Obj)         (* 'Invalid update: ...' *)
| TypeError (_id : string)        (* reading [$deleted] of [undefined] *)
| Foreign (msg : string).         (* thrown by a helper or by the platform *)

Inductive outcome (A : Type) : Type :=
| Ok (a : A)
| Throw (e : error).
Arguments Ok {A} a.
Arguments Throw {A} e.

(** [OneOrMore<T>] of [./types]. *)
Inductive OneOrMore (A : Type) : Type :=
| One (a : A)
| More (l : list A).
Arguments One {A} a.
Arguments More {A} l.

(** ** What [this.map[_id]] can evaluate to

    An own property of [this.map] is a document.  A name that is not an
    own property is looked up on the prototype chain, where it may find a
    function of [Object.prototype], [Object.prototype] itself (the
    accessor [__proto__]), or a field of a document installed as
    prototype. *)

(** The function members of [Object.prototype]; [__proto__], its one
    accessor, is treated apart. *)
Definition Object_prototype_members : list string :=
  ["constructor"; "__defineGetter__"; "__defineSetter__"; "hasOwnProperty";
   "__lookupGetter__"; "__lookupSetter__"; "isPrototypeOf";
   "propertyIsEnumerable"; "toString"; "valueOf"; "toLocaleString"].

(** A truthy value that is not a plain object. *)
Inductive Exotic : Type :=
| Builtin (name : string)         (* a function of [Object.prototype] *)
| ObjectPrototype                 (* [Object.prototype] itself *)
| Plain (j : JSON).               (* a truthy array, string, number or boolean *)

(** A truthy value; [undefined], [null], [false], [0] and [''] are the
    [None] of an [option Value]. *)
Inductive Value : Type :=
| Document (doc : Obj)
| NotADocument (v : Exotic).

(** A JSON value as the condition [doc && ...] sees it. *)
Definition of_json (j : JSON) : option Value :=
  match j with
  | JObj o => Some (Document o)
  | _ => if truthy (Some j) then Some (NotADocument (Plain j)) else None
  end.

(** [doc.$deleted] as a condition, on any truthy value: a function, an
    array, a string, a number and a boolean have no such property. *)
Definition flagged (v : Value) : bool :=
  match v with
  | Document doc => is_deleted doc
  | NotADocument _ => false
  end.

(** The own enumerable properties of an array, [0], [1], ... *)
Fixpoint indexed (i : nat) (l : list JSON) : Obj :=
  match l with
  | [] => []
  | x :: r => (pretty i, x) :: indexed (S i) r
  end.

(** The characters of a string, each a string. *)
Fixpoint chars (s : string) : list JSON :=
  match s with
  | EmptyString => []
  | String c r => JStr (String c EmptyString) :: chars r
  end.

(** [{ ...doc }] on any truthy value: the own enumerable properties. *)
Definition spread (v : Value) : Obj :=
  match v with
  | Document doc => doc
  | NotADocument (Plain (JArr l)) => indexed 0 l
  | NotADocument (Plain (JStr s)) => indexed 0 (chars s)
  | NotADocument _ => []
  end.

(** ** The imported helpers

    The validators return a boolean; the functions that may throw
    ([isQueryMatch] on an array operator over a non-array, [modify] on a
    modifier over the wrong type, [JSON.parse], [JSON.stringify]) return an
    [outcome].  [generateUid] is given the number of the call.
    [project_exotic] and [modify_exotic] are [project] and [modify] handed
    a value that is not a document, with what they return read as a
    document. *)

Class Helpers : Type := {
  isObject : JSON -> bool;
  isId : string -> bool;
  isValidDoc : Obj -> bool -> bool;
  isValidUpdate : Obj -> bool;
  hasOperators : Obj -> bool;
  isQueryMatch : Obj -> Obj -> outcome bool;
  modify : Obj -> Obj -> outcome Obj;
  project : Obj -> option (list string) -> outcome Obj;
  generateUid : nat -> string;
  toArray : forall A : Type, OneOrMore A -> list A;
  JSON_parse : string -> outcome Obj;
  JSON_stringify : Obj -> outcome string;
  project_exotic : Exotic -> option (list string) -> outcome Obj;
  modify_exotic : Exotic -> Obj -> outcome Obj
}.
Arguments toArray {_ A} _.

(** ** Text: [split('\n')] and [join('\n')] *)

Definition LF : ascii := Ascii.ascii_of_nat 10.

Fixpoint split (sep : ascii) (s : string) : list string :=
  match s with
  | EmptyString => [EmptyString]
  | String c r =>
      if decide (c = sep) then EmptyString :: split sep r
      else match split sep r with
           | [] => [String c EmptyString]
           | h :: t => String c h :: t
           end
  end.

Fixpoint join (sep : ascii) (l : list string) : string :=
  match l with
  | [] => EmptyString
  | [x] => x
  | x :: r => String.append x (String sep (join sep r))
  end.

Fixpoint has_char (c : ascii) (s : string) : bool :=
  match s with
  | EmptyString => false
  | String c' r => bool_decide (c' = c) || has_char c r
  end.

(** ** The instance, the world around it, and the monad of methods *)

(** [db_map] is the state of the object [this.map]: under a name other
    than [__proto__] the own property of that name; under [__proto__],
    which an assignment cannot make an own property of an object made by
    [{}], the document that an assignment to [this.map['__proto__']]
    installed as prototype (none: the prototype is [Object.prototype]). *)
Record LeafDB : Type := mkDB {
  db_strict : bool;
  db_file : option string;
  db_map : gmap string Obj;
  db_list : list string
}.

Record World : Type := mkWorld {
  db : LeafDB;
  fs : gmap string string;      (* path -> content of the files that exist *)
  uid : nat                     (* number of identifiers generated so far *)
}.

Definition M (A : Type) : Type := World -> outcome A * World.

Definition ret {A} (a : A) : M A := fun w => (Ok a, w).
Definition throw {A} (e : error) : M A := fun w => (Throw e, w).
Definition lift {A} (o : outcome A) : M A := fun w => (o, w).

Definition bind {A B} (m : M A) (k : A -> M B) : M B :=
  fun w =>
    match m w with
    | (Ok a, w') => k a w'
    | (Throw e, w') => (Throw e, w')
    end.

(** [try { m } catch (err) { h err }] *)
Definition try_catch {A} (m : M A) (h : error -> M A) : M A :=
  fun w =>
    match m w with
    | (Ok a, w') => (Ok a, w')
    | (Throw e, w') => h e w'
    end.

Declare Scope leaf_scope.
Delimit Scope leaf_scope with leaf.
Notation "'let*' x ':=' m 'in' k" := (bind m (fun x => k))
  (at level 10, x pattern, m at level 100, k at level 200) : leaf_scope.
Notation "m ';;' k" := (bind m (fun _ => k))
  (at level 100, k at level 200, right associativity) : leaf_scope.
Local Open Scope leaf_scope.

(** A loop whose body may throw, threading the loop's local variable. *)
Fixpoint foldM {A B} (body : B -> A -> M B) (l : list A) (acc : B) : M B :=
  match l with
  | [] => ret acc
  | x :: r => let* acc' := body acc x in foldM body r acc'
  end.

Definition get_db : M LeafDB := fun w => (Ok (db w), w).
Definition put_db (d : LeafDB) : M unit :=
  fun w => (Ok tt, mkWorld d (fs w) (uid w)).

(** What the name [k] finds on [Object.prototype]. *)
Definition from_Object_prototype (k : string) : option Value :=
  if bool_decide (k ∈ Object_prototype_members)
  then Some (NotADocument (Builtin k)) else None.

(** What the name [k], not an own property of [this.map], finds on the
    prototype chain: a field of the installed prototype, whose own
    prototype is [Object.prototype], or a member of [Object.prototype]. *)
Definition inherited (m : gmap string Obj) (k : string) : option Value :=
  match m !! "__proto__" with
  | Some prototype =>
      match obj_get k prototype with
      | Some j => of_json j
      | None => from_Object_prototype k
      end
  | None => from_Object_prototype k
  end.

(** [this.map[k]] as an expression: the own property; for [__proto__] the
    prototype, which the getter of [Object.prototype] returns; else what
    the prototype chain has under [k]. *)
Definition map_read (m : gmap string Obj) (k : string) : option Value :=
  match m !! k with
  | Some doc => Some (Document doc)
  | None =>
      if decide (k = "__proto__") then Some (NotADocument ObjectPrototype)
      else inherited m k
  end.

(** [this.map[_id]] *)
Definition map_get (_id : string) : M (option Value) :=
  fun w => (Ok (map_read (db_map (db w)) _id), w).

(** [this.map[_id]] for a member [_id] of [this.list]: a member has its
    entry ([members_stored] below, an invariant of every reachable state),
    so the lookup stops at it; [None] is a member without entry, where
    the code reads [undefined]. *)
Definition map_member (_id : string) : M (option Obj) :=
  fun w => (Ok (db_map (db w) !! _id), w).

(** [this.map[_id] = doc]: a new or changed own property; under
    [__proto__] the setter of [Object.prototype] makes [doc] the
    prototype. *)
Definition map_set (_id : string) (doc : Obj) : M unit :=
  let* d := get_db in
  put_db (mkDB (db_strict d) (db_file d) (<[_id := doc]> (db_map d)) (db_list d)).

(** [delete this.map[_id]]: removes an own property; [__proto__] is none,
    and the prototype stays. *)
Definition map_delete (_id : string) : M unit :=
  if decide (_id = "__proto__") then ret tt
  else
    let* d := get_db in
    put_db (mkDB (db_strict d) (db_file d) (delete _id (db_map d)) (db_list d)).

(** [Set.prototype.add]: a member is not added twice. *)
Definition set_add (_id : string) (l : list string) : list string :=
  if decide (_id ∈ l) then l else l ++ [_id].

(** [this.list.has(_id)] *)
Definition list_has (_id : string) : M bool :=
  fun w => (Ok (bool_decide (_id ∈ db_list (db w))), w).

(** [this.list.add(_id)] *)
Definition list_add (_id : string) : M unit :=
  let* d := get_db in
  put_db (mkDB (db_strict d) (db_file d) (db_map d) (set_add _id (db_list d))).

(** [this.list.delete(_id)] *)
Definition list_delete (_id : string) : M unit :=
  let* d := get_db in
  put_db (mkDB (db_strict d) (db_file d) (db_map d)
               (filter (fun k => k ≠ _id) (db_list d))).

(** [fs.existsSync] and [fs.readFileSync] in one read of the file system. *)
Definition readFile (f : string) : M (option string) :=
  fun w => (Ok (fs w !! f), w).

(** [fs.writeFileSync(f, content)] *)
Definition writeFileSync (f content : string) : M unit :=
  fun w => (Ok tt, mkWorld (db w) (<[f := content]> (fs w)) (uid w)).

(** ** The bodies of the loops of [LeafDB] *)

Section Bodies.
Context `{H : Helpers}.

(** [generateUid()] *)
Definition fresh_uid : M string :=
  fun w => (Ok (generateUid (uid w)), mkWorld (db w) (fs w) (S (uid w))).

(** [flush]: [this.map = {}; this.list = new Set()] *)
Definition flush : M unit :=
  let* d := get_db in
  put_db (mkDB (db_strict d) (db_file d) ∅ []).

(** One turn of the loop of [load] over [rawDocs]. *)
Definition load_line (corrupted : list string) (rawDoc : string)
  : M (list string) :=
  if decide (rawDoc = "") then ret corrupted
  else
    try_catch
      (let* doc := lift (JSON_parse rawDoc) in
       if negb (isValidDoc doc true) then throw (InvalidDoc doc)
       else
         list_add (id_key doc);;
         map_set (id_key doc) doc;;
         ret corrupted)
      (fun err =>
         let* d := get_db in
         if db_strict d then throw err
         else ret (corrupted ++ [rawDoc])).

(** One turn of [this.list.forEach] in [persist]. *)
Definition persist_entry (payload : list string) (_id : string)
  : M (list string) :=
  try_catch
    (let* doc := map_member _id in
     match doc with
     | None => throw (TypeError _id)
     | Some doc =>
         if negb (is_deleted doc)
         then let* line := lift (JSON_stringify doc) in ret (payload ++ [line])
         else ret payload
     end)
    (fun err =>
       list_delete _id;;
       map_delete _id;;
       let* d := get_db in
       if db_strict d then throw err else ret payload).

(** One turn of the loop of [insert] over [newDocs], on the object
    [newDoc] as it is at this turn; [!newDoc._id] holds of an absent and of
    an empty identifier, and [newDoc._id = generateUid()] changes the
    object itself. *)
Definition insert_doc (inserted : list Obj) (newDoc : Obj) : M (list Obj) :=
  if negb (isValidDoc newDoc false) then throw (InvalidNewDoc newDoc)
  else
    let* newDoc :=
      match get_id newDoc with
      | Some _id =>
          if decide (_id = "") then
            let* u := fresh_uid in ret (with_id newDoc u)
          else
            let* known := list_has _id in
            if known then throw (IdExists _id) else ret newDoc
      | None =>
          let* u := fresh_uid in ret (with_id newDoc u)
      end in
    list_add (id_key newDoc);;
    map_set (id_key newDoc) newDoc;;
    ret (inserted ++ [newDoc]).

(** The object at the next place of a payload, as it is at its turn.
    [shared] tells, for each place of the payload, the first place that
    holds the same object (the place itself for an object met for the
    first time); an object met again is as its first turn left it, which
    is what [inserted] holds at that place ([generateUid] returning
    non-empty identifiers, only the first turn on an object changes it). *)
Definition current (shared : list nat) (inserted : list Obj) (newDoc : Obj)
  : Obj :=
  match shared !! length inserted with
  | Some j =>
      match inserted !! j with
      | Some doc => doc
      | None => newDoc
      end
  | None => newDoc
  end.

(** One turn of the loop of [insert] over a payload with shared objects. *)
Definition insert_turn (shared : list nat) (inserted : list Obj)
    (newDoc : Obj) : M (list Obj) :=
  insert_doc inserted (current shared inserted newDoc).

(** [project(doc, projection)] on any truthy value. *)
Definition project_value (doc : Value) (projection : option (list string))
  : outcome Obj :=
  match doc with
  | Document doc => project doc projection
  | NotADocument v => project_exotic v projection
  end.

(** One turn of the loop of [findMany]. *)
Definition findMany_id (projection : option (list string))
    (payload : list Obj) (_id : string) : M (list Obj) :=
  if negb (isId _id) then throw (InvalidId _id)
  else
    let* doc := map_get _id in
    match doc with
    | Some doc =>
        if negb (flagged doc)
        then let* p := lift (project_value doc projection) in ret (payload ++ [p])
        else ret payload
    | None => ret payload
    end.

(** [!doc.$deleted && isQueryMatch(doc, query)] on the entry of [_id]: the
    document when both hold.  Reading [$deleted] of a missing entry throws. *)
Definition live_match (query : Obj) (_id : string) : M (option Obj) :=
  let* doc := map_member _id in
  match doc with
  | None => throw (TypeError _id)
  | Some doc =>
      if negb (is_deleted doc) then
        let* b := lift (isQueryMatch doc query) in
        ret (if b then Some doc else None)
      else ret None
  end.

(** One turn of [this.list.forEach] in [find]. *)
Definition find_entry (query : Obj) (projection : option (list string))
    (payload : list Obj) (_id : string) : M (list Obj) :=
  let* hit := live_match query _id in
  match hit with
  | Some doc => let* p := lift (project doc projection) in ret (payload ++ [p])
  | None => ret payload
  end.

(** [hasOperators(update) ? modify(doc, update) : update as T] *)
Definition newDoc_of (doc update : Obj) : outcome Obj :=
  if hasOperators update then modify doc update else Ok update.

(** The same on any truthy value. *)
Definition newDoc_of_value (doc : Value) (update : Obj) : outcome Obj :=
  match doc with
  | Document doc => newDoc_of doc update
  | NotADocument v =>
      if hasOperators update then modify_exotic v update else Ok update
  end.

(** The body shared by [update] and [updateById] once [newDoc] is
    computed: build [_doc], store it, push its projection. *)
Definition store_update (newDoc : outcome Obj)
    (projection : option (list string))
    (payload : list Obj) (_id : string) : M (list Obj) :=
  let* newDoc := lift newDoc in
  let _doc := with_id newDoc _id in
  map_set _id _doc;;
  let* p := lift (project _doc projection) in
  ret (payload ++ [p]).

(** The body of [update] once a live document is at hand. *)
Definition apply_update (update : Obj) (projection : option (list string))
    (payload : list Obj) (_id : string) (doc : Obj) : M (list Obj) :=
  store_update (newDoc_of doc update) projection payload _id.

(** One turn of the loop of [updateById]. *)
Definition updateById_id (update : Obj) (projection : option (list string))
    (payload : list Obj) (_id : string) : M (list Obj) :=
  if negb (isId _id) then throw (InvalidId _id)
  else
    let* doc := map_get _id in
    match doc with
    | Some doc =>
        if negb (flagged doc)
        then store_update (newDoc_of_value doc update) projection payload _id
        else ret payload
    | None => ret payload
    end.

(** One turn of [this.list.forEach] in [update]. *)
Definition update_entry (query update : Obj)
    (projection : option (list string))
    (payload : list Obj) (_id : string) : M (list Obj) :=
  let* hit := live_match query _id in
  match hit with
  | Some doc => apply_update update projection payload _id doc
  | None => ret payload
  end.

(** One turn of the loop of [deleteById]. *)
Definition deleteById_id (payload : nat) (_id : string) : M nat :=
  if negb (isId _id) then throw (InvalidId _id)
  else
    let* doc := map_get _id in
    match doc with
    | Some doc =>
        if negb (flagged doc)
        then map_set _id (mark_deleted (spread doc));; ret (payload + 1)
        else ret payload
    | None => ret payload
    end.

(** One turn of [this.list.forEach] in [delete]. *)
Definition delete_entry (query : Obj) (payload : nat) (_id : string) : M nat :=
  let* hit := live_match query _id in
  match hit with
  | Some doc => map_set _id (mark_deleted doc);; ret (payload + 1)
  | None => ret payload
  end.

End Bodies.

(** ** The methods of [LeafDB] *)

Module Model.
Section Methods.
Context `{H : Helpers}.

(** [load()] (lines 81-116): the list of corrupted lines. *)
Definition load : M (list string) :=
  let* d := get_db in
  match db_file d with
  | None => throw LoadInMemoryMode
  | Some f =>
      let* content := readFile f in
      match content with
      | Some text =>
          flush;;
          foldM load_line (split LF text) []
      | None =>
          writeFileSync f "";;
          ret []
      end
  end.

(** [persist()] (lines 119-138).  [forEach] visits each member of the set
    once, also when a member is deleted during its own turn. *)
Definition persist : M unit :=
  let* d := get_db in
  match db_file d with
  | None => throw PersistInMemoryMode
  | Some f =>
      let* payload := foldM persist_entry (db_list d) [] in
      writeFileSync f (join LF payload)
  end.

(** [insert(payload)] (lines 144-175), for a payload of pairwise distinct
    objects.  The guard is [!Array.isArray(payload) && !isObject(payload)]. *)
Definition insert (payload : OneOrMore Obj) : M (list Obj) :=
  let invalid :=
    match payload with
    | More _ => false
    | One o => negb (isObject (JObj o))
    end in
  if invalid then throw InvalidPayload
  else foldM insert_doc (toArray payload) [].

(** [insert(payload)] (lines 144-175), for a payload in which an object
    may occur more than once; [shared] is as in [current]. *)
Definition insert_shared (payload : OneOrMore Obj) (shared : list nat)
  : M (list Obj) :=
  let invalid :=
    match payload with
    | More _ => false
    | One o => negb (isObject (JObj o))
    end in
  if invalid then throw InvalidPayload
  else foldM (insert_turn shared) (toArray payload) [].

(** [findOne(id, projection)] (lines 182-190); [None] is [null]. *)
Definition findOne (id : string) (projection : option (list string))
  : M (option Obj) :=
  if negb (isId id) then throw (InvalidId id)
  else
    let* doc := map_get id in
    match doc with
    | Some doc =>
        if negb (flagged doc)
        then let* p := lift (project_value doc projection) in ret (Some p)
        else ret None
    | None => ret None
    end.

(** [findMany(ids, projection)] (lines 197-214); [One s] is a lone string
    passed for [ids], on which the guard [!Array.isArray(ids)] fires. *)
Definition findMany (ids : OneOrMore string)
    (projection : option (list string)) : M (list Obj) :=
  match ids with
  | One s => throw (InvalidIds s)
  | More _ => foldM (findMany_id projection) (toArray ids) []
  end.

(** [find(query, projection)] (lines 221-237). *)
Definition find (query : Obj) (projection : option (list string))
  : M (list Obj) :=
  if negb (isObject (JObj query)) then throw (InvalidQuery query)
  else
    let* d := get_db in
    foldM (find_entry query projection) (db_list d) [].

(** [updateById(query, update, projection)] (lines 245-276). *)
Definition updateById (query : OneOrMore string) (update : Obj)
    (projection : option (list string)) : M (list Obj) :=
  if negb (isValidUpdate update) then throw (InvalidUpdate update)
  else foldM (updateById_id update projection) (toArray query) [].

(** [update(query, update, projection)] (lines 284-311). *)
Definition update (query update : Obj) (projection : option (list string))
  : M (list Obj) :=
  if negb (isObject (JObj query)) then throw (InvalidQuery query)
  else if negb (isValidUpdate update) then throw (InvalidUpdate update)
  else
    let* d := get_db in
    foldM (update_entry query update projection) (db_list d) [].

(** [deleteById(query)] (lines 317-337). *)
Definition deleteById (query : OneOrMore string) : M nat :=
  foldM deleteById_id (toArray query) 0.

(** [delete(query)] (lines 343-359). *)
Definition delete (query : Obj) : M nat :=
  if negb (isObject (JObj query)) then throw (InvalidQuery query)
  else
    let* d := get_db in
    foldM (delete_entry query) (db_list d) 0.

(** [drop()] (lines 362-365). *)
Definition drop : M unit :=
  flush;;
  let* d := get_db in
  match db_file d with
  | Some _ => persist
  | None => ret tt
  end.

End Methods.
End Model.

(** ** A reference implementation of the helpers

    The modules [./validation], [./modifiers] and [./utils] are not part of
    the sources at hand.  The theorems below hold for every implementation
    of [Helpers]; this one follows the specification on plain documents and
    serves to run the methods on concrete stores. *)

Module Reference.

Definition DQ : ascii := Ascii.ascii_of_nat 34.
Definition BSL : ascii := Ascii.ascii_of_nat 92.

(** Modelled from the spec: [isObject] of [./validation] (a query or a
    payload must be an object, neither an array nor a scalar). *)
Definition isObject (j : JSON) : bool :=
  match j with
  | JObj _ => true
  | _ => false
  end.

(** Modelled from the spec: [isId] of [./validation] (identifiers are
    non-empty strings). *)
Definition isId (s : string) : bool := negb (bool_decide (s = "")).

(** Modelled from the spec: field-name legality of [./validation] (no field
    name begins with [$] or contains a dot). *)
Definition legal_key (k : string) : bool :=
  match k with
  | String c _ => negb (bool_decide (c = "$"%char)) && negb (has_char "."%char k)
  | EmptyString => true
  end.

(** Modelled from the spec: field-name legality of [./validation], at every
    nesting level. *)
Fixpoint legal (j : JSON) : bool :=
  match j with
  | JArr l => forallb legal l
  | JObj o => forallb (fun kv => match kv with (k, v) => legal_key k && legal v end) o
  | _ => true
  end.

(** Modelled from the spec: [isValidDoc] of [./validation] (legal field
    names; a well-formed identifier, which the second argument makes
    mandatory). *)
Definition isValidDoc (d : Obj) (strict : bool) : bool :=
  legal (JObj d) &&
  match obj_get "_id" d with
  | Some (JStr s) => negb (bool_decide (s = ""))
  | Some _ => false
  | None => negb strict
  end.

(** Modelled from the spec: [hasOperators] of [./validation] (an update is
    in modifier mode iff a top-level key starts with [$]). *)
Definition hasOperators (u : Obj) : bool :=
  existsb (fun kv => match fst kv with
                     | String c _ => bool_decide (c = "$"%char)
                     | EmptyString => false
                     end) u.

(** Modelled from the spec: [isValidUpdate] of [./validation] (modifier keys
    and plain fields do not mix; a replacement obeys field-name legality). *)
Definition isValidUpdate (u : Obj) : bool :=
  if hasOperators u then
    forallb (fun kv => match kv with
                       | (k, JObj p) =>
                           bool_decide (k ∈ ["$add"; "$push"; "$set"]) &&
                           forallb (fun kv' => legal_key (fst kv') && legal (snd kv')) p
                       | _ => false
                       end) u
  else legal (JObj u).

(** Structural equality of JSON values, order-sensitive on arrays. *)
Fixpoint json_eqb (a b : JSON) : bool :=
  match a, b with
  | JNull, JNull => true
  | JBool x, JBool y => bool_decide (x = y)
  | JNum x, JNum y => bool_decide (x = y)
  | JStr x, JStr y => bool_decide (x = y)
  | JArr l1, JArr l2 =>
      (fix go (l1 l2 : list JSON) : bool :=
         match l1, l2 with
         | [], [] => true
         | x :: r1, y :: r2 => json_eqb x y && go r1 r2
         | _, _ => false
         end) l1 l2
  | JObj o1, JObj o2 =>
      (fix go (o1 o2 : list (string * JSON)) : bool :=
         match o1, o2 with
         | [], [] => true
         | (k1, x) :: r1, (k2, y) :: r2 =>
             bool_decide (k1 = k2) && json_eqb x y && go r1 r2
         | _, _ => false
         end) o1 o2
  | _, _ => false
  end.

(** Modelled from the spec: [isQueryMatch] of [./validation], on queries
    made of field-to-literal clauses (every clause must hold; the empty
    query matches every document). *)
Definition isQueryMatch (d q : Obj) : outcome bool :=
  Ok (forallb (fun kv => match obj_get (fst kv) d with
                         | Some x => json_eqb x (snd kv)
                         | None => false
                         end) q).

(** Modelled from the spec: one field of one modifier of [./modifiers]
    (increment, append, assign). *)
Definition apply_modifier (name : string) (acc : outcome Obj)
    (kv : string * JSON) : outcome Obj :=
  match acc with
  | Throw e => Throw e
  | Ok d =>
      if bool_decide (name = "$set") then Ok (obj_set (fst kv) (snd kv) d)
      else if bool_decide (name = "$add") then
        match snd kv, obj_get (fst kv) d with
        | JNum n, None => Ok (obj_set (fst kv) (JNum n) d)
        | JNum n, Some (JNum x) => Ok (obj_set (fst kv) (JNum (x + n)) d)
        | _, _ => Throw (Foreign "$add")
        end
      else if bool_decide (name = "$push") then
        match obj_get (fst kv) d with
        | None => Ok (obj_set (fst kv) (JArr [snd kv]) d)
        | Some (JArr l) => Ok (obj_set (fst kv) (JArr (l ++ [snd kv])) d)
        | Some _ => Throw (Foreign "$push")
        end
      else Throw (Foreign name)
  end.

(** Modelled from the spec: [modify] of [./modifiers]. *)
Definition modify (d u : Obj) : outcome Obj :=
  fold_left (fun acc kv => match snd kv with
                           | JObj p => fold_left (apply_modifier (fst kv)) p acc
                           | _ => Throw (Foreign (fst kv))
                           end) u (Ok d).

(** Modelled from the spec: [project] of [./modifiers] (absent: the full
    document; a list: the listed fields that exist). *)
Definition project (d : Obj) (projection : option (list string)) : outcome Obj :=
  match projection with
  | None => Ok d
  | Some keys => Ok (filter (fun kv => fst kv ∈ keys) d)
  end.

(** Modelled from the spec: [project] of [./modifiers] on a value that is
    not a document, taken as the object of its own enumerable properties. *)
Definition project_exotic (v : Exotic) (projection : option (list string))
  : outcome Obj :=
  project (spread (NotADocument v)) projection.

(** Modelled from the spec: [modify] of [./modifiers] on a value that is
    not a document, taken as the object of its own enumerable properties. *)
Definition modify_exotic (v : Exotic) (u : Obj) : outcome Obj :=
  modify (spread (NotADocument v)) u.

(** Modelled from the spec: [generateUid] of [./utils] (the [n]-th
    identifier handed out; distinct calls give distinct identifiers). *)
Definition generateUid (n : nat) : string := "uid-" +:+ pretty n.

(** Modelled from the spec: [toArray] of [./utils] ([OneOrMore<T>] to [T[]]). *)
Definition toArray (A : Type) (x : OneOrMore A) : list A :=
  match x with
  | One a => [a]
  | More l => l
  end.

(** *** [JSON.stringify] and [JSON.parse] on the compact text of objects *)

Fixpoint escape (s : string) : string :=
  match s with
  | EmptyString => EmptyString
  | String c r =>
      if decide (c = DQ) then String BSL (String DQ (escape r))
      else if decide (c = BSL) then String BSL (String BSL (escape r))
      else if decide (c = LF) then String BSL (String "n"%char (escape r))
      else String c (escape r)
  end.

Definition quote (s : string) : string :=
  String DQ (escape s +:+ String DQ EmptyString).

Fixpoint stringify (j : JSON) : string :=
  match j with
  | JNull => "null"
  | JBool true => "true"
  | JBool false => "false"
  | JNum n => pretty n
  | JStr s => quote s
  | JArr l => "[" +:+ join ","%char (map stringify l) +:+ "]"
  | JObj o =>
      "{" +:+ join ","%char
                (map (fun kv => match kv with
                                | (k, v) => quote k +:+ ":" +:+ stringify v
                                end) o) +:+ "}"
  end.

(** The text after an opening quote: the string it holds and what follows
    the closing quote. *)
Fixpoint parse_text (s : string) : option (string * string) :=
  match s with
  | EmptyString => None
  | String c r =>
      if decide (c = DQ) then Some (EmptyString, r)
      else if decide (c = BSL) then
        match r with
        | String e r' =>
            let ch :=
              if decide (e = "n"%char) then Some LF
              else if decide (e = DQ) then Some DQ
              else if decide (e = BSL) then Some BSL
              else None in
            match ch, parse_text r' with
            | Some ch, Some (x, rest) => Some (String ch x, rest)
            | _, _ => None
            end
        | EmptyString => None
        end
      else
        match parse_text r with
        | Some (x, rest) => Some (String c x, rest)
        | None => None
        end
  end.

Definition digit (c : ascii) : option Z :=
  let n := Ascii.nat_of_ascii c in
  if bool_decide (48 ≤ n) && bool_decide (n ≤ 57) then Some (Z.of_nat (n - 48))
  else None.

Fixpoint parse_digits (acc : Z) (seen : bool) (s : string) : option (Z * string) :=
  match s with
  | EmptyString => if seen then Some (acc, s) else None
  | String c r =>
      match digit c with
      | Some d => parse_digits (10 * acc + d) true r
      | None => if seen then Some (acc, s) else None
      end
  end.

Fixpoint strip_prefix (p s : string) : option string :=
  match p, s with
  | EmptyString, _ => Some s
  | String a p', String b s' => if decide (a = b) then strip_prefix p' s' else None
  | String _ _, EmptyString => None
  end.

(** Elements of an array after [[]: values separated by commas, up to []]. *)
Fixpoint parse_items (value : string -> option (JSON * string)) (fuel : nat)
    (s : string) : option (list JSON * string) :=
  match fuel with
  | 0 => None
  | S fuel =>
      match value s with
      | Some (v, String c r) =>
          if decide (c = ","%char) then
            match parse_items value fuel r with
            | Some (vs, rest) => Some (v :: vs, rest)
            | None => None
            end
          else if decide (c = "]"%char) then Some ([v], r)
          else None
      | _ => None
      end
  end.

(** Members of an object after [{]: quoted keys, colons, values. *)
Fixpoint parse_members (value : string -> option (JSON * string)) (fuel : nat)
    (s : string) : option (list (string * JSON) * string) :=
  match fuel with
  | 0 => None
  | S fuel =>
      match s with
      | String q r =>
          if decide (q = DQ) then
            match parse_text r with
            | Some (k, String colon r') =>
                if decide (colon = ":"%char) then
                  match value r' with
                  | Some (v, String c r'') =>
                      if decide (c = ","%char) then
                        match parse_members value fuel r'' with
                        | Some (kvs, rest) => Some ((k, v) :: kvs, rest)
                        | None => None
                        end
                      else if decide (c = "}"%char) then Some ([(k, v)], r'')
                      else None
                  | _ => None
                  end
                else None
            | _ => None
            end
          else None
      | EmptyString => None
      end
  end.

Fixpoint parse_value (fuel : nat) (s : string) : option (JSON * string) :=
  match fuel with
  | 0 => None
  | S fuel =>
      match s with
      | EmptyString => None
      | String c r =>
          if decide (c = DQ) then
            match parse_text r with
            | Some (x, rest) => Some (JStr x, rest)
            | None => None
            end
          else if decide (c = "["%char) then
            match strip_prefix "]" r with
            | Some rest => Some (JArr [], rest)
            | None =>
                match parse_items (parse_value fuel) fuel r with
                | Some (vs, rest) => Some (JArr vs, rest)
                | None => None
                end
            end
          else if decide (c = "{"%char) then
            match strip_prefix "}" r with
            | Some rest => Some (JObj [], rest)
            | None =>
                match parse_members (parse_value fuel) fuel r with
                | Some (kvs, rest) => Some (JObj kvs, rest)
                | None => None
                end
            end
          else if decide (c = "-"%char) then
            match parse_digits 0 false r with
            | Some (n, rest) => Some (JNum (- n), rest)
            | None => None
            end
          else
            match strip_prefix "null" s, strip_prefix "true" s,
                  strip_prefix "false" s with
            | Some rest, _, _ => Some (JNull, rest)
            | _, Some rest, _ => Some (JBool true, rest)
            | _, _, Some rest => Some (JBool false, rest)
            | _, _, _ =>
                match parse_digits 0 false s with
                | Some (n, rest) => Some (JNum n, rest)
                | None => None
                end
            end
      end
  end.

(** Modelled from the spec: [JSON.stringify] on a document (one line of
    the backing file). *)
Definition JSON_stringify (d : Obj) : outcome string := Ok (stringify (JObj d)).

(** Modelled from the spec: [JSON.parse] of one line of the backing file,
    read at the type of documents: a text that is no JSON text throws, and
    so does here a JSON text that is no object. *)
Definition JSON_parse (s : string) : outcome Obj :=
  match parse_value (S (String.length s)) s with
  | Some (JObj o, EmptyString) => Ok o
  | Some _ => Throw (Foreign "not a document")
  | None => Throw (Foreign "SyntaxError")
  end.

Definition helpers : Helpers :=
  Build_Helpers isObject isId isValidDoc isValidUpdate hasOperators
    isQueryMatch modify project generateUid toArray JSON_parse JSON_stringify
    project_exotic modify_exotic.

End Reference.

(** ** Calls and reachable states *)

(** The state the constructor leaves before any autoload: the policy and the
    backing file are fixed, the index is empty. *)
Definition new_LeafDB (strict : bool) (file : option string) : LeafDB :=
  mkDB strict file ∅ [].

Inductive call : Type :=
| Load
| Persist
| Insert (payload : OneOrMore Obj)
| FindOne (id : string) (projection : option (list string))
| FindMany (ids : OneOrMore string) (projection : option (list string))
| Find (query : Obj) (projection : option (list string))
| UpdateById (query : OneOrMore string) (upd : Obj)
    (projection : option (list string))
| Update (query upd : Obj) (projection : option (list string))
| DeleteById (query : OneOrMore string)
| Delete (query : Obj)
| Drop.

Section Reachability.
Context `{H : Helpers}.

(** The world a call leaves behind, whether it returned or threw. *)
Definition after (c : call) (w : World) : World :=
  match c with
  | Load => (Model.load w).2
  | Persist => (Model.persist w).2
  | Insert p => (Model.insert p w).2
  | FindOne i p => (Model.findOne i p w).2
  | FindMany i p => (Model.findMany i p w).2
  | Find q p => (Model.find q p w).2
  | UpdateById q u p => (Model.updateById q u p w).2
  | Update q u p => (Model.update q u p w).2
  | DeleteById q => (Model.deleteById q w).2
  | Delete q => (Model.delete q w).2
  | Drop => (Model.drop w).2
  end.

(** States of a store from its construction on; between two calls the
    files may change under the store. *)
Inductive reachable : World -> Prop :=
| reach_new strict file files n :
    reachable (mkWorld (new_LeafDB strict file) files n)
| reach_call c w :
    reachable w -> reachable (after c w)
| reach_files w files :
    reachable w -> reachable (mkWorld (db w) files (uid w)).

End Reachability.

(** ** Invariants of the index *)

(** The sequence and the mapping describe the same identifiers, each once. *)
Definition bijection (d : LeafDB) : Prop :=
  NoDup (db_list d) /\
  forall k : string, k ∈ db_list d <-> is_Some (db_map d !! k).

(** Every stored document carries the identifier it is stored under. *)
Definition ids_consistent (d : LeafDB) : Prop :=
  forall (k : string) (doc : Obj), db_map d !! k = Some doc -> get_id doc = Some k.

(** The sequence names each identifier once, and each has its entry. *)
Definition members_stored (d : LeafDB) : Prop :=
  NoDup (db_list d) /\
  forall k : string, k ∈ db_list d -> is_Some (db_map d !! k).

(** The documents of the sequence, and the documents without tombstone,
    carry the identifier they are stored under. *)
Definition ids_carried (d : LeafDB) : Prop :=
  forall (k : string) (doc : Obj),
    db_map d !! k = Some doc ->
    k ∈ db_list d \/ is_deleted doc = false ->
    get_id doc = Some k.

(** ** Views of the index used to state the properties *)

(** The world in which the identifier [k] was never in the index. *)
Definition forget (k : string) (w : World) : World :=
  mkWorld
    (mkDB (db_strict (db w)) (db_file (db w))
          (delete k (db_map (db w)))
          (filter (fun k' => k' ≠ k) (db_list (db w))))
    (fs w) (uid w).

(** The world after [this.list.delete(k); delete this.map[k]]: the
    prototype installed under [__proto__] stays. *)
Definition dropped (k : string) (w : World) : World :=
  mkWorld
    (mkDB (db_strict (db w)) (db_file (db w))
          (if decide (k = "__proto__") then db_map (db w)
           else delete k (db_map (db w)))
          (filter (fun k' => k' ≠ k) (db_list (db w))))
    (fs w) (uid w).

(** [this.map[k]] is truthy and has no tombstone: the test of the methods
    that take identifiers. *)
Definition live_read (m : gmap string Obj) (k : string) : bool :=
  match map_read m k with
  | Some v => negb (flagged v)
  | None => false
  end.

(** The identifiers whose document carries the tombstone. *)
Definition tombstones (m : gmap string Obj) : gset string :=
  dom (filter (fun kv => is_deleted kv.2 = true) m).

(** [k] is stored and its document is not tombstoned. *)
Definition live_at (m : gmap string Obj) (k : string) : bool :=
  match m !! k with
  | Some d => negb (is_deleted d)
  | None => false
  end.

(** The index with every tombstoned document removed. *)
Definition purge (d : LeafDB) : LeafDB :=
  mkDB (db_strict d) (db_file d)
       (filter (fun kv => is_deleted kv.2 = false) (db_map d))
       (filter (fun k => live_at (db_map d) k = true) (db_list d)).

(** The world after [this.map[k] = doc]. *)
Definition set_doc (k : string) (doc : Obj) (w : World) : World :=
  mkWorld (mkDB (db_strict (db w)) (db_file (db w))
                (<[k := doc]> (db_map (db w))) (db_list (db w)))
          (fs w) (uid w).

(** The world after [this.list.add(k); this.map[k] = doc]. *)
Definition put_doc (k : string) (doc : Obj) (w : World) : World :=
  mkWorld (mkDB (db_strict (db w)) (db_file (db w))
                (<[k := doc]> (db_map (db w))) (set_add k (db_list (db w))))
          (fs w) (uid w).

(** The live documents stored under the identifiers [ks], in their order. *)
Definition live_docs (m : gmap string Obj) (ks : list string) : list Obj :=
  omap (fun k => match m !! k with
                 | Some doc => if is_deleted doc then None else Some doc
                 | None => None
                 end) ks.

(** The document [d] is stored under [k]. *)
Definition stored_at (k : string) (d : Obj) (w : World) : Prop :=
  db_map (db w) !! k = Some d.

(** A turn of a loop on [x] commutes with forgetting [k], and leaves [d]
    stored under [k]. *)
Definition commutes_with_forget {B} (k : string) (d : Obj)
    (body : B -> string -> M B) (x : string) : Prop :=
  forall acc w, stored_at k d w ->
    body acc x (forget k w) = ((body acc x w).1, forget k (body acc x w).2) /\
    stored_at k d (body acc x w).2.


(** The world after [generateUid()] was called once more. *)
Definition next_uid (w : World) : World :=
  mkWorld (db w) (fs w) (S (uid w)).

(** The world after [flush]. *)
Definition flushed (w : World) : World :=
  mkWorld (new_LeafDB (db_strict (db w)) (db_file (db w))) (fs w) (uid w).

(** The world after the documents [docs] were put in the index in turn. *)
Definition restore (docs : list Obj) (w : World) : World :=
  fold_left (fun w doc => put_doc (id_key doc) doc w) docs w.

Section Views.
Context `{H : Helpers}.


(** What the [try] block of [load] makes of a line: the document, or the
    error of [JSON.parse] or of the shape validation. *)
Definition line_doc (rawDoc : string) : outcome Obj :=
  match JSON_parse rawDoc with
  | Ok doc => if isValidDoc doc true then Ok doc else Throw (InvalidDoc doc)
  | Throw e => Throw e
  end.

(** A non-empty line that fails to parse or to validate. *)
Definition corrupt (rawDoc : string) : bool :=
  negb (bool_decide (rawDoc = "")) &&
  match line_doc rawDoc with
  | Ok _ => false
  | Throw _ => true
  end.

(** The documents of the well-formed lines, in the order of the lines. *)
Definition docs_of (lines : list string) : list Obj :=
  omap (fun rawDoc =>
          if decide (rawDoc = "") then None
          else match line_doc rawDoc with
               | Ok doc => Some doc
               | Throw _ => None
               end) lines.

(** The line [persist] writes for the identifier [k], if any. *)
Definition serialized (m : gmap string Obj) (k : string) : option string :=
  match m !! k with
  | Some doc =>
      if is_deleted doc then None
      else match JSON_stringify doc with
           | Ok line => Some line
           | Throw _ => None
           end
  | None => None
  end.

(** The [try] block of [persist] throws on [k]: no document is stored
    under it, or its live document fails to serialize. *)
Definition unserializable (m : gmap string Obj) (k : string) : bool :=
  match m !! k with
  | Some doc =>
      negb (is_deleted doc) &&
      match JSON_stringify doc with
      | Ok _ => false
      | Throw _ => true
      end
  | None => true
  end.

(** What the [catch] block of [persist] has caught on [k]: the error of
    [JSON.stringify], or the one of reading [$deleted] of [undefined]. *)
Definition failure (m : gmap string Obj) (k : string) : error :=
  match m !! k with
  | Some doc =>
      match JSON_stringify doc with
      | Throw e => e
      | Ok _ => TypeError k
      end
  | None => TypeError k
  end.

(** [doc] goes to one non-empty line of text and comes back from it as a
    valid document. *)
Definition roundtrips (doc : Obj) : Prop :=
  exists line,
    JSON_stringify doc = Ok line /\ line <> "" /\ has_char LF line = false /\
    JSON_parse line = Ok doc /\ isValidDoc doc true = true.

(** [persist] and [load] can carry the index of [w]: the sequence has no
    duplicates, each of its members has its entry, and each live one is
    stored under its own identifier and round-trips. *)
Definition persistable (w : World) : Prop :=
  NoDup (db_list (db w)) /\
  forall k, k ∈ db_list (db w) ->
    exists doc, db_map (db w) !! k = Some doc /\
      (is_deleted doc = false -> get_id doc = Some k /\ roundtrips doc).

End Views.

(** ** Further views of a store *)

(** The calls that read or write the backing file. *)
Definition uses_files (c : call) : bool :=
  match c with
  | Load | Persist | Drop => true
  | _ => false
  end.

(** The policy, the backing file and the files of a world. *)
Definition config_of (w : World) : bool * option string * gmap string string :=
  (db_strict (db w), db_file (db w), fs w).

(** [w'] has the policy and the backing file of [w], and every file but
    the backing file of [w] is in [w'] as it is in [w]. *)
Definition same_store (w w' : World) : Prop :=
  db_strict (db w') = db_strict (db w) /\
  db_file (db w') = db_file (db w) /\
  forall f, db_file (db w) <> Some f -> fs w' !! f = fs w !! f.

Section Selection.
Context `{H : Helpers}.

(** [k] is stored, live, and its document matches [query]. *)
Definition selected (query : Obj) (m : gmap string Obj) (k : string) : bool :=
  match m !! k with
  | Some doc =>
      negb (is_deleted doc) &&
      match isQueryMatch doc query with
      | Ok true => true
      | _ => false
      end
  | None => false
  end.

(** The document [update] or [updateById] stores for the live document
    under [k], and what it returns for it. *)
Definition updated (upd : Obj) (projection : option (list string))
    (m : gmap string Obj) (k : string) (stored returned : Obj) : Prop :=
  exists doc newDoc,
    m !! k = Some doc /\ newDoc_of doc upd = Ok newDoc /\
    stored = with_id newDoc k /\ project stored projection = Ok returned.

(** Nothing is left for [delete(query)] to do on [k]: its document is
    tombstoned, or does not match. *)
Definition settled (query : Obj) (w : World) (k : string) : Prop :=
  exists doc, db_map (db w) !! k = Some doc /\
              (is_deleted doc = true \/ isQueryMatch doc query = Ok false).

(** What [updateById] stores under [k] for the truthy value without
    tombstone that [this.map[k]] evaluates to, and what it returns for it. *)
Definition updated_value (upd : Obj) (projection : option (list string))
    (m : gmap string Obj) (k : string) (stored returned : Obj) : Prop :=
  exists v newDoc,
    map_read m k = Some v /\ newDoc_of_value v upd = Ok newDoc /\
    stored = with_id newDoc k /\ project stored projection = Ok returned.

(** Nothing is left for [deleteById] to do on [k]: a valid identifier
    under which [this.map] has nothing live. *)
Definition settled_id (w : World) (k : string) : Prop :=
  isId k = true /\ live_read (db_map (db w)) k = false.

(** The entry of [k] lets a turn of [update] run to its end. *)
Definition update_ready (q u : Obj) (p : option (list string))
    (m : gmap string Obj) (k : string) : Prop :=
  exists doc, m !! k = Some doc /\
    (is_deleted doc = true \/ isQueryMatch doc q = Ok false \/
     (isQueryMatch doc q = Ok true /\
      exists newDoc r, newDoc_of doc u = Ok newDoc /\
                       project (with_id newDoc k) p = Ok r)).

(** The identifier [k] lets a turn of [updateById] run to its end. *)
Definition updateById_ready (u : Obj) (p : option (list string))
    (m : gmap string Obj) (k : string) : Prop :=
  isId k = true /\
  forall v, map_read m k = Some v -> flagged v = false ->
    exists newDoc r, newDoc_of_value v u = Ok newDoc /\
                     project (with_id newDoc k) p = Ok r.

(** [!newDoc._id]: the document is given an identifier by [insert]. *)
Definition lacks_id (newDoc : Obj) : bool :=
  match get_id newDoc with
  | Some _id => bool_decide (_id = "")
  | None => true
  end.

(** The documents [insert] stores for [newDocs] when [n] identifiers were
    generated before: a document without an identifier gets the next one. *)
Fixpoint assign_ids (n : nat) (newDocs : list Obj) : list Obj :=
  match newDocs with
  | [] => []
  | newDoc :: r =>
      if lacks_id newDoc
      then with_id newDoc (generateUid n) :: assign_ids (S n) r
      else newDoc :: assign_ids n r
  end.

(** The guard of [insert]: the payload is an array or an object. *)
Definition insertable (payload : OneOrMore Obj) : bool :=
  match payload with
  | More _ => true
  | One o => isObject (JObj o)
  end.

End Selection.

(** ** The constructor *)

(** The options of [new LeafDB(options)]; an option left out is [None],
    or [false] for a flag. *)
Module Options.
Record t : Type := mk {
  name : option string;
  root : option string;
  disableAutoload : bool;
  strict : bool
}.
End Options.

Section Constructor.
Context `{H : Helpers}.

(** [fs.mkdirSync(root, { recursive: true })] and [path.resolve(root, file)]
    of the platform. *)
Variable mkdirSync : string -> M unit.
Variable path_resolve : string -> string -> string.

(** [`${options?.name || 'leafdb'}.txt`] *)
Definition file_name (options : Options.t) : string :=
  match Options.name options with
  | Some n => if decide (n = "") then "leafdb" else n
  | None => "leafdb"
  end +:+ ".txt".

(** [this.file = file] *)
Definition set_file (file : string) : M unit :=
  let* d := get_db in
  put_db (mkDB (db_strict d) (Some file) (db_map d) (db_list d)).

(** [constructor(options)] (lines 54-69), run on the world the instance is
    built in; [options?.root] is falsy when left out and when empty. *)
Definition constructor (options : Options.t) : M unit :=
  put_db (mkDB (Options.strict options) None ∅ []);;
  match Options.root options with
  | Some root =>
      if decide (root = "") then ret tt
      else
        mkdirSync root;;
        set_file (path_resolve root (file_name options));;
        if Options.disableAutoload options then ret tt
        else Model.load;; ret tt
  | None => ret tt
  end.

End Constructor.

(** ** Concrete stores

    The documents of the scenarios of the specification, with the
    identifiers as strings, in a store backed by the file [leafdb.txt]. *)

Module Example.

Definition doc1 : Obj := [("_id", JStr "1"); ("type", JStr "normal")].
Definition doc2 : Obj :=
  [("_id", JStr "2"); ("type", JStr "normal"); ("important", JBool true)].
Definition doc3 : Obj := [("_id", JStr "3"); ("type", JStr "strong")].

(** A later version of [doc1]. *)
Definition doc1' : Obj := [("_id", JStr "1"); ("type", JStr "strong")].

(** A field name with a dot: not a valid document. *)
Definition broken : Obj := [("properties.type", JStr "strong")].

Definition path : string := "leafdb.txt".

(** A new store, lenient or strict, with nothing on disk. *)
Definition fresh (strict : bool) : World :=
  mkWorld (new_LeafDB strict (Some path)) ∅ 0.

(** The store holding the three documents. *)
Definition three : World :=
  mkWorld (mkDB false (Some path)
                (<["3" := doc3]> (<["2" := doc2]> (<["1" := doc1]> ∅)))
                ["1"; "2"; "3"])
          ∅ 0.

(** The same store once [doc2] is tombstoned. *)
Definition two_left : World :=
  mkWorld (mkDB false (Some path)
                (<["2" := mark_deleted doc2]>
                   (<["3" := doc3]> (<["2" := doc2]> (<["1" := doc1]> ∅))))
                ["1"; "2"; "3"])
          ∅ 0.

(** [{"_id":"1","type":"normal"}] *)
Definition line1 : string := Reference.stringify (JObj doc1).

(** [{"_id":"1","type":"strong"}] *)
Definition line1' : string := Reference.stringify (JObj doc1').

(** The store of the three documents under the strict policy. *)
Definition three_strict : World :=
  mkWorld (mkDB true (Some path) (db_map (db three)) (db_list (db three))) ∅ 0.

(** The reference helpers on a platform whose [JSON.stringify] throws on
    the documents with a field [important], as it throws on a value that
    holds a cycle or a BigInt, which [JSON] leaves out. *)
Definition refuse_important (d : Obj) : outcome string :=
  match obj_get "important" d with
  | Some _ => Throw (Foreign "Do not know how to serialize a BigInt")
  | None => Reference.JSON_stringify d
  end.

Definition refusing : Helpers :=
  Build_Helpers Reference.isObject Reference.isId Reference.isValidDoc
    Reference.isValidUpdate Reference.hasOperators Reference.isQueryMatch
    Reference.modify Reference.project Reference.generateUid
    (@Reference.toArray) Reference.JSON_parse refuse_important
    Reference.project_exotic Reference.modify_exotic.

(** A line that is not JSON. *)
Definition garbage : string := "{oops".

(** A store whose file has one well-formed line and one line of garbage. *)
Definition half_corrupt (strict : bool) : World :=
  mkWorld (new_LeafDB strict (Some path))
          {[ path := line1 +:+ String LF garbage ]} 0.

(** A store whose file has two lines for the identifier [1]. *)
Definition twice (strict : bool) : World :=
  mkWorld (new_LeafDB strict (Some path))
          {[ path := line1 +:+ String LF line1' ]} 0.

End Example.


(** ** A platform for the concrete stores

    The directories exist already, and a path resolves against the working
    directory. *)

Module Platform.

Definition mkdirSync (root : string) : M unit := ret tt.

Definition path_resolve (root file : string) : string :=
  if decide (root = ".") then file else root +:+ "/" +:+ file.

(** The options of a lenient store on [./leafdb.txt] with autoload. *)
Definition here : Options.t := Options.mk None (Some ".") false false.

(** The options of a strict store in memory, the root being empty. *)
Definition nowhere : Options.t := Options.mk (Some "db") (Some "") false true.

End Platform.
(** ** Objects *)

Lemma obj_get_set_eq k v o : obj_get k (obj_set k v o) = Some v.
Proof.
  induction o as [|[k' v'] r IH]; simpl.
  - by rewrite decide_True.
  - destruct (decide (k = k')) as [->|Hne]; simpl.
    + by rewrite decide_True.
    + by rewrite decide_False.
Qed.

Lemma obj_get_set_ne k k' v o : k <> k' -> obj_get k' (obj_set k v o) = obj_get k' o.
Proof.
  intros Hne. induction o as [|[k0 v0] r IH]; simpl.
  - by rewrite decide_False.
  - destruct (decide (k = k0)) as [->|Hk]; simpl.
    + by rewrite !decide_False.
    + destruct (decide (k' = k0)); [done | apply IH].
Qed.

Lemma get_id_with_id d k : get_id (with_id d k) = Some k.
Proof. unfold get_id, with_id. by rewrite obj_get_set_eq. Qed.

Lemma id_key_with_id d k : id_key (with_id d k) = k.
Proof. unfold id_key. by rewrite get_id_with_id. Qed.

Lemma get_id_mark_deleted d : get_id (mark_deleted d) = get_id d.
Proof. unfold get_id, mark_deleted. by rewrite obj_get_set_ne. Qed.

Lemma is_deleted_mark_deleted d : is_deleted (mark_deleted d) = true.
Proof. unfold is_deleted, mark_deleted. by rewrite obj_get_set_eq. Qed.

Lemma id_key_get_id d k : get_id d = Some k -> id_key d = k.
Proof. unfold id_key. by intros ->. Qed.

(** ** The set of identifiers *)

Lemma elem_of_set_add k k' l : k ∈ set_add k' l <-> k = k' \/ k ∈ l.
Proof.
  unfold set_add. case_decide; [|rewrite elem_of_app, list_elem_of_singleton].
  - split; [auto | intros [->|]; done].
  - tauto.
Qed.

Lemma NoDup_set_add k l : NoDup l -> NoDup (set_add k l).
Proof.
  intros Hl. unfold set_add. case_decide; [done|].
  apply NoDup_app. split_and!; [done | | apply NoDup_singleton].
  intros x Hx ->%list_elem_of_singleton. done.
Qed.

Lemma set_add_fresh k l : k ∉ l -> set_add k l = l ++ [k].
Proof. intros. unfold set_add. by rewrite decide_False. Qed.

Lemma set_add_known k l : k ∈ l -> set_add k l = l.
Proof. intros. unfold set_add. by rewrite decide_True. Qed.

(** ** Running loops *)

Lemma foldM_app {A B} (body : B -> A -> M B) (l1 l2 : list A) (acc : B) (w : World) :
  foldM body (l1 ++ l2) acc w =
  match foldM body l1 acc w with
  | (Ok acc', w') => foldM body l2 acc' w'
  | (Throw e, w') => (Throw e, w')
  end.
Proof.
  revert acc w. induction l1 as [|x l1 IH]; intros acc w; simpl; [done|].
  unfold bind. destruct (body acc x w) as [[acc'|e] w']; [apply IH | done].
Qed.

(** A property of the world that every turn of a loop keeps is kept by the
    loop, whether it runs to its end or throws on the way. *)
Lemma foldM_keeps {A B} (I : World -> Prop) (body : B -> A -> M B) (l : list A) :
  (forall acc x w, I w -> I (body acc x w).2) ->
  forall acc w, I w -> I (foldM body l acc w).2.
Proof.
  intros Hbody. induction l as [|x l IH]; intros acc w Hw; simpl; [done|].
  unfold bind. specialize (Hbody acc x w Hw).
  destruct (body acc x w) as [[acc'|e] w']; simpl in *; [by apply IH | done].
Qed.

(** ** The bijection between the sequence and the mapping *)

Lemma bijection_new strict file : bijection (new_LeafDB strict file).
Proof.
  split; simpl; [apply NoDup_nil_2|].
  intros k. rewrite lookup_empty. split; [by intros ?%elem_of_nil | by intros [? ?]].
Qed.

Lemma bijection_put s f (m : gmap string Obj) l k doc :
  bijection (mkDB s f m l) ->
  bijection (mkDB s f (<[k := doc]> m) (set_add k l)).
Proof.
  intros [Hnd Hiff]; simpl in *. split; simpl; [by apply NoDup_set_add|].
  intros k'. rewrite elem_of_set_add, lookup_insert_is_Some, Hiff.
  destruct (decide (k = k')); by intuition (subst; eauto; try congruence).
Qed.

Lemma bijection_replace s f (m : gmap string Obj) l k doc :
  is_Some (m !! k) ->
  bijection (mkDB s f m l) ->
  bijection (mkDB s f (<[k := doc]> m) l).
Proof.
  intros Hk [Hnd Hiff]; simpl in *. split; simpl; [done|].
  intros k'. rewrite lookup_insert_is_Some, Hiff.
  destruct (decide (k = k')); by intuition (subst; eauto; try congruence).
Qed.

Lemma bijection_remove s f (m : gmap string Obj) l k :
  bijection (mkDB s f m l) ->
  bijection (mkDB s f (delete k m) (filter (fun k' => k' ≠ k) l)).
Proof.
  intros [Hnd Hiff]; simpl in *. split; simpl; [by apply NoDup_filter|].
  intros k'. rewrite list_elem_of_filter, lookup_delete_is_Some, Hiff.
  by intuition (subst; eauto; try congruence).
Qed.


(** ** Reading [this.map] *)

Lemma map_read_stored (m : gmap string Obj) k doc :
  m !! k = Some doc -> map_read m k = Some (Document doc).
Proof. unfold map_read. by intros ->. Qed.

Lemma map_read_absent (m : gmap string Obj) k :
  m !! k = None -> k <> "__proto__" -> map_read m k = inherited m k.
Proof. unfold map_read. intros -> Hk. by rewrite decide_False. Qed.

Lemma map_read_insert_eq (m : gmap string Obj) k doc :
  map_read (<[k := doc]> m) k = Some (Document doc).
Proof. apply map_read_stored, lookup_insert_eq. Qed.

(** An assignment under a name other than [__proto__] changes what that
    name evaluates to, and nothing else. *)
Lemma map_read_insert_ne (m : gmap string Obj) x k doc :
  x <> k -> x <> "__proto__" -> map_read (<[x := doc]> m) k = map_read m k.
Proof.
  intros Hne Hx. unfold map_read, inherited.
  rewrite lookup_insert_ne by done.
  destruct (m !! k); [done|]. case_decide; [done|].
  by rewrite lookup_insert_ne.
Qed.

(** An assignment leaves alone every name that has its own property. *)
Lemma map_read_insert_stored (m : gmap string Obj) x k doc d :
  x <> k -> m !! k = Some d -> map_read (<[x := doc]> m) k = Some (Document d).
Proof. intros Hne Hk. apply map_read_stored. by rewrite lookup_insert_ne. Qed.

Lemma live_read_stored (m : gmap string Obj) k doc :
  m !! k = Some doc -> live_read m k = negb (is_deleted doc).
Proof. intros Hk. unfold live_read. by rewrite (map_read_stored m k doc). Qed.

(** ** Reading never changes the world *)

Section Reads.
Context `{H : Helpers}.

Lemma live_match_world query _id w : (live_match query _id w).2 = w.
Proof.
  unfold live_match, bind, map_member, lift, ret, throw; simpl.
  destruct (db_map (db w) !! _id) as [doc|]; [|done].
  destruct (is_deleted doc); simpl; [done|].
  by destruct (isQueryMatch doc query).
Qed.

Lemma live_match_hit query _id w doc :
  (live_match query _id w).1 = Ok (Some doc) ->
  db_map (db w) !! _id = Some doc /\ is_deleted doc = false /\
  isQueryMatch doc query = Ok true.
Proof.
  unfold live_match, bind, map_member, lift, ret, throw; simpl.
  destruct (db_map (db w) !! _id) as [doc'|]; [|done].
  destruct (is_deleted doc') eqn:Hdel; simpl; [done|].
  destruct (isQueryMatch doc' query) as [[]|] eqn:Hq; simpl; intros [=]; by subst.
Qed.

Lemma findOne_world id projection w : (Model.findOne id projection w).2 = w.
Proof.
  unfold Model.findOne. destruct (isId id); simpl; [|done].
  unfold bind, map_get, lift, ret; simpl.
  destruct (map_read (db_map (db w)) id) as [v|]; [|done].
  destruct (flagged v); simpl; [done|].
  by destruct (project_value v projection).
Qed.

Lemma findMany_id_world projection acc x w :
  (findMany_id projection acc x w).2 = w.
Proof.
  unfold findMany_id. destruct (isId x); simpl; [|done].
  unfold bind, map_get, lift, ret; simpl.
  destruct (map_read (db_map (db w)) x) as [v|]; [|done].
  destruct (flagged v); simpl; [done|].
  by destruct (project_value v projection).
Qed.

Lemma findMany_world ids projection w : (Model.findMany ids projection w).2 = w.
Proof.
  unfold Model.findMany. destruct ids as [s|l]; [done|].
  apply (foldM_keeps (fun w' => w' = w)); [|done].
  intros acc _id w' ->. apply findMany_id_world.
Qed.

Lemma find_world query projection w : (Model.find query projection w).2 = w.
Proof.
  unfold Model.find. destruct (isObject (JObj query)); simpl; [|done].
  unfold bind, get_db; simpl.
  apply (foldM_keeps (fun w' => w' = w)); [|done].
  intros acc _id w' ->. unfold find_entry, bind.
  pose proof (live_match_world query _id w) as Hw.
  destruct (live_match query _id w) as [[[doc|]|e] w']; simpl in *; subst; try done.
  unfold lift, ret. by destruct (project doc projection).
Qed.

Lemma drop_unfold w :
  Model.drop w =
  let w0 := mkWorld (new_LeafDB (db_strict (db w)) (db_file (db w))) (fs w) (uid w) in
  match db_file (db w) with
  | Some _ => Model.persist w0
  | None => (Ok tt, w0)
  end.
Proof.
  unfold Model.drop, flush, bind, get_db, put_db, ret; simpl.
  by destruct (db_file (db w)).
Qed.

End Reads.

(** ** One turn of each loop, as a function of the world *)

Section Turns.
Context `{H : Helpers}.

Lemma live_match_run query x w :
  live_match query x w = ((live_match query x w).1, w).
Proof.
  rewrite <- (live_match_world query x w) at 3. by destruct (live_match query x w).
Qed.

Lemma live_match_eval query x w :
  (live_match query x w).1 =
  match db_map (db w) !! x with
  | None => Throw (TypeError x)
  | Some doc =>
      if is_deleted doc then Ok None
      else match isQueryMatch doc query with
           | Ok b => Ok (if b then Some doc else None)
           | Throw e => Throw e
           end
  end.
Proof.
  unfold live_match, bind, map_member, lift, ret, throw; simpl.
  destruct (db_map (db w) !! x) as [doc|]; [|done].
  destruct (is_deleted doc); simpl; [done|].
  by destruct (isQueryMatch doc query) as [[]|].
Qed.

Lemma store_update_run newDoc projection acc x w :
  store_update newDoc projection acc x w =
  match newDoc with
  | Throw e => (Throw e, w)
  | Ok newDoc =>
      match project (with_id newDoc x) projection with
      | Ok p => (Ok (acc ++ [p]), set_doc x (with_id newDoc x) w)
      | Throw e => (Throw e, set_doc x (with_id newDoc x) w)
      end
  end.
Proof.
  unfold store_update, bind, lift, map_set, get_db, put_db, ret; simpl.
  destruct newDoc as [newDoc|e]; simpl; [|done].
  by destruct (project (with_id newDoc x) projection).
Qed.

Lemma apply_update_run upd projection acc x doc w :
  apply_update upd projection acc x doc w =
  match newDoc_of doc upd with
  | Throw e => (Throw e, w)
  | Ok newDoc =>
      match project (with_id newDoc x) projection with
      | Ok p => (Ok (acc ++ [p]), set_doc x (with_id newDoc x) w)
      | Throw e => (Throw e, set_doc x (with_id newDoc x) w)
      end
  end.
Proof. unfold apply_update. apply store_update_run. Qed.

Lemma updateById_id_run upd projection acc x w :
  updateById_id upd projection acc x w =
  if isId x then
    match map_read (db_map (db w)) x with
    | Some v =>
        if flagged v then (Ok acc, w)
        else store_update (newDoc_of_value v upd) projection acc x w
    | None => (Ok acc, w)
    end
  else (Throw (InvalidId x), w).
Proof.
  unfold updateById_id. destruct (isId x); simpl; [|done].
  unfold bind, map_get; simpl.
  destruct (map_read (db_map (db w)) x) as [v|]; [|done]. by destruct (flagged v).
Qed.


Lemma update_entry_run query upd projection acc x w :
  update_entry query upd projection acc x w =
  match (live_match query x w).1 with
  | Ok (Some doc) => apply_update upd projection acc x doc w
  | Ok None => (Ok acc, w)
  | Throw e => (Throw e, w)
  end.
Proof.
  unfold update_entry, bind. rewrite (live_match_run query x w); simpl.
  by destruct (live_match query x w).1 as [[doc|]|e].
Qed.

Lemma deleteById_id_run acc x w :
  deleteById_id acc x w =
  if isId x then
    match map_read (db_map (db w)) x with
    | Some v =>
        if flagged v then (Ok acc, w)
        else (Ok (acc + 1), set_doc x (mark_deleted (spread v)) w)
    | None => (Ok acc, w)
    end
  else (Throw (InvalidId x), w).
Proof.
  unfold deleteById_id. destruct (isId x); simpl; [|done].
  unfold bind, map_get, map_set, get_db, put_db, ret; simpl.
  destruct (map_read (db_map (db w)) x) as [v|]; [|done]. by destruct (flagged v).
Qed.

(** The turn of [deleteById] on an identifier that has its own entry. *)
Lemma deleteById_id_stored acc x doc w :
  db_map (db w) !! x = Some doc ->
  deleteById_id acc x w =
  if isId x then
    if is_deleted doc then (Ok acc, w)
    else (Ok (acc + 1), set_doc x (mark_deleted doc) w)
  else (Throw (InvalidId x), w).
Proof.
  intros Hx. by rewrite deleteById_id_run, (map_read_stored _ x doc).
Qed.

Lemma delete_entry_run query acc x w :
  delete_entry query acc x w =
  match (live_match query x w).1 with
  | Ok (Some doc) => (Ok (acc + 1), set_doc x (mark_deleted doc) w)
  | Ok None => (Ok acc, w)
  | Throw e => (Throw e, w)
  end.
Proof.
  unfold delete_entry, bind. rewrite (live_match_run query x w); simpl.
  by destruct (live_match query x w).1 as [[doc|]|e].
Qed.

Lemma find_entry_run query projection acc x w :
  find_entry query projection acc x w =
  match (live_match query x w).1 with
  | Ok (Some doc) =>
      match project doc projection with
      | Ok p => (Ok (acc ++ [p]), w)
      | Throw e => (Throw e, w)
      end
  | Ok None => (Ok acc, w)
  | Throw e => (Throw e, w)
  end.
Proof.
  unfold find_entry, bind. rewrite (live_match_run query x w); simpl.
  destruct (live_match query x w).1 as [[doc|]|e]; try done.
Qed.

Lemma findMany_id_run projection acc x w :
  findMany_id projection acc x w =
  if isId x then
    match map_read (db_map (db w)) x with
    | Some v =>
        if flagged v then (Ok acc, w)
        else match project_value v projection with
             | Ok p => (Ok (acc ++ [p]), w)
             | Throw e => (Throw e, w)
             end
    | None => (Ok acc, w)
    end
  else (Throw (InvalidId x), w).
Proof.
  unfold findMany_id. destruct (isId x); simpl; [|done].
  unfold bind, map_get, lift, ret; simpl.
  destruct (map_read (db_map (db w)) x) as [v|]; [|done].
  destruct (flagged v); simpl; [done|]. by destruct (project_value v projection).
Qed.

Lemma findOne_run id projection w :
  Model.findOne id projection w =
  if isId id then
    match map_read (db_map (db w)) id with
    | Some v =>
        if flagged v then (Ok None, w)
        else match project_value v projection with
             | Ok p => (Ok (Some p), w)
             | Throw e => (Throw e, w)
             end
    | None => (Ok None, w)
    end
  else (Throw (InvalidId id), w).
Proof.
  unfold Model.findOne. destruct (isId id); simpl; [|done].
  unfold bind, map_get, lift, ret; simpl.
  destruct (map_read (db_map (db w)) id) as [v|]; [|done].
  destruct (flagged v); simpl; [done|]. by destruct (project_value v projection).
Qed.

Lemma findMany_unfold ids projection w :
  Model.findMany ids projection w =
  match ids with
  | One s => (Throw (InvalidIds s), w)
  | More _ => foldM (findMany_id projection) (toArray ids) [] w
  end.
Proof. by destruct ids. Qed.

Lemma delete_unfold query w :
  Model.delete query w =
  if isObject (JObj query) then foldM (delete_entry query) (db_list (db w)) 0 w
  else (Throw (InvalidQuery query), w).
Proof. unfold Model.delete. by destruct (isObject (JObj query)). Qed.

Lemma find_unfold query projection w :
  Model.find query projection w =
  if isObject (JObj query)
  then foldM (find_entry query projection) (db_list (db w)) [] w
  else (Throw (InvalidQuery query), w).
Proof. unfold Model.find. by destruct (isObject (JObj query)). Qed.

Lemma update_unfold query upd projection w :
  Model.update query upd projection w =
  if isObject (JObj query) then
    if isValidUpdate upd
    then foldM (update_entry query upd projection) (db_list (db w)) [] w
    else (Throw (InvalidUpdate upd), w)
  else (Throw (InvalidQuery query), w).
Proof.
  unfold Model.update. destruct (isObject (JObj query)); [|done].
  by destruct (isValidUpdate upd).
Qed.

Lemma updateById_unfold query upd projection w :
  Model.updateById query upd projection w =
  if isValidUpdate upd
  then foldM (updateById_id upd projection) (toArray query) [] w
  else (Throw (InvalidUpdate upd), w).
Proof. unfold Model.updateById. by destruct (isValidUpdate upd). Qed.

End Turns.

(** ** Tombstoned documents are invisible *)

Section Tombstone.
Context `{H : Helpers}.
Variables (k : string) (d : Obj).
Hypothesis Hdel : is_deleted d = true.

Lemma foldM_forget_skip {B} (body : B -> string -> M B) (l : list string) :
  (forall x, x <> k -> commutes_with_forget k d body x) ->
  (forall acc w, stored_at k d w -> body acc k w = (Ok acc, w)) ->
  forall acc w, stored_at k d w ->
    foldM body (filter (fun k' => k' ≠ k) l) acc (forget k w)
    = ((foldM body l acc w).1, forget k (foldM body l acc w).2) /\
    stored_at k d (foldM body l acc w).2.
Proof.
  intros Hbody Hskip. induction l as [|x l IH]; intros acc w Hw; [done|].
  destruct (decide (x = k)) as [->|Hne].
  - rewrite filter_cons_False by (by intros ?). simpl. unfold bind.
    rewrite Hskip by done. by apply IH.
  - rewrite filter_cons_True by done. simpl. unfold bind.
    destruct (Hbody x Hne acc w Hw) as [E Hh]. rewrite E.
    destruct (body acc x w) as [[acc'|e] w1]; simpl in *; [by apply IH | done].
Qed.

(** A loop whose turn on [k] does nothing runs as on the identifiers
    without [k], as long as no turn touches the entry of [k]. *)
Lemma foldM_skip {B} (body : B -> string -> M B) (l : list string) :
  (forall acc w, stored_at k d w -> body acc k w = (Ok acc, w)) ->
  (forall acc x w, stored_at k d w -> stored_at k d (body acc x w).2) ->
  forall acc w, stored_at k d w ->
    foldM body l acc w = foldM body (filter (fun k' => k' ≠ k) l) acc w /\
    stored_at k d (foldM body l acc w).2.
Proof.
  intros Hskip Hstays. induction l as [|x l IH]; intros acc w Hw; [done|].
  destruct (decide (x = k)) as [->|Hne].
  - rewrite filter_cons_False by (by intros ?). simpl. unfold bind.
    rewrite Hskip by done. by apply IH.
  - rewrite filter_cons_True by done. simpl. unfold bind.
    pose proof (Hstays acc x w Hw) as Hw1.
    destruct (body acc x w) as [[acc'|e] w1]; simpl in *; [by apply IH | done].
Qed.

Lemma forget_set_doc x v w :
  x <> k -> set_doc x v (forget k w) = forget k (set_doc x v w).
Proof. intros Hne. unfold forget, set_doc; simpl. by rewrite delete_insert_ne. Qed.

Lemma stored_at_set_doc x v w :
  x <> k -> stored_at k d w -> stored_at k d (set_doc x v w).
Proof. intros Hne Hw. unfold stored_at, set_doc; simpl. by rewrite lookup_insert_ne. Qed.

Lemma lookup_forget_ne x w :
  x <> k -> db_map (db (forget k w)) !! x = db_map (db w) !! x.
Proof. intros Hne. unfold forget; simpl. by rewrite lookup_delete_ne. Qed.

Lemma live_match_forget query x w :
  x <> k -> (live_match query x (forget k w)).1 = (live_match query x w).1.
Proof. intros Hne. by rewrite !live_match_eval, lookup_forget_ne. Qed.

Lemma live_match_tombstone query w :
  stored_at k d w -> (live_match query k w).1 = Ok None.
Proof. intros Hw. rewrite live_match_eval. unfold stored_at in Hw. by rewrite Hw, Hdel. Qed.

Lemma map_read_tombstone w :
  stored_at k d w -> map_read (db_map (db w)) k = Some (Document d).
Proof. intros Hw. by apply map_read_stored. Qed.

Lemma findMany_id_skip projection acc w :
  isId k = true -> stored_at k d w -> findMany_id projection acc k w = (Ok acc, w).
Proof.
  intros Hid Hw. rewrite findMany_id_run, Hid, map_read_tombstone by done.
  simpl. by rewrite Hdel.
Qed.

Lemma find_entry_commutes query projection x :
  x <> k -> commutes_with_forget k d (find_entry query projection) x.
Proof.
  intros Hne acc w Hw. rewrite !find_entry_run, live_match_forget by done.
  destruct (live_match query x w).1 as [[doc|]|e]; try done.
  by destruct (project doc projection).
Qed.

Lemma find_entry_skip query projection acc w :
  stored_at k d w -> find_entry query projection acc k w = (Ok acc, w).
Proof. intros Hw. by rewrite find_entry_run, live_match_tombstone. Qed.

Lemma apply_update_commutes upd projection acc x doc w :
  x <> k -> stored_at k d w ->
  apply_update upd projection acc x doc (forget k w)
  = ((apply_update upd projection acc x doc w).1,
     forget k (apply_update upd projection acc x doc w).2) /\
  stored_at k d (apply_update upd projection acc x doc w).2.
Proof.
  intros Hne Hw. rewrite !apply_update_run.
  destruct (newDoc_of doc upd) as [newDoc|e]; [|done].
  rewrite forget_set_doc by done.
  destruct (project (with_id newDoc x) projection); simpl;
    (split; [done | by apply stored_at_set_doc]).
Qed.

Lemma store_update_stays newDoc projection acc x w :
  x <> k -> stored_at k d w ->
  stored_at k d (store_update newDoc projection acc x w).2.
Proof.
  intros Hne Hw. rewrite store_update_run. destruct newDoc as [newDoc|e]; [|done].
  destruct (project (with_id newDoc x) projection); simpl; by apply stored_at_set_doc.
Qed.

Lemma updateById_id_skip upd projection acc w :
  isId k = true -> stored_at k d w ->
  updateById_id upd projection acc k w = (Ok acc, w).
Proof.
  intros Hid Hw. rewrite updateById_id_run, Hid, map_read_tombstone by done.
  simpl. by rewrite Hdel.
Qed.

Lemma updateById_id_stays upd projection acc x w :
  stored_at k d w -> stored_at k d (updateById_id upd projection acc x w).2.
Proof.
  intros Hw. destruct (decide (x = k)) as [->|Hne].
  - rewrite updateById_id_run, map_read_tombstone by done. simpl. rewrite Hdel.
    by destruct (isId k).
  - rewrite updateById_id_run. destruct (isId x); [|done].
    destruct (map_read (db_map (db w)) x) as [v|]; [|done].
    destruct (flagged v); [done|]. by apply store_update_stays.
Qed.

Lemma update_entry_commutes query upd projection x :
  x <> k -> commutes_with_forget k d (update_entry query upd projection) x.
Proof.
  intros Hne acc w Hw. rewrite !update_entry_run, live_match_forget by done.
  destruct (live_match query x w).1 as [[doc|]|e]; try done.
  by apply apply_update_commutes.
Qed.

Lemma update_entry_skip query upd projection acc w :
  stored_at k d w -> update_entry query upd projection acc k w = (Ok acc, w).
Proof. intros Hw. by rewrite update_entry_run, live_match_tombstone. Qed.

Lemma deleteById_id_skip acc w :
  isId k = true -> stored_at k d w -> deleteById_id acc k w = (Ok acc, w).
Proof.
  intros Hid Hw. rewrite deleteById_id_run, Hid, map_read_tombstone by done.
  simpl. by rewrite Hdel.
Qed.

Lemma deleteById_id_stays acc x w :
  stored_at k d w -> stored_at k d (deleteById_id acc x w).2.
Proof.
  intros Hw. destruct (decide (x = k)) as [->|Hne].
  - rewrite deleteById_id_run, map_read_tombstone by done. simpl. rewrite Hdel.
    by destruct (isId k).
  - rewrite deleteById_id_run. destruct (isId x); [|done].
    destruct (map_read (db_map (db w)) x) as [v|]; [|done].
    destruct (flagged v); [done|]. simpl. by apply stored_at_set_doc.
Qed.

Lemma delete_entry_commutes query x :
  x <> k -> commutes_with_forget k d (delete_entry query) x.
Proof.
  intros Hne acc w Hw. rewrite !delete_entry_run, live_match_forget by done.
  destruct (live_match query x w).1 as [[doc|]|e]; try done. simpl.
  rewrite forget_set_doc by done. split; [done | by apply stored_at_set_doc].
Qed.

Lemma delete_entry_skip query acc w :
  stored_at k d w -> delete_entry query acc k w = (Ok acc, w).
Proof. intros Hw. by rewrite delete_entry_run, live_match_tombstone. Qed.

Lemma findOne_tombstone projection w :
  stored_at k d w ->
  (Model.findOne k projection w).1 = if isId k then Ok None else Throw (InvalidId k).
Proof.
  intros Hw. rewrite findOne_run, map_read_tombstone by done. simpl. rewrite Hdel.
  by destruct (isId k).
Qed.

Lemma findMany_skip ids ids' projection w :
  toArray (More ids') = filter (fun x => x ≠ k) (toArray (More ids)) ->
  isId k = true -> stored_at k d w ->
  Model.findMany (More ids) projection w = Model.findMany (More ids') projection w.
Proof.
  intros Harr Hid Hw. rewrite !findMany_unfold, Harr.
  apply (foldM_skip (findMany_id projection)); [| |done].
  - intros acc w'. by apply findMany_id_skip.
  - intros acc x w' Hw'. by rewrite findMany_id_world.
Qed.

Lemma find_forget query projection w :
  stored_at k d w ->
  (Model.find query projection (forget k w)).1 = (Model.find query projection w).1.
Proof.
  intros Hw. unfold Model.find. destruct (isObject (JObj query)); simpl; [|done].
  unfold bind, get_db; simpl.
  destruct (foldM_forget_skip (find_entry query projection) (db_list (db w))
              (find_entry_commutes query projection)
              (find_entry_skip query projection) [] w Hw) as [-> _]. done.
Qed.

Lemma updateById_skip query query' upd projection w :
  toArray query' = filter (fun x => x ≠ k) (toArray query) ->
  isId k = true -> stored_at k d w ->
  Model.updateById query upd projection w = Model.updateById query' upd projection w.
Proof.
  intros Harr Hid Hw. rewrite !updateById_unfold, Harr.
  destruct (isValidUpdate upd); [|done].
  apply (foldM_skip (updateById_id upd projection)); [| |done].
  - intros acc w'. by apply updateById_id_skip.
  - intros acc x w'. apply updateById_id_stays.
Qed.

Lemma updateById_stays query upd projection w :
  stored_at k d w -> stored_at k d (Model.updateById query upd projection w).2.
Proof.
  intros Hw. rewrite updateById_unfold. destruct (isValidUpdate upd); [|done].
  apply (foldM_keeps (stored_at k d)); [|done].
  intros acc x w'. apply updateById_id_stays.
Qed.

Lemma update_forget query upd projection w :
  stored_at k d w ->
  (Model.update query upd projection (forget k w)).1
  = (Model.update query upd projection w).1 /\
  stored_at k d (Model.update query upd projection w).2.
Proof.
  intros Hw. unfold Model.update. destruct (isObject (JObj query)); simpl; [|done].
  destruct (isValidUpdate upd); simpl; [|done].
  unfold bind, get_db; simpl.
  destruct (foldM_forget_skip (update_entry query upd projection) (db_list (db w))
              (update_entry_commutes query upd projection)
              (update_entry_skip query upd projection) [] w Hw) as [-> ?]. done.
Qed.

Lemma deleteById_skip query query' w :
  toArray query' = filter (fun x => x ≠ k) (toArray query) ->
  isId k = true -> stored_at k d w ->
  Model.deleteById query w = Model.deleteById query' w.
Proof.
  intros Harr Hid Hw. unfold Model.deleteById. rewrite Harr.
  apply (foldM_skip deleteById_id); [| |done].
  - intros acc w'. by apply deleteById_id_skip.
  - intros acc x w'. apply deleteById_id_stays.
Qed.

Lemma deleteById_stays query w :
  stored_at k d w -> stored_at k d (Model.deleteById query w).2.
Proof.
  intros Hw. unfold Model.deleteById.
  apply (foldM_keeps (stored_at k d)); [|done].
  intros acc x w'. apply deleteById_id_stays.
Qed.

Lemma delete_forget query w :
  stored_at k d w ->
  (Model.delete query (forget k w)).1 = (Model.delete query w).1 /\
  stored_at k d (Model.delete query w).2.
Proof.
  intros Hw. unfold Model.delete. destruct (isObject (JObj query)); simpl; [|done].
  unfold bind, get_db; simpl.
  destruct (foldM_forget_skip (delete_entry query) (db_list (db w))
              (delete_entry_commutes query)
              (delete_entry_skip query) 0 w Hw) as [-> ?]. done.
Qed.

End Tombstone.

(** C5. A tombstoned document takes part in no read, match or update.
    [findOne] on its identifier returns [null].  [findMany], [updateById]
    and [deleteById] skip its identifier: they run, return and leave the
    store as they do for the same identifiers without it, and leave it as
    it is.  [find], [update] and [delete] return what they return on the
    store without it, and leave it as it is. *)
Theorem tombstoned_excluded `{H : Helpers} (w : World) (k : string) (d : Obj) :
  db_map (db w) !! k = Some d ->
  is_deleted d = true ->
  (forall p,
     (Model.findOne k p w).1 = if isId k then Ok None else Throw (InvalidId k)) /\
  (forall ids ids' p,
     toArray (More ids') = filter (fun x => x ≠ k) (toArray (More ids)) ->
     isId k = true ->
     Model.findMany (More ids) p w = Model.findMany (More ids') p w) /\
  (forall q p,
     (Model.find q p w).1 = (Model.find q p (forget k w)).1) /\
  (forall q q' u p,
     toArray q' = filter (fun x => x ≠ k) (toArray q) ->
     isId k = true ->
     Model.updateById q u p w = Model.updateById q' u p w) /\
  (forall q u p,
     db_map (db (Model.updateById q u p w).2) !! k = Some d) /\
  (forall q u p,
     (Model.update q u p w).1 = (Model.update q u p (forget k w)).1 /\
     db_map (db (Model.update q u p w).2) !! k = Some d) /\
  (forall q q',
     toArray q' = filter (fun x => x ≠ k) (toArray q) ->
     isId k = true ->
     Model.deleteById q w = Model.deleteById q' w) /\
  (forall q,
     db_map (db (Model.deleteById q w).2) !! k = Some d) /\
  (forall q,
     (Model.delete q w).1 = (Model.delete q (forget k w)).1 /\
     db_map (db (Model.delete q w).2) !! k = Some d).
Proof.
  intros Hk Hdel. split_and!.
  - intros p. by apply (findOne_tombstone k d Hdel).
  - intros ids ids' p Harr Hid. by apply (findMany_skip k d Hdel).
  - intros q p. symmetry. by apply (find_forget k d Hdel).
  - intros q q' u p Harr Hid. by apply (updateById_skip k d Hdel).
  - intros q u p. by apply (updateById_stays k d Hdel).
  - intros q u p. destruct (update_forget k d Hdel q u p w Hk) as [-> ?]. done.
  - intros q q' Harr Hid. by apply (deleteById_skip k d Hdel).
  - intros q. by apply (deleteById_stays k d Hdel).
  - intros q. destruct (delete_forget k d Hdel q w Hk) as [-> ?]. done.
Qed.

(** ** Updates keep identifiers *)

Section Identifier.
Context `{H : Helpers}.
Variable w0 : World.







End Identifier.


(** ** Tombstoning *)

Lemma elem_of_tombstones (m : gmap string Obj) (k : string) :
  k ∈ tombstones m <-> exists d, m !! k = Some d /\ is_deleted d = true.
Proof.
  unfold tombstones. rewrite elem_of_dom. unfold is_Some.
  setoid_rewrite map_lookup_filter_Some. simpl. done.
Qed.

(** A tombstone set on a name that had none. *)
Lemma tombstones_new (m : gmap string Obj) x base :
  (forall doc, m !! x = Some doc -> is_deleted doc = false) ->
  (x ∉ tombstones m) /\
  tombstones (<[x := mark_deleted base]> m) = {[x]} ∪ tombstones m.
Proof.
  intros Hlive. split.
  - rewrite elem_of_tombstones. intros (d & Hd & Hdel). rewrite (Hlive d Hd) in Hdel. done.
  - apply set_eq. intros k.
    rewrite elem_of_union, elem_of_singleton, !elem_of_tombstones.
    destruct (decide (x = k)) as [->|Hne].
    + rewrite lookup_insert_eq. split; [auto|].
      intros _. eexists. split; [done | apply is_deleted_mark_deleted].
    + rewrite lookup_insert_ne by done. split; [auto | intros [?|?]; [congruence | done]].
Qed.

Lemma tombstones_mark (m : gmap string Obj) x doc :
  m !! x = Some doc -> is_deleted doc = false ->
  (x ∉ tombstones m) /\
  tombstones (<[x := mark_deleted doc]> m) = {[x]} ∪ tombstones m.
Proof. intros Hx Hlive. apply tombstones_new. intros d. rewrite Hx. by intros [= <-]. Qed.

Section MarkLoop.
Variable cond : string -> Obj -> Prop.
Variable body : nat -> string -> M nat.

(** A turn throws without a trace, or passes, or tombstones the live
    document at hand, which meets [cond], and counts it, or sets a
    tombstone under a name that had no entry, and counts it. *)
Hypothesis body_turn : forall acc x w,
  (exists e, body acc x w = (Throw e, w)) \/
  (body acc x w = (Ok acc, w) /\
   forall doc, db_map (db w) !! x = Some doc -> is_deleted doc = false ->
               ~ cond x doc) \/
  (exists doc, db_map (db w) !! x = Some doc /\ is_deleted doc = false /\
               cond x doc /\
               body acc x w = (Ok (acc + 1), set_doc x (mark_deleted doc) w)) \/
  (exists base, db_map (db w) !! x = None /\
                body acc x w = (Ok (acc + 1), set_doc x (mark_deleted base) w)).

Lemma mark_loop (l : list string) : forall acc w n w',
  foldM body l acc w = (Ok n, w') ->
  size (tombstones (db_map (db w'))) + acc = size (tombstones (db_map (db w))) + n /\
  (forall k, db_map (db w') !! k = db_map (db w) !! k \/
     (exists doc, k ∈ l /\ db_map (db w) !! k = Some doc /\
                  is_deleted doc = false /\ cond k doc /\
                  db_map (db w') !! k = Some (mark_deleted doc)) \/
     (exists base, k ∈ l /\ db_map (db w) !! k = None /\
                   db_map (db w') !! k = Some (mark_deleted base))) /\
  (forall k doc, k ∈ l -> db_map (db w) !! k = Some doc ->
     is_deleted doc = false -> cond k doc ->
     db_map (db w') !! k = Some (mark_deleted doc)) /\
  db_list (db w') = db_list (db w) /\ fs w' = fs w.
Proof.
  induction l as [|x l IH]; intros acc w n w' Hrun; simpl in Hrun.
  - injection Hrun as <- <-. split_and!; [lia | by left | | done | done].
    by intros k doc ?%elem_of_nil.
  - unfold bind in Hrun.
    destruct (body_turn acc x w)
      as [[e He] | [[Hpass Hno] | [(doc & Hx & Hlive & Hc & Hmark) | (base & Hx & Hmark)]]].
    + by rewrite He in Hrun.
    + rewrite Hpass in Hrun. destruct (IH _ _ _ _ Hrun) as (Hsz & Hpt & Hall & Hl & Hf).
      split_and!; [done | | | done | done].
      * intros k. destruct (Hpt k) as [?|[(d & ? & ?)|(b & ? & ?)]]; [by left | |].
        -- right; left. exists d. rewrite elem_of_cons. by intuition.
        -- right; right. exists b. rewrite elem_of_cons. by intuition.
      * intros k d [->|Hk]%elem_of_cons Hd Hdl Hcd; [|by eapply Hall].
        by destruct (Hno d Hd Hdl).
    + rewrite Hmark in Hrun.
      destruct (IH _ _ _ _ Hrun) as (Hsz & Hpt & Hall & Hl & Hf). simpl in *.
      destruct (tombstones_mark (db_map (db w)) x doc Hx Hlive) as [Hfresh HT].
      assert (Hat : db_map (db w') !! x = Some (mark_deleted doc)).
      { destruct (Hpt x) as [Heq | [(d & _ & Hd & Hdl & _) | (b & _ & Hd & _)]].
        - by rewrite Heq, lookup_insert_eq.
        - rewrite lookup_insert_eq in Hd. injection Hd as <-.
          by rewrite is_deleted_mark_deleted in Hdl.
        - by rewrite lookup_insert_eq in Hd. }
      split_and!; [ | | | done | done].
      * rewrite HT, size_union, size_singleton in Hsz
          by (by apply disjoint_singleton_l).
        lia.
      * intros k. destruct (decide (k = x)) as [->|Hne].
        { right; left. exists doc. rewrite elem_of_cons. auto 6. }
        destruct (Hpt k) as [Heq | [(d & ? & Hd & ?) | (b & ? & Hd & ?)]].
        -- left. by rewrite Heq, lookup_insert_ne.
        -- right; left. exists d. rewrite lookup_insert_ne in Hd by done.
           rewrite elem_of_cons. by intuition.
        -- right; right. exists b. rewrite lookup_insert_ne in Hd by done.
           rewrite elem_of_cons. by intuition.
      * intros k d Hin Hd Hdl Hcd. destruct (decide (k = x)) as [->|Hne].
        { congruence. }
        apply elem_of_cons in Hin as [?|Hin]; [done|].
        apply Hall; [done | by rewrite lookup_insert_ne | done | done].
    + rewrite Hmark in Hrun.
      destruct (IH _ _ _ _ Hrun) as (Hsz & Hpt & Hall & Hl & Hf). simpl in *.
      destruct (tombstones_new (db_map (db w)) x base) as [Hfresh HT].
      { intros d. by rewrite Hx. }
      assert (Hat : db_map (db w') !! x = Some (mark_deleted base)).
      { destruct (Hpt x) as [Heq | [(d & _ & Hd & Hdl & _) | (b & _ & Hd & _)]].
        - by rewrite Heq, lookup_insert_eq.
        - rewrite lookup_insert_eq in Hd. injection Hd as <-.
          by rewrite is_deleted_mark_deleted in Hdl.
        - by rewrite lookup_insert_eq in Hd. }
      split_and!; [ | | | done | done].
      * rewrite HT, size_union, size_singleton in Hsz
          by (by apply disjoint_singleton_l).
        lia.
      * intros k. destruct (decide (k = x)) as [->|Hne].
        { right; right. exists base. rewrite elem_of_cons. auto. }
        destruct (Hpt k) as [Heq | [(d & ? & Hd & ?) | (b & ? & Hd & ?)]].
        -- left. by rewrite Heq, lookup_insert_ne.
        -- right; left. exists d. rewrite lookup_insert_ne in Hd by done.
           rewrite elem_of_cons. by intuition.
        -- right; right. exists b. rewrite lookup_insert_ne in Hd by done.
           rewrite elem_of_cons. by intuition.
      * intros k d Hin Hd Hdl Hcd. destruct (decide (k = x)) as [->|Hne].
        { congruence. }
        apply elem_of_cons in Hin as [?|Hin]; [done|].
        apply Hall; [done | by rewrite lookup_insert_ne | done | done].
Qed.

Lemma mark_loop_count l w n w' :
  foldM body l 0 w = (Ok n, w') ->
  n = size (tombstones (db_map (db w')) ∖ tombstones (db_map (db w))).
Proof.
  intros Hrun. destruct (mark_loop l 0 w n w' Hrun) as (Hsz & Hpt & _).
  rewrite size_difference; [lia|].
  intros k. rewrite !elem_of_tombstones. intros (d & Hd & Hdel).
  destruct (Hpt k) as [-> | [(d' & _ & Hd' & Hlive & _) | (b & _ & Hd' & _)]];
    [eauto | congruence | congruence].
Qed.

End MarkLoop.

Section Deleting.
Context `{H : Helpers}.

Lemma deleteById_id_turn acc x w :
  (exists e, deleteById_id acc x w = (Throw e, w)) \/
  (deleteById_id acc x w = (Ok acc, w) /\
   forall doc, db_map (db w) !! x = Some doc -> is_deleted doc = false -> ~ True) \/
  (exists doc, db_map (db w) !! x = Some doc /\ is_deleted doc = false /\ True /\
               deleteById_id acc x w = (Ok (acc + 1), set_doc x (mark_deleted doc) w)) \/
  (exists base, db_map (db w) !! x = None /\
                deleteById_id acc x w = (Ok (acc + 1), set_doc x (mark_deleted base) w)).
Proof.
  destruct (db_map (db w) !! x) as [doc|] eqn:Hx.
  - rewrite (deleteById_id_stored acc x doc) by done.
    destruct (isId x); [|by left; eexists].
    destruct (is_deleted doc) eqn:Hdel.
    + right; left. split; [done|]. intros ? [= <-]. congruence.
    + right; right; left. by exists doc.
  - rewrite deleteById_id_run. destruct (isId x); [|by left; eexists].
    destruct (map_read (db_map (db w)) x) as [v|]; [|by right; left].
    destruct (flagged v); [by right; left|].
    right; right; right. by exists (spread v).
Qed.

Lemma delete_entry_turn query acc x w :
  (exists e, delete_entry query acc x w = (Throw e, w)) \/
  (delete_entry query acc x w = (Ok acc, w) /\
   forall doc, db_map (db w) !! x = Some doc -> is_deleted doc = false ->
               ~ isQueryMatch doc query = Ok true) \/
  (exists doc, db_map (db w) !! x = Some doc /\ is_deleted doc = false /\
               isQueryMatch doc query = Ok true /\
               delete_entry query acc x w
               = (Ok (acc + 1), set_doc x (mark_deleted doc) w)) \/
  (exists base, db_map (db w) !! x = None /\
                delete_entry query acc x w
                = (Ok (acc + 1), set_doc x (mark_deleted base) w)).
Proof.
  rewrite delete_entry_run, live_match_eval.
  destruct (db_map (db w) !! x) as [doc|]; [|by left; eexists].
  destruct (is_deleted doc) eqn:Hdel.
  - right; left. split; [done|]. intros ? [= <-]. congruence.
  - destruct (isQueryMatch doc query) as [[]|e] eqn:Hq.
    + right; right; left. by exists doc.
    + right; left. split; [done|]. intros ? [= <-] _. congruence.
    + left. by eexists.
Qed.

(** [deleteById] throws on an invalid identifier only. *)
Lemma deleteById_loop_runs (l : list string) : forall acc w,
  Forall (fun k => isId k = true) l ->
  exists n w', foldM deleteById_id l acc w = (Ok n, w').
Proof.
  induction l as [|x l IH]; intros acc w Hids; simpl; [by eexists _, _|].
  apply Forall_cons in Hids as [Hx Hids]. unfold bind.
  rewrite deleteById_id_run, Hx.
  destruct (map_read (db_map (db w)) x) as [v|]; [|by apply IH].
  destruct (flagged v); by apply IH.
Qed.

(** The entry of [k] lets a turn of [delete] run to its end. *)
Lemma delete_loop_runs query (l : list string) : forall acc w,
  (forall k, k ∈ l -> exists doc,
     db_map (db w) !! k = Some doc /\
     (is_deleted doc = true \/ exists b, isQueryMatch doc query = Ok b)) ->
  exists n w', foldM (delete_entry query) l acc w = (Ok n, w').
Proof.
  induction l as [|x l IH]; intros acc w Hl; simpl; [by eexists _, _|].
  unfold bind. rewrite delete_entry_run, live_match_eval.
  destruct (Hl x) as (doc & Hx & Hdoc); [by left|]. rewrite Hx.
  assert (Hrest : forall k, k ∈ l -> exists doc,
     db_map (db w) !! k = Some doc /\
     (is_deleted doc = true \/ exists b, isQueryMatch doc query = Ok b)).
  { intros k Hk. apply Hl. by right. }
  destruct (is_deleted doc) eqn:Hdel; [by apply IH|].
  destruct Hdoc as [? | [b Hb]]; [done|]. rewrite Hb.
  destruct b; [|by apply IH].
  apply IH. intros k Hk. simpl. destruct (decide (k = x)) as [->|Hne].
  - rewrite lookup_insert_eq. eexists. split; [done|]. left.
    apply is_deleted_mark_deleted.
  - rewrite lookup_insert_ne by done. by apply Hrest.
Qed.

(** [delete] runs to its end only when every member of the sequence has its
    entry. *)
Lemma delete_loop_stored query (l : list string) : forall acc w n w',
  foldM (delete_entry query) l acc w = (Ok n, w') ->
  forall k, k ∈ l -> is_Some (db_map (db w) !! k).
Proof.
  induction l as [|x l IH]; intros acc w n w' Hrun k Hk;
    [by apply elem_of_nil in Hk|].
  simpl in Hrun. unfold bind in Hrun.
  rewrite delete_entry_run, live_match_eval in Hrun.
  destruct (db_map (db w) !! x) as [doc|] eqn:Hx; [|done].
  destruct (decide (k = x)) as [->|Hne]; [by rewrite Hx|].
  apply elem_of_cons in Hk as [?|Hk]; [done|].
  destruct (is_deleted doc); [by eapply IH|].
  destruct (isQueryMatch doc query) as [[]|]; [| by eapply IH | done].
  pose proof (IH _ _ _ _ Hrun k Hk) as Hs. simpl in Hs.
  by rewrite lookup_insert_ne in Hs.
Qed.

(** C8. [deleteById] and [delete] set the tombstone on each live document
    they match, and return the number of documents tombstoned by the call:
    documents that were tombstoned before are not counted again.
    [deleteById] returns whenever the identifiers are valid, [delete]
    whenever the query is an object and matching does not throw.  So
    deleting, by query or by identifier, the second of three live
    documents returns 1, and a later [find({})] returns the first and the
    third. *)
Theorem delete_counts_new_tombstones (w : World) :
  (forall q,
     Forall (fun k => isId k = true) (toArray q) ->
     exists n w', Model.deleteById q w = (Ok n, w')) /\
  (forall q n w',
     Model.deleteById q w = (Ok n, w') ->
     n = size (tombstones (db_map (db w')) ∖ tombstones (db_map (db w))) /\
     (forall k doc, k ∈ toArray q -> db_map (db w) !! k = Some doc ->
        is_deleted doc = false ->
        db_map (db w') !! k = Some (mark_deleted doc)) /\
     (forall k, k ∈ tombstones (db_map (db w')) ∖ tombstones (db_map (db w)) ->
        k ∈ toArray q)) /\
  (forall q,
     isObject (JObj q) = true ->
     (forall k, k ∈ db_list (db w) -> exists doc,
        db_map (db w) !! k = Some doc /\
        (is_deleted doc = true \/ exists b, isQueryMatch doc q = Ok b)) ->
     exists n w', Model.delete q w = (Ok n, w')) /\
  (forall q n w',
     Model.delete q w = (Ok n, w') ->
     n = size (tombstones (db_map (db w')) ∖ tombstones (db_map (db w))) /\
     (forall k doc, k ∈ db_list (db w) -> db_map (db w) !! k = Some doc ->
        is_deleted doc = false -> isQueryMatch doc q = Ok true ->
        db_map (db w') !! k = Some (mark_deleted doc)) /\
     (forall k, k ∈ tombstones (db_map (db w')) ∖ tombstones (db_map (db w)) ->
        exists doc, k ∈ db_list (db w) /\ db_map (db w) !! k = Some doc /\
                    isQueryMatch doc q = Ok true)) /\
  (forall k1 k2 k3 d1 d2 d3 q p p1 p3,
     db_list (db w) = [k1; k2; k3] -> k1 <> k2 -> k2 <> k3 ->
     db_map (db w) !! k1 = Some d1 -> is_deleted d1 = false ->
     db_map (db w) !! k2 = Some d2 -> is_deleted d2 = false ->
     db_map (db w) !! k3 = Some d3 -> is_deleted d3 = false ->
     isObject (JObj q) = true -> isObject (JObj []) = true ->
     isQueryMatch d1 q = Ok false -> isQueryMatch d2 q = Ok true ->
     isQueryMatch d3 q = Ok false ->
     isQueryMatch d1 [] = Ok true -> isQueryMatch d3 [] = Ok true ->
     project d1 p = Ok p1 -> project d3 p = Ok p3 ->
     ((Model.delete q w).1 = Ok 1 /\
      (Model.find [] p (Model.delete q w).2).1 = Ok [p1; p3]) /\
     (forall ids, toArray ids = [k2] -> isId k2 = true ->
        (Model.deleteById ids w).1 = Ok 1 /\
        (Model.find [] p (Model.deleteById ids w).2).1 = Ok [p1; p3])).
Proof.
  split_and!.
  - intros q Hids. by apply deleteById_loop_runs.
  - intros q n w' Hrun. unfold Model.deleteById in Hrun.
    pose proof (mark_loop _ _ deleteById_id_turn _ _ _ _ _ Hrun) as (_ & Hpt & Hall & _).
    split_and!.
    + by eapply mark_loop_count, Hrun; apply deleteById_id_turn.
    + intros k doc Hin Hd Hlive. by eapply Hall.
    + intros k [Hk' Hk]%elem_of_difference.
      destruct (Hpt k) as [Heq | [(d & Hin & _) | (b & Hin & _)]]; [|done|done].
      rewrite !elem_of_tombstones in *. by rewrite Heq in Hk'.
  - intros q Hq Hl. rewrite delete_unfold, Hq. by apply delete_loop_runs.
  - intros q n w' Hrun. rewrite delete_unfold in Hrun.
    destruct (isObject (JObj q)); [|done].
    pose proof (mark_loop _ _ (delete_entry_turn q) _ _ _ _ _ Hrun) as (_ & Hpt & Hall & _).
    split_and!.
    + by eapply mark_loop_count, Hrun; apply delete_entry_turn.
    + intros k doc Hin Hd Hlive Hq. by eapply Hall.
    + intros k [Hk' Hk]%elem_of_difference.
      destruct (Hpt k) as [Heq | [(d & Hin & Hd & _ & Hq & _) | (b & Hin & Hd & Hb)]].
      * rewrite !elem_of_tombstones in *. by rewrite Heq in Hk'.
      * by eauto.
      * destruct (delete_loop_stored _ _ _ _ _ _ Hrun k Hin) as [d Hd'].
        congruence.
  - intros k1 k2 k3 d1 d2 d3 q p p1 p3 Hl H12 H23 Hd1 Hl1 Hd2 Hl2 Hd3 Hl3
      Hoq Ho0 Hq1 Hq2 Hq3 Ha1 Ha3 Hp1 Hp3.
    assert (Hfind : (Model.find [] p (set_doc k2 (mark_deleted d2) w)).1
                    = Ok [p1; p3]).
    { rewrite find_unfold, Ho0. simpl. rewrite Hl. simpl. unfold bind.
      rewrite find_entry_run, live_match_eval. simpl.
      rewrite lookup_insert_ne by done. rewrite Hd1, Hl1, Ha1, Hp1.
      rewrite find_entry_run, live_match_eval. simpl.
      rewrite lookup_insert_eq, is_deleted_mark_deleted.
      rewrite find_entry_run, live_match_eval. simpl.
      rewrite lookup_insert_ne by done. by rewrite Hd3, Hl3, Ha3, Hp3. }
    split.
    + assert (Hdel : Model.delete q w = (Ok 1, set_doc k2 (mark_deleted d2) w)).
      { rewrite delete_unfold, Hoq, Hl. simpl. unfold bind.
        rewrite delete_entry_run, live_match_eval, Hd1, Hl1, Hq1.
        rewrite delete_entry_run, live_match_eval, Hd2, Hl2, Hq2.
        rewrite delete_entry_run, live_match_eval. simpl.
        rewrite lookup_insert_ne by done. by rewrite Hd3, Hl3, Hq3. }
      by rewrite Hdel.
    + intros ids Hids Hid.
      assert (Hdel : Model.deleteById ids w
                     = (Ok 1, set_doc k2 (mark_deleted d2) w)).
      { unfold Model.deleteById. rewrite Hids. simpl. unfold bind.
        by rewrite (deleteById_id_stored _ _ d2), Hid, Hl2. }
      by rewrite Hdel.
Qed.

End Deleting.

(** ** An invalid identifier in the middle of a list *)

Section Partial.
Context `{H : Helpers}.





End Partial.

(** ** Lines of text *)

Lemma split_no_sep sep s : has_char sep s = false -> split sep s = [s].
Proof.
  induction s as [|c s IH]; simpl; [done|].
  intros [Hc Hs]%orb_false_elim. apply bool_decide_eq_false in Hc.
  rewrite decide_False by done. by rewrite IH.
Qed.

Lemma split_app_sep sep a b :
  has_char sep a = false ->
  split sep (a +:+ String sep b) = a :: split sep b.
Proof.
  induction a as [|c a IH]; simpl.
  - intros _. by rewrite decide_True.
  - intros [Hc Hs]%orb_false_elim. apply bool_decide_eq_false in Hc.
    rewrite decide_False by done. by rewrite IH.
Qed.

Lemma split_join sep (lines : list string) :
  lines <> [] ->
  Forall (fun s => has_char sep s = false) lines ->
  split sep (join sep lines) = lines.
Proof.
  induction lines as [|x [|y r] IH]; intros Hne Hall; [done | |].
  - simpl. apply split_no_sep. by inversion Hall.
  - change (join sep (x :: y :: r))
      with (x +:+ String sep (join sep (y :: r))).
    inversion Hall; subst. rewrite split_app_sep by done.
    by rewrite IH.
Qed.

(** ** Loading *)

Section Loading.
Context `{H : Helpers}.

Lemma load_line_run corrupted rawDoc w :
  load_line corrupted rawDoc w =
  if decide (rawDoc = "") then (Ok corrupted, w)
  else match line_doc rawDoc with
       | Ok doc => (Ok corrupted, put_doc (id_key doc) doc w)
       | Throw e =>
           if db_strict (db w) then (Throw e, w)
           else (Ok (corrupted ++ [rawDoc]), w)
       end.
Proof.
  unfold load_line, line_doc. case_decide; [done|].
  unfold try_catch, bind, lift, throw, ret, list_add, map_set, get_db, put_db; simpl.
  destruct (JSON_parse rawDoc) as [doc|e]; simpl.
  - destruct (isValidDoc doc true); simpl; [done|]. by destruct (db_strict (db w)).
  - by destruct (db_strict (db w)).
Qed.

Lemma load_unfold w :
  Model.load w =
  match db_file (db w) with
  | None => (Throw LoadInMemoryMode, w)
  | Some f =>
      match fs w !! f with
      | Some text => foldM load_line (split LF text) [] (flushed w)
      | None => (Ok [], mkWorld (db w) (<[f := ""]> (fs w)) (uid w))
      end
  end.
Proof.
  unfold Model.load, bind, get_db, readFile, flush, writeFileSync, put_db, ret, throw;
    simpl.
  destruct (db_file (db w)) as [f|]; [|done]. by destruct (fs w !! f).
Qed.

Lemma restore_app docs1 docs2 w :
  restore (docs1 ++ docs2) w = restore docs2 (restore docs1 w).
Proof. apply fold_left_app. Qed.

Lemma restore_strict docs w : db_strict (db (restore docs w)) = db_strict (db w).
Proof. revert w. induction docs as [|d docs IH]; intros w; simpl; [done|]. by rewrite IH. Qed.

Lemma corrupt_cases rawDoc :
  (rawDoc = "" /\ corrupt rawDoc = false /\
   forall lines, docs_of (rawDoc :: lines) = docs_of lines) \/
  (rawDoc <> "" /\ exists doc, line_doc rawDoc = Ok doc /\ corrupt rawDoc = false /\
   forall lines, docs_of (rawDoc :: lines) = doc :: docs_of lines) \/
  (rawDoc <> "" /\ exists e, line_doc rawDoc = Throw e /\ corrupt rawDoc = true /\
   forall lines, docs_of (rawDoc :: lines) = docs_of lines).
Proof.
  unfold corrupt, docs_of. simpl.
  destruct (decide (rawDoc = "")) as [He|Hne].
  - left. by rewrite bool_decide_eq_true_2.
  - right. rewrite bool_decide_eq_false_2 by done. simpl.
    destruct (line_doc rawDoc) as [doc|e]; [left | right]; eauto.
Qed.

(** Under the lenient policy the loop runs to its end: corrupt lines are
    collected, well-formed ones are put in the index. *)
Lemma load_lines_lenient (lines : list string) : forall corrupted w,
  db_strict (db w) = false ->
  foldM load_line lines corrupted w
  = (Ok (corrupted ++ filter (fun rawDoc => corrupt rawDoc = true) lines),
     restore (docs_of lines) w).
Proof.
  induction lines as [|raw lines IH]; intros corrupted w Hs; cbn [foldM].
  - unfold ret. rewrite filter_nil. by rewrite app_nil_r.
  - unfold bind. rewrite load_line_run.
    destruct (corrupt_cases raw)
      as [(He & Hc & Hd) | [(Hne & doc & Hl & Hc & Hd) | (Hne & e & Hl & Hc & Hd)]];
      rewrite Hd.
    + rewrite decide_True, filter_cons_False by congruence. by apply IH.
    + rewrite decide_False, Hl, filter_cons_False by congruence. by apply IH.
    + rewrite decide_False, Hl, Hs, filter_cons_True by done.
      rewrite IH by done. by rewrite <- app_assoc.
Qed.

(** Without corrupt lines the policy plays no part. *)
Lemma load_lines_sound (lines : list string) : forall corrupted w,
  Forall (fun rawDoc => corrupt rawDoc = false) lines ->
  foldM load_line lines corrupted w = (Ok corrupted, restore (docs_of lines) w).
Proof.
  induction lines as [|raw lines IH]; intros corrupted w Hall; cbn [foldM]; [done|].
  inversion Hall as [|? ? Hraw Hrest]; subst.
  unfold bind. rewrite load_line_run.
  destruct (corrupt_cases raw)
    as [(He & Hc & Hd) | [(Hne & doc & Hl & Hc & Hd) | (Hne & e & Hl & Hc & Hd)]];
    rewrite Hd.
  - rewrite decide_True by done. by apply IH.
  - rewrite decide_False, Hl by done. by apply IH.
  - congruence.
Qed.


Lemma restore_list_NoDup docs w :
  NoDup (db_list (db w)) -> NoDup (db_list (db (restore docs w))).
Proof.
  revert w. induction docs as [|d docs IH]; intros w Hw; simpl; [done|].
  apply IH. simpl. by apply NoDup_set_add.
Qed.

Lemma restore_list_elem docs w k :
  k ∈ db_list (db (restore docs w)) <->
  k ∈ db_list (db w) \/ exists d, d ∈ docs /\ id_key d = k.
Proof.
  revert w. induction docs as [|d docs IH]; intros w; simpl.
  - split; [auto | intros [?|(d & []%elem_of_nil & _)]; done].
  - rewrite IH. simpl. rewrite elem_of_set_add. setoid_rewrite elem_of_cons.
    split.
    + intros [[->|?]|(d0 & ? & ?)]; [right; exists d; auto | by left | right; exists d0; auto].
    + intros [?|(d0 & [->|?] & ?)]; [left; by right | left; by left | right; exists d0; auto].
Qed.

Lemma restore_map_other docs w k :
  (forall d, d ∈ docs -> id_key d <> k) ->
  db_map (db (restore docs w)) !! k = db_map (db w) !! k.
Proof.
  revert w. induction docs as [|d docs IH]; intros w Hk; simpl; [done|].
  rewrite IH by (intros; apply Hk; by right). simpl.
  rewrite lookup_insert_ne; [done|]. apply Hk. by left.
Qed.

(** The last document put under an identifier is the one stored. *)
Lemma restore_map_last docs1 d docs2 w :
  (forall d', d' ∈ docs2 -> id_key d' <> id_key d) ->
  db_map (db (restore (docs1 ++ d :: docs2) w)) !! id_key d = Some d.
Proof.
  intros Hlast. rewrite restore_app. simpl.
  rewrite restore_map_other by done. simpl. apply lookup_insert_eq.
Qed.

Lemma docs_of_app lines1 lines2 :
  docs_of (lines1 ++ lines2) = docs_of lines1 ++ docs_of lines2.
Proof. apply omap_app. Qed.

Lemma line_doc_valid rawDoc doc :
  JSON_parse rawDoc = Ok doc -> isValidDoc doc true = true ->
  line_doc rawDoc = Ok doc.
Proof. intros Hp Hv. unfold line_doc. by rewrite Hp, Hv. Qed.



Lemma docs_of_line rawDoc doc lines :
  rawDoc <> "" -> line_doc rawDoc = Ok doc ->
  docs_of (rawDoc :: lines) = doc :: docs_of lines.
Proof.
  intros Hne Hl.
  destruct (corrupt_cases rawDoc)
    as [(He & _) | [(_ & doc' & Hl' & _ & Hd) | (_ & e & Hl' & _)]];
    [done | | congruence].
  rewrite Hd. congruence.
Qed.



Lemma sound_line rawDoc doc :
  line_doc rawDoc = Ok doc -> corrupt rawDoc = false.
Proof.
  intros Hl.
  destruct (corrupt_cases rawDoc)
    as [(_ & Hc & _) | [(_ & doc' & _ & Hc & _) | (_ & e' & Hl' & _)]];
    [done | done | congruence].
Qed.

Lemma filter_corrupt_sound (lines : list string) :
  Forall (fun rawDoc => corrupt rawDoc = false) lines ->
  filter (fun rawDoc => corrupt rawDoc = true) lines = [].
Proof.
  induction 1 as [|x l Hx _ IH]; [done|].
  rewrite filter_cons_False by congruence. apply IH.
Qed.

Lemma filter_absent (k : string) (l : list string) :
  k ∉ l -> filter (fun x => x = k) l = [].
Proof.
  induction l as [|y l IH]; [done|]. intros [? ?]%not_elem_of_cons.
  rewrite filter_cons_False by congruence. by apply IH.
Qed.

Lemma once_in_NoDup (k : string) (l : list string) :
  NoDup l -> k ∈ l -> length (filter (fun x => x = k) l) = 1.
Proof.
  induction 1 as [|x l Hx Hnd IH]; [by intros ?%elem_of_nil|].
  intros [->|Hk]%elem_of_cons.
  - rewrite filter_cons_True by done. by rewrite filter_absent.
  - rewrite filter_cons_False; [by apply IH|]. by intros ->.
Qed.

End Loading.

Section Triage.
Context `{H : Helpers}.


(** C10. When two well-formed lines of the backing file hold documents with
    the same identifier, [load] reports no duplicate: under the lenient
    policy, and under the strict one in a file without corrupt lines, it
    returns, neither line is in the returned list (which is empty when no
    line is corrupt), the identifier occurs once in the sequence, and the
    document stored under it is the one of the later line (no line after it
    holding that identifier). *)
Theorem load_last_line_wins (w : World) (f text : string)
    (pre mid post : list string) (l1 l2 : string) (d1 d2 : Obj) (id : string) :
  db_file (db w) = Some f ->
  fs w !! f = Some text ->
  split LF text = pre ++ l1 :: mid ++ l2 :: post ->
  db_strict (db w) = false \/
    Forall (fun rawDoc => corrupt rawDoc = false) (split LF text) ->
  l1 <> "" -> l2 <> "" ->
  JSON_parse l1 = Ok d1 -> isValidDoc d1 true = true -> get_id d1 = Some id ->
  JSON_parse l2 = Ok d2 -> isValidDoc d2 true = true -> get_id d2 = Some id ->
  (forall d, d ∈ docs_of post -> id_key d <> id) ->
  (exists corrupted,
     (Model.load w).1 = Ok corrupted /\ (l1 ∉ corrupted) /\ (l2 ∉ corrupted) /\
     (Forall (fun rawDoc => corrupt rawDoc = false) (split LF text) ->
      corrupted = [])) /\
  length (filter (fun k => k = id) (db_list (db (Model.load w).2))) = 1 /\
  db_map (db (Model.load w).2) !! id = Some d2.
Proof.
  intros Hf Ht Hsplit Hpolicy Hne1 Hne2 Hp1 Hv1 Hi1 Hp2 Hv2 Hi2 Hpost.
  pose proof (line_doc_valid l1 d1 Hp1 Hv1) as Hl1.
  pose proof (line_doc_valid l2 d2 Hp2 Hv2) as Hl2.
  pose proof (id_key_get_id d2 id Hi2) as Hk2.
  assert (Hrun : exists corrupted,
    Model.load w = (Ok corrupted, restore (docs_of (split LF text)) (flushed w)) /\
    (l1 ∉ corrupted) /\ (l2 ∉ corrupted) /\
    (Forall (fun rawDoc => corrupt rawDoc = false) (split LF text) ->
     corrupted = [])).
  { rewrite load_unfold, Hf, Ht. destruct Hpolicy as [Hs | Hall].
    - rewrite load_lines_lenient by done. eexists. split; [done|]. simpl.
      split_and!.
      + intros [Hc _]%list_elem_of_filter. by rewrite (sound_line l1 d1) in Hc.
      + intros [Hc _]%list_elem_of_filter. by rewrite (sound_line l2 d2) in Hc.
      + apply filter_corrupt_sound.
    - rewrite load_lines_sound by done. exists []. split; [done|].
      split_and!; [apply not_elem_of_nil | apply not_elem_of_nil | done]. }
  destruct Hrun as (corrupted & Hrun & Hout). rewrite Hrun. simpl.
  split; [by exists corrupted|].
  assert (Hdocs : docs_of (split LF text)
                  = docs_of (pre ++ l1 :: mid) ++ d2 :: docs_of post).
  { rewrite Hsplit.
    replace (pre ++ l1 :: mid ++ l2 :: post)
      with ((pre ++ l1 :: mid) ++ l2 :: post) by by rewrite <- app_assoc.
    rewrite docs_of_app. f_equal. by apply docs_of_line. }
  rewrite Hdocs. split.
  - apply once_in_NoDup.
    + apply restore_list_NoDup. simpl. apply NoDup_nil_2.
    + apply restore_list_elem. right. exists d2. split; [|done].
      apply elem_of_app. right. by left.
  - rewrite <- Hk2. apply restore_map_last. by rewrite Hk2.
Qed.

End Triage.

(** ** Persisting *)

Lemma filter_all {A} (P : A -> Prop) `{!forall x, Decision (P x)} (l : list A) :
  (forall x, P x) -> filter P l = l.
Proof.
  intros HP. induction l as [|x l IH]; [done|].
  rewrite filter_cons_True by done. by rewrite IH.
Qed.

Lemma filter_iff_in {A} (P Q : A -> Prop)
    `{!forall x, Decision (P x), !forall x, Decision (Q x)} (l : list A) :
  (forall x, x ∈ l -> P x <-> Q x) -> filter P l = filter Q l.
Proof.
  induction l as [|x l IH]; intros HPQ; [done|].
  assert (filter P l = filter Q l) as Hrest by (apply IH; intros; apply HPQ; by right).
  destruct (decide (P x)) as [HP|HP].
  - rewrite !filter_cons_True; [by f_equal | by apply HPQ; [left|] | done].
  - rewrite !filter_cons_False; [done | | done]. intros HQ. apply HP, HPQ; [by left | done].
Qed.

Lemma omap_cons {A B} (f : A -> option B) (x : A) (l : list A) :
  omap f (x :: l) = match f x with
                    | Some y => y :: omap f l
                    | None => omap f l
                    end.
Proof. done. Qed.

Lemma omap_pointwise {A B} (f g : A -> option B) (l : list A) :
  (forall x, f x = g x) -> omap f l = omap g l.
Proof.
  intros Hfg. induction l as [|x l IH]; [done|].
  cbn. rewrite Hfg. destruct (g x); [f_equal|]; apply IH.
Qed.


Section Persisting.
Context `{H : Helpers}.

Lemma persist_entry_run payload k w :
  persist_entry payload k w =
  match db_map (db w) !! k with
  | Some doc =>
      if is_deleted doc then (Ok payload, w)
      else match JSON_stringify doc with
           | Ok line => (Ok (payload ++ [line]), w)
           | Throw e =>
               if db_strict (db w) then (Throw e, dropped k w)
               else (Ok payload, dropped k w)
           end
  | None =>
      if db_strict (db w) then (Throw (TypeError k), dropped k w)
      else (Ok payload, dropped k w)
  end.
Proof.
  assert (Hcatch : forall e,
    (list_delete k;; map_delete k;;
     let* d := get_db in if db_strict d then throw e else ret payload) w
    = if db_strict (db w) then (Throw e, dropped k w)
      else (Ok payload, dropped k w)).
  { intros e. unfold bind, list_delete, map_delete, get_db, put_db, dropped,
      ret, throw; simpl.
    destruct (decide (k = "__proto__")); simpl; unfold bind, ret; simpl;
      by destruct (db_strict (db w)). }
  unfold persist_entry, try_catch.
  unfold bind at 1, map_member at 1; simpl.
  destruct (db_map (db w) !! k) as [doc|]; simpl.
  - destruct (is_deleted doc); simpl; [done|].
    unfold bind at 1, lift; simpl.
    destruct (JSON_stringify doc); simpl; [done|]. apply Hcatch.
  - unfold throw at 1. apply Hcatch.
Qed.

Lemma persist_unfold w :
  Model.persist w =
  match db_file (db w) with
  | None => (Throw PersistInMemoryMode, w)
  | Some f =>
      match foldM persist_entry (db_list (db w)) [] w with
      | (Ok payload, w') =>
          (Ok tt, mkWorld (db w') (<[f := join LF payload]> (fs w')) (uid w'))
      | (Throw e, w') => (Throw e, w')
      end
  end.
Proof.
  unfold Model.persist, bind, get_db, writeFileSync, throw; simpl.
  by destruct (db_file (db w)).
Qed.

(** What a turn of [persist] does, by the two views of the entry. *)
Lemma persist_entry_cases payload k w :
  (unserializable (db_map (db w)) k = false /\
   persist_entry payload k w
   = (Ok (payload ++ option_list (serialized (db_map (db w)) k)), w)) \/
  (unserializable (db_map (db w)) k = true /\
   serialized (db_map (db w)) k = None /\
   (forall doc, db_map (db w) !! k = Some doc -> is_deleted doc = false) /\
   persist_entry payload k w
   = if db_strict (db w)
     then (Throw (failure (db_map (db w)) k), dropped k w)
     else (Ok payload, dropped k w)).
Proof.
  rewrite persist_entry_run. unfold unserializable, serialized, failure.
  destruct (db_map (db w) !! k) as [doc|]; simpl.
  - destruct (is_deleted doc) eqn:Hdel; simpl.
    + left. by rewrite app_nil_r.
    + destruct (JSON_stringify doc); [by left|].
      right. split_and!; [done | done | by intros ? [= <-] |].
      by destruct (db_strict (db w)).
  - right. split_and!; [done | done | done |]. by destruct (db_strict (db w)).
Qed.

(** Without a failing entry the loop leaves the world as it is. *)
Lemma persist_loop_clean (l : list string) : forall payload w,
  (forall k, k ∈ l -> unserializable (db_map (db w)) k = false) ->
  foldM persist_entry l payload w
  = (Ok (payload ++ omap (serialized (db_map (db w))) l), w).
Proof.
  induction l as [|x l IH]; intros payload w Hl; cbn [foldM].
  - unfold ret. simpl. by rewrite app_nil_r.
  - unfold bind.
    destruct (persist_entry_cases payload x w) as [[_ ->] | [Hx _]].
    + rewrite IH by (intros; apply Hl; by right). simpl.
      destruct (serialized (db_map (db w)) x); simpl; by rewrite <- app_assoc.
    + rewrite Hl in Hx by (by left). done.
Qed.

Lemma views_dropped k w :
  unserializable (db_map (db w)) k = true -> serialized (db_map (db w)) k = None ->
  forall k', unserializable (db_map (db (dropped k w))) k'
             = unserializable (db_map (db w)) k' /\
             serialized (db_map (db (dropped k w))) k'
             = serialized (db_map (db w)) k'.
Proof.
  intros Hu Hs k'. unfold dropped; simpl.
  destruct (decide (k = "__proto__")); [done|].
  unfold unserializable, serialized in *.
  destruct (decide (k = k')) as [<-|Hne].
  - rewrite lookup_delete_eq. by destruct (db_map (db w) !! k).
  - by rewrite lookup_delete_ne.
Qed.

Lemma lookup_dropped k w k' :
  db_map (db (dropped k w)) !! k'
  = if decide (k' = k /\ k' <> "__proto__") then None else db_map (db w) !! k'.
Proof.
  unfold dropped; simpl. destruct (decide (k = "__proto__")) as [->|Hp].
  - rewrite decide_False; [done|]. by intros [-> ?].
  - destruct (decide (k' = k)) as [->|Hne].
    + by rewrite lookup_delete_eq, decide_True.
    + rewrite lookup_delete_ne by done. rewrite decide_False; [done|]. by intros [? _].
Qed.

(** Under the lenient policy the loop runs to its end and forgets exactly
    the failing entries it meets. *)
Lemma persist_loop_lenient (l : list string) : forall payload w,
  db_strict (db w) = false ->
  exists w',
    foldM persist_entry l payload w
    = (Ok (payload ++ omap (serialized (db_map (db w))) l), w') /\
    db_list (db w')
    = filter (fun k => ~ (k ∈ l /\ unserializable (db_map (db w)) k = true))
             (db_list (db w)) /\
    (forall k, db_map (db w') !! k
               = if decide (k ∈ l /\ unserializable (db_map (db w)) k = true /\
                            k <> "__proto__")
                 then None else db_map (db w) !! k) /\
    db_strict (db w') = false /\ db_file (db w') = db_file (db w) /\
    fs w' = fs w /\ uid w' = uid w.
Proof.
  induction l as [|x l IH]; intros payload w Hs; cbn [foldM].
  - exists w. unfold ret. simpl. rewrite app_nil_r. split_and!; try done.
    all: first [ symmetry; apply filter_all; by intros k [?%elem_of_nil _]
               | intros k; rewrite decide_False; [done|]; by intros [?%elem_of_nil _] ].
  - unfold bind.
    destruct (persist_entry_cases payload x w) as [[Hx ->] | (Hx & Hsx & _ & ->)].
    + destruct (IH (payload ++ option_list (serialized (db_map (db w)) x)) w Hs)
        as (w' & -> & Hl & Hm & Hrest).
      exists w'. split; [|split; [|split; [|apply Hrest]]].
      * simpl. destruct (serialized (db_map (db w)) x); simpl; by rewrite <- app_assoc.
      * rewrite Hl. apply list_filter_iff. intros k. rewrite elem_of_cons.
        split; intros Hk [Hin Hu]; apply Hk; [|by auto].
        split; [|done]. destruct Hin as [->|]; [congruence | done].
      * intros k. rewrite Hm. apply decide_ext. rewrite elem_of_cons.
        split; [intros (? & ? & ?); auto
               | intros ([->|?] & ? & ?); [congruence | auto]].
    + rewrite Hs.
      destruct (IH payload (dropped x w) Hs) as (w' & -> & Hl & Hm & Hrest).
      pose proof (views_dropped x w Hx Hsx) as Hv.
      exists w'. split; [|split; [|split; [|apply Hrest]]].
      * simpl. rewrite Hsx. do 3 f_equal. apply omap_pointwise. intros k. apply Hv.
      * rewrite Hl.
        rewrite (list_filter_iff _
                   (fun k => ~ (k ∈ l /\ unserializable (db_map (db w)) k = true)))
          by (intros k; by destruct (Hv k) as [-> _]).
        change (db_list (db (dropped x w)))
          with (filter (fun k' => k' ≠ x) (db_list (db w))).
        rewrite list_filter_filter. apply list_filter_iff.
        intros k. rewrite elem_of_cons.
        split.
        -- intros [Hk Hne] [[->|Hin] Hu]; [done | by apply Hk].
        -- intros Hk. split; [by intros [? ?]; apply Hk; auto|].
           intros ->. apply Hk. auto.
      * intros k. rewrite Hm. destruct (Hv k) as [-> _].
        rewrite lookup_dropped.
        destruct (decide (k = x /\ k <> "__proto__")) as [[-> Hp]|Hne].
        -- rewrite (decide_True (P := _ ∈ x :: l /\ _)).
           ++ by case_decide.
           ++ split; [by left | done].
        -- destruct (decide (k ∈ l /\ _)) as [(Hin & Hu & Hp)|Hn].
           ++ rewrite decide_True; [done|]. split; [by right | done].
           ++ rewrite decide_False; [done|]. intros ([->|Hin]%elem_of_cons & Hu & Hp).
              ** by apply Hne.
              ** by apply Hn.
Qed.

End Persisting.

Section Compaction.
Context `{H : Helpers}.

Lemma unserializable_serialized (m : gmap string Obj) k :
  unserializable m k = true -> serialized m k = None.
Proof.
  unfold unserializable, serialized. destruct (m !! k) as [doc|]; [|done].
  destruct (is_deleted doc); [done|]. by destruct (JSON_stringify doc).
Qed.

Lemma serialized_lookup (m m' : gmap string Obj) k :
  m' !! k = m !! k ->
  serialized m' k = serialized m k /\ unserializable m' k = unserializable m k /\
  live_at m' k = live_at m k.
Proof. unfold serialized, unserializable, live_at. by intros ->. Qed.

Lemma omap_serialized_filter (m m' : gmap string Obj) (l : list string) :
  (forall k, unserializable m k = false -> m' !! k = m !! k) ->
  omap (serialized m) l
  = omap (serialized m') (filter (fun k => unserializable m k = false) l).
Proof.
  intros Hm. induction l as [|x l IH]; [done|].
  destruct (unserializable m x) eqn:Hx.
  - rewrite filter_cons_False by congruence. cbn.
    by rewrite unserializable_serialized.
  - rewrite filter_cons_True by done. cbn.
    destruct (serialized_lookup m m' x (Hm x Hx)) as (-> & _).
    destruct (serialized m x); [f_equal|]; apply IH.
Qed.

(** One line for each live document, in the order of the sequence. *)
Lemma lines_match (m : gmap string Obj) (l : list string) :
  (forall k, k ∈ l -> unserializable m k = false) ->
  Forall2 (fun k line => exists doc, m !! k = Some doc /\ is_deleted doc = false /\
                                     JSON_stringify doc = Ok line)
          (filter (fun k => live_at m k = true) l)
          (omap (serialized m) l).
Proof.
  induction l as [|x l IH]; intros Hl; [constructor|].
  assert (Hrest : forall k, k ∈ l -> unserializable m k = false)
    by (intros; apply Hl; by right).
  pose proof (Hl x ltac:(by left)) as Hx.
  unfold unserializable in Hx. cbn. unfold serialized at 1.
  destruct (m !! x) as [doc|] eqn:Hd; [|done].
  destruct (is_deleted doc) eqn:Hdel; simpl in Hx.
  - rewrite decide_False; [by apply IH|]. unfold live_at. by rewrite Hd, Hdel.
  - destruct (JSON_stringify doc) as [line|] eqn:Hline; [|done].
    rewrite decide_True by (unfold live_at; by rewrite Hd, Hdel).
    constructor; [by exists doc | by apply IH].
Qed.

(** A tombstoned document outlives every turn of [persist]. *)
Lemma persist_entry_keeps_tombstone k doc payload x w :
  is_deleted doc = true ->
  k ∈ db_list (db w) /\ db_map (db w) !! k = Some doc ->
  k ∈ db_list (db (persist_entry payload x w).2) /\
  db_map (db (persist_entry payload x w).2) !! k = Some doc.
Proof.
  intros Hdel [Hin Hk].
  destruct (persist_entry_cases payload x w) as [[_ ->] | (_ & _ & Hlive & ->)];
    [done|].
  assert (k <> x) as Hne.
  { intros ->. specialize (Hlive doc Hk). congruence. }
  destruct (db_strict (db w)); cbn [snd];
    (split; [by apply list_elem_of_filter
            | rewrite lookup_dropped, decide_False; [done | by intros [? _]]]).
Qed.

(** C2. With a backing file, [persist] leaves every tombstoned document in
    the in-memory index: it is only left out of the written text.  What
    [persist] removes from the index are the entries whose serialization
    fails: all of them under the lenient policy, from the sequence and,
    but for the name [__proto__], from the mapping.  Under the lenient
    policy, and under the strict one when no serialization fails, the call
    returns and the written text is one serialized line for each live
    document that remains, in the order of the sequence.  Under the strict
    policy the first failing entry is removed, the error its serialization
    threw is thrown by [persist], and nothing is written. *)
Theorem persist_compaction (w : World) (f : string) :
  db_file (db w) = Some f ->
  (forall k doc,
     k ∈ db_list (db w) -> db_map (db w) !! k = Some doc ->
     is_deleted doc = true ->
     k ∈ db_list (db (Model.persist w).2) /\
     db_map (db (Model.persist w).2) !! k = Some doc) /\
  (db_strict (db w) = false \/
   (forall k, k ∈ db_list (db w) -> unserializable (db_map (db w)) k = false) ->
   (Model.persist w).1 = Ok tt /\
   db_list (db (Model.persist w).2)
   = filter (fun k => unserializable (db_map (db w)) k = false) (db_list (db w)) /\
   (forall k,
      db_map (db (Model.persist w).2) !! k
      = if decide (k ∈ db_list (db w) /\ unserializable (db_map (db w)) k = true /\
                   k <> "__proto__")
        then None else db_map (db w) !! k) /\
   fs (Model.persist w).2
   = <[f := join LF (omap (serialized (db_map (db (Model.persist w).2)))
                          (db_list (db (Model.persist w).2)))]> (fs w) /\
   Forall2 (fun k line =>
              exists doc, db_map (db (Model.persist w).2) !! k = Some doc /\
                          is_deleted doc = false /\ JSON_stringify doc = Ok line)
           (filter (fun k => live_at (db_map (db (Model.persist w).2)) k = true)
                   (db_list (db (Model.persist w).2)))
           (omap (serialized (db_map (db (Model.persist w).2)))
                 (db_list (db (Model.persist w).2)))) /\
  (db_strict (db w) = true ->
   forall pre x post,
     db_list (db w) = pre ++ x :: post ->
     (forall k, k ∈ pre -> unserializable (db_map (db w)) k = false) ->
     unserializable (db_map (db w)) x = true ->
     Model.persist w = (Throw (failure (db_map (db w)) x), dropped x w) /\
     fs (Model.persist w).2 = fs w).
Proof.
  intros Hf. split_and!.
  - intros k doc Hin Hk Hdel. rewrite persist_unfold, Hf.
    pose proof (foldM_keeps
      (fun w' => k ∈ db_list (db w') /\ db_map (db w') !! k = Some doc)
      persist_entry (db_list (db w))
      (fun acc x w' => persist_entry_keeps_tombstone k doc acc x w' Hdel)
      [] w (conj Hin Hk)) as Hkeep.
    by destruct (foldM persist_entry (db_list (db w)) [] w) as [[payload|e] w'].
  - intros Hs. rewrite persist_unfold, Hf.
    assert (exists w',
      foldM persist_entry (db_list (db w)) [] w
      = (Ok ([] ++ omap (serialized (db_map (db w))) (db_list (db w))), w') /\
      db_list (db w')
      = filter (fun k => unserializable (db_map (db w)) k = false) (db_list (db w)) /\
      (forall k, db_map (db w') !! k
                 = if decide (k ∈ db_list (db w) /\
                              unserializable (db_map (db w)) k = true /\
                              k <> "__proto__")
                   then None else db_map (db w) !! k) /\
      fs w' = fs w) as (w' & -> & Hl' & Hm & Hfs).
    { destruct Hs as [Hs | Hclean].
      - destruct (persist_loop_lenient (db_list (db w)) [] w Hs)
          as (w' & Hrun & Hl & Hm & _ & _ & Hfs & _).
        exists w'. split_and!; [done | | done | done].
        rewrite Hl. apply filter_iff_in. intros k Hk. split.
        + intros Hn. destruct (unserializable (db_map (db w)) k); [|done].
          by destruct Hn.
        + intros Hu [_ Hu']. congruence.
      - exists w. split_and!; [by apply persist_loop_clean | | | done].
        + rewrite (filter_iff_in _ (fun _ => True)) by (intros; split; auto).
          symmetry. by apply filter_all.
        + intros k. rewrite decide_False; [done|].
          intros (Hk & Hu & _). rewrite Hclean in Hu by done. done. }
    simpl.
    assert (Hsame : forall k, unserializable (db_map (db w)) k = false ->
                              db_map (db w') !! k = db_map (db w) !! k).
    { intros k Hu. rewrite Hm, decide_False; [done|]. intros (_ & ? & _). congruence. }
    split_and!; [done | done | done | |].
    + rewrite Hfs. f_equal. f_equal. rewrite Hl'. by apply omap_serialized_filter.
    + apply lines_match. intros k Hk. rewrite Hl' in Hk.
      apply list_elem_of_filter in Hk as [Hu _].
      destruct (serialized_lookup _ _ k (Hsame k Hu)) as (_ & -> & _). done.
  - intros Hs pre x post Hl Hpre Hx. rewrite persist_unfold, Hf, Hl, foldM_app.
    rewrite persist_loop_clean by done. cbn [foldM]. unfold bind.
    destruct (persist_entry_cases ([] ++ omap (serialized (db_map (db w))) pre) x w)
      as [[Hx' _] | (_ & _ & _ & ->)]; [congruence|].
    by rewrite Hs.
Qed.

End Compaction.


(** ** Persist, then load *)

Section RoundTrip.
Context `{H : Helpers}.

Lemma LeafDB_eq (a b : LeafDB) :
  db_strict a = db_strict b -> db_file a = db_file b ->
  db_map a = db_map b -> db_list a = db_list b -> a = b.
Proof. destruct a, b; simpl; by intros -> -> -> ->. Qed.

Lemma restore_file docs w : db_file (db (restore docs w)) = db_file (db w).
Proof. revert w. induction docs as [|d docs IH]; intros w; simpl; [done|]. by rewrite IH. Qed.

(** Loading the text made of [lines]. *)
Lemma load_text_lines (lines : list string) corrupted w :
  Forall (fun s => has_char LF s = false) lines ->
  Forall (fun rawDoc => corrupt rawDoc = false) lines ->
  foldM load_line (split LF (join LF lines)) corrupted w
  = (Ok corrupted, restore (docs_of lines) w).
Proof.
  intros Hlf Hok. destruct lines as [|x lines].
  - simpl. unfold bind. rewrite load_line_run. by rewrite decide_True.
  - rewrite split_join by done. by apply load_lines_sound.
Qed.

(** The lines written for [l] are sound, and read back as the live
    documents of [l]. *)
Lemma persisted_lines (m : gmap string Obj) (l : list string) :
  (forall k doc, k ∈ l -> m !! k = Some doc -> is_deleted doc = false ->
                 roundtrips doc) ->
  Forall (fun s => has_char LF s = false) (omap (serialized m) l) /\
  Forall (fun rawDoc => corrupt rawDoc = false) (omap (serialized m) l) /\
  docs_of (omap (serialized m) l) = live_docs m l.
Proof.
  intros Hrt. induction l as [|x l IH]; [by repeat constructor|].
  destruct IH as (IH1 & IH2 & IH3).
  { intros k doc Hk. apply Hrt. by right. }
  unfold live_docs. rewrite !omap_cons. fold (live_docs m l).
  assert (serialized m x
          = match m !! x with
            | Some doc =>
                if is_deleted doc then None
                else match JSON_stringify doc with
                     | Ok line => Some line
                     | Throw _ => None
                     end
            | None => None
            end) as -> by done.
  destruct (m !! x) as [doc|] eqn:Hd; [|done].
  destruct (is_deleted doc) eqn:Hdel; [done|].
  destruct (Hrt x doc ltac:(by left) Hd Hdel) as (line & -> & Hne & Hlf & Hp & Hv).
  pose proof (line_doc_valid line doc Hp Hv) as Hline.
  split_and!.
  - by constructor.
  - constructor; [by eapply sound_line | done].
  - rewrite (docs_of_line line doc) by done. by rewrite IH3.
Qed.

(** Putting back the live documents of a duplicate-free sequence. *)
Lemma restore_live (m : gmap string Obj) (ks : list string) : forall w,
  NoDup (db_list (db w) ++ ks) ->
  (forall k doc, k ∈ ks -> m !! k = Some doc -> is_deleted doc = false ->
                 id_key doc = k) ->
  db_list (db (restore (live_docs m ks) w))
  = db_list (db w) ++ filter (fun k => live_at m k = true) ks /\
  forall k, db_map (db (restore (live_docs m ks) w)) !! k
            = if decide (k ∈ ks /\ live_at m k = true) then m !! k
              else db_map (db w) !! k.
Proof.
  induction ks as [|x ks IH]; intros w Hnd Hid.
  - change (live_docs m []) with (@nil Obj). cbn [restore fold_left].
    rewrite filter_nil, app_nil_r. split; [done|].
    intros k. case_decide as Hk; [by destruct Hk as [?%elem_of_nil _] | done].
  - assert (Hx : (x ∉ db_list (db w)) /\ (x ∉ ks)).
    { apply NoDup_app in Hnd as (_ & Hdisj & Hks). apply NoDup_cons in Hks as [? _].
      split; [|done]. intros Hin. apply (Hdisj x Hin). by left. }
    destruct Hx as [HxL Hxks].
    assert (Hid' : forall k doc, k ∈ ks -> m !! k = Some doc ->
                     is_deleted doc = false -> id_key doc = k)
      by (intros; apply Hid; [by right | done | done]).
    unfold live_docs. rewrite omap_cons. fold (live_docs m ks).
    destruct (m !! x) as [doc|] eqn:Hd;
      [destruct (is_deleted doc) eqn:Hdel|].
    + (* tombstoned: skipped *)
      destruct (IH w) as [IHl IHm]; [|done|].
      { apply NoDup_app in Hnd as (HL & Hdisj & Hks). apply NoDup_cons in Hks as [_ Hks].
        apply NoDup_app. split_and!; [done | | done].
        intros k Hk Hin. apply (Hdisj k Hk). by right. }
      split.
      * rewrite IHl, filter_cons_False; [done|]. unfold live_at. by rewrite Hd, Hdel.
      * intros k. rewrite IHm. apply decide_ext.
        rewrite elem_of_cons. split; [by intros [? ?]; auto|].
        intros [[->|?] Hlive]; [|done]. unfold live_at in Hlive. by rewrite Hd, Hdel in Hlive.
    + (* live: put back *)
      pose proof (Hid x doc ltac:(by left) Hd Hdel) as Hkey.
      change (restore (doc :: live_docs m ks) w)
        with (restore (live_docs m ks) (put_doc (id_key doc) doc w)).
      rewrite Hkey.
      destruct (IH (put_doc x doc w)) as [IHl IHm]; [|done|].
      { simpl. rewrite set_add_fresh by done. rewrite <- (assoc_L (++)). done. }
      simpl in IHl, IHm. rewrite set_add_fresh in IHl by done.
      split.
      * rewrite IHl, filter_cons_True by (unfold live_at; by rewrite Hd, Hdel).
        by rewrite <- (assoc_L (++)).
      * intros k. rewrite IHm. destruct (decide (k = x)) as [->|Hne].
        -- rewrite decide_False by (by intros [? _]).
           rewrite decide_True, lookup_insert_eq; [done|].
           split; [by left|]. unfold live_at. by rewrite Hd, Hdel.
        -- rewrite lookup_insert_ne by done. apply decide_ext.
           rewrite elem_of_cons. by intuition (subst; eauto; try congruence).
    + (* no entry: skipped *)
      destruct (IH w) as [IHl IHm]; [|done|].
      { apply NoDup_app in Hnd as (HL & Hdisj & Hks). apply NoDup_cons in Hks as [_ Hks].
        apply NoDup_app. split_and!; [done | | done].
        intros k Hk Hin. apply (Hdisj k Hk). by right. }
      split.
      * rewrite IHl, filter_cons_False; [done|]. unfold live_at. by rewrite Hd.
      * intros k. rewrite IHm. apply decide_ext.
        rewrite elem_of_cons. split; [by intros [? ?]; auto|].
        intros [[->|?] Hlive]; [|done]. unfold live_at in Hlive. by rewrite Hd in Hlive.
Qed.

(** [persist] then [load] on a store they can carry: what comes back is
    the sequence less its tombstoned members, with their documents. *)
Lemma persist_load_run (w : World) (f : string) :
  db_file (db w) = Some f ->
  persistable w ->
  (Model.persist w).1 = Ok tt /\
  (Model.load (Model.persist w).2).1 = Ok [] /\
  db_strict (db (Model.load (Model.persist w).2).2) = db_strict (db w) /\
  db_file (db (Model.load (Model.persist w).2).2) = db_file (db w) /\
  db_list (db (Model.load (Model.persist w).2).2)
  = filter (fun k => live_at (db_map (db w)) k = true) (db_list (db w)) /\
  forall k, db_map (db (Model.load (Model.persist w).2).2) !! k
            = if decide (k ∈ db_list (db w) /\ live_at (db_map (db w)) k = true)
              then db_map (db w) !! k else None.
Proof.
  intros Hf [Hnd Hmem].
  assert (Hclean : forall k, k ∈ db_list (db w) ->
                             unserializable (db_map (db w)) k = false).
  { intros k (doc & Hd & Hdoc)%Hmem. unfold unserializable. rewrite Hd.
    destruct (is_deleted doc) eqn:Hdel; [done|].
    destruct Hdoc as (_ & line & -> & _); done. }
  assert (Hrt : forall k doc, k ∈ db_list (db w) -> db_map (db w) !! k = Some doc ->
                  is_deleted doc = false -> roundtrips doc).
  { intros k doc (d & Hd & Hdoc)%Hmem Hk Hdel.
    assert (d = doc) as -> by congruence. by apply Hdoc. }
  rewrite persist_unfold, Hf, persist_loop_clean by done. simpl.
  split; [done|].
  rewrite load_unfold. simpl. rewrite Hf, lookup_insert_eq.
  destruct (persisted_lines (db_map (db w)) (db_list (db w)) Hrt)
    as (Hlf & Hok & Hdocs).
  rewrite load_text_lines, Hdocs by done. simpl. split; [done|].
  match goal with |- context [restore _ ?w0] =>
    destruct (restore_live (db_map (db w)) (db_list (db w)) w0) as [Hl Hm]
  end.
  { done. }
  { intros k doc (d & Hd & Hdoc)%Hmem Hk Hdel.
    assert (d = doc) as -> by congruence.
    apply id_key_get_id. by apply Hdoc. }
  split_and!.
  - by rewrite restore_strict.
  - by rewrite restore_file.
  - by rewrite Hl.
  - intros k. rewrite Hm. simpl. by rewrite lookup_empty.
Qed.

(** C3, as the code has it.  On a store that [persist] and [load] carry,
    [updateById('constructor', u)] with a replacement [u] finds the
    member [constructor] that every object inherits, takes it for a live
    document and stores [{ ...u, _id: 'constructor' }] under that name,
    which is not in the sequence.  [persist] then writes no line for that
    document and [load] comes back without it: the index after
    [persist(); load()] is not the one before less its tombstoned
    documents. *)
Theorem persist_load_loses_unlisted (w : World) (f : string) (u : Obj)
    (p : option (list string)) (r : Obj) :
  db_file (db w) = Some f ->
  persistable w ->
  db_map (db w) !! "constructor" = None ->
  db_map (db w) !! "__proto__" = None ->
  isId "constructor" = true ->
  toArray (One "constructor") = ["constructor"] ->
  isValidUpdate u = true -> hasOperators u = false ->
  project (with_id u "constructor") p = Ok r ->
  is_deleted (with_id u "constructor") = false ->
  let w1 := (Model.updateById (One "constructor") u p w).2 in
  (Model.updateById (One "constructor") u p w).1 = Ok [r] /\
  db_map (db w1) !! "constructor" = Some (with_id u "constructor") /\
  db_map (purge (db w1)) !! "constructor" = Some (with_id u "constructor") /\
  (Model.persist w1).1 = Ok tt /\
  (Model.load (Model.persist w1).2).1 = Ok [] /\
  db_map (db (Model.load (Model.persist w1).2).2) !! "constructor" = None /\
  db (Model.load (Model.persist w1).2).2 <> purge (db w1).
Proof.
  intros Hf [Hnd Hmem] Hc Hp Hid Harr Hu Hop Hproj Hlive w1.
  assert (Hrun : Model.updateById (One "constructor") u p w
                 = (Ok [r], set_doc "constructor" (with_id u "constructor") w)).
  { rewrite updateById_unfold, Hu, Harr. cbn [foldM]. unfold bind.
    rewrite updateById_id_run, Hid.
    assert (map_read (db_map (db w)) "constructor"
            = Some (NotADocument (Builtin "constructor"))) as ->.
    { unfold map_read, inherited. by rewrite Hc, Hp. }
    cbn [flagged newDoc_of_value]. rewrite Hop, store_update_run, Hproj. done. }
  subst w1. rewrite Hrun. cbn [fst snd].
  assert (Hnot : "constructor" ∉ db_list (db w)).
  { intros (doc & Hd & _)%Hmem. congruence. }
  assert (Hcarry : persistable (set_doc "constructor" (with_id u "constructor") w)).
  { split; [done|]. intros k Hk. simpl in Hk. destruct (Hmem k Hk) as (doc & Hd & Hdoc).
    exists doc. split; [|done]. simpl. rewrite lookup_insert_ne; [done|].
    by intros <-. }
  destruct (persist_load_run
              (set_doc "constructor" (with_id u "constructor") w) f Hf Hcarry)
    as (Hper & Hload & _ & _ & _ & Hm).
  assert (Hgone : db_map (db (Model.load (Model.persist
              (set_doc "constructor" (with_id u "constructor") w)).2).2)
            !! "constructor" = None).
  { rewrite Hm. by rewrite decide_False by (by intros [? _]). }
  assert (Hkept : db_map (purge (db (set_doc "constructor"
                                       (with_id u "constructor") w)))
                  !! "constructor" = Some (with_id u "constructor")).
  { simpl. apply map_lookup_filter_Some. split; [apply lookup_insert_eq | done]. }
  split_and!; [done | apply lookup_insert_eq | done | done | done | done |].
  intros Heq. rewrite Heq in Hgone. congruence.
Qed.

End RoundTrip.


(** ** Inserting *)

Section Inserting.
Context `{H : Helpers}.

Lemma insert_doc_run inserted newDoc w :
  insert_doc inserted newDoc w =
  if isValidDoc newDoc false then
    let fresh :=
      let doc := with_id newDoc (generateUid (uid w)) in
      (Ok (inserted ++ [doc]), put_doc (generateUid (uid w)) doc (next_uid w)) in
    match get_id newDoc with
    | Some _id =>
        if decide (_id = "") then fresh
        else if bool_decide (_id ∈ db_list (db w))
             then (Throw (IdExists _id), w)
             else (Ok (inserted ++ [newDoc]), put_doc _id newDoc w)
    | None => fresh
    end
  else (Throw (InvalidNewDoc newDoc), w).
Proof.
  unfold insert_doc. destruct (isValidDoc newDoc false); simpl; [|done].
  unfold bind, fresh_uid, list_has, list_add, map_set, get_db, put_db, ret, throw,
    put_doc, next_uid; simpl.
  destruct (get_id newDoc) as [_id|] eqn:Hid.
  - case_decide; simpl.
    + by rewrite id_key_with_id.
    + case_bool_decide; simpl; [done|]. by rewrite (id_key_get_id newDoc _id).
  - by rewrite id_key_with_id.
Qed.

Lemma insert_turn_run shared inserted newDoc w :
  insert_turn shared inserted newDoc w
  = insert_doc inserted (current shared inserted newDoc) w.
Proof. done. Qed.

(** C1, as the code has it.  [insert] validates each document when its turn
    comes and never consults the policy: when the second document of a
    batch is invalid, the call throws under the strict and under the lenient
    policy alike, the first document is in the index already and stays
    there, and no later document of the batch is inserted. *)
Theorem insert_validates_in_turn (w : World) (docs rest : list Obj)
    (good bad : Obj) (id : string) :
  toArray (More docs) = good :: bad :: rest ->
  isValidDoc good false = true ->
  get_id good = Some id -> id <> "" -> id ∉ db_list (db w) ->
  isValidDoc bad false = false ->
  Model.insert (More docs) w = (Throw (InvalidNewDoc bad), put_doc id good w) /\
  id ∈ db_list (db (Model.insert (More docs) w).2) /\
  db_map (db (Model.insert (More docs) w).2) !! id = Some good.
Proof.
  intros Harr Hgood Hid Hne Hfresh Hbad.
  assert (Hrun : Model.insert (More docs) w
                 = (Throw (InvalidNewDoc bad), put_doc id good w)).
  { unfold Model.insert. rewrite Harr. cbn [foldM]. unfold bind.
    rewrite insert_doc_run, Hgood, Hid. cbn zeta.
    rewrite decide_False, bool_decide_eq_false_2 by done.
    by rewrite insert_doc_run, Hbad. }
  rewrite Hrun. simpl. split_and!; [done | | apply lookup_insert_eq].
  apply elem_of_set_add. by left.
Qed.

End Inserting.

(** ** What every call keeps *)

(** A property of the world that each elementary step of the methods
    keeps is kept by every call. *)
Section Steps.
Context `{H : Helpers}.
Variable I : World -> Prop.

Hypothesis I_replace : forall x newDoc w,
  I w -> I (set_doc x (with_id newDoc x) w).
Hypothesis I_mark : forall x d w,
  I w -> db_map (db w) !! x = Some d -> is_deleted d = false ->
  I (set_doc x (mark_deleted d) w).
Hypothesis I_mark_new : forall x b w,
  I w -> db_map (db w) !! x = None -> I (set_doc x (mark_deleted b) w).
Hypothesis I_insert : forall x doc w,
  I w -> get_id doc = Some x -> I (put_doc x doc w).
Hypothesis I_load : forall doc w,
  I w -> isValidDoc doc true = true -> I (put_doc (id_key doc) doc w).
Hypothesis I_dropped : forall x w, I w -> I (dropped x w).
Hypothesis I_next_uid : forall w, I w -> I (next_uid w).
Hypothesis I_flushed : forall w, I w -> I (flushed w).
Hypothesis I_files : forall w files, I w -> I (mkWorld (db w) files (uid w)).

Lemma load_line_keeps corrupted rawDoc w :
  I w -> I (load_line corrupted rawDoc w).2.
Proof.
  intros Hw. rewrite load_line_run. case_decide; [done|].
  unfold line_doc. destruct (JSON_parse rawDoc) as [doc|e].
  - destruct (isValidDoc doc true) eqn:Hv; [by apply I_load|].
    by destruct (db_strict (db w)).
  - by destruct (db_strict (db w)).
Qed.

Lemma persist_entry_keeps payload x w :
  I w -> I (persist_entry payload x w).2.
Proof.
  intros Hw. rewrite persist_entry_run.
  destruct (db_map (db w) !! x) as [doc|].
  - destruct (is_deleted doc); [done|].
    destruct (JSON_stringify doc); [done|].
    destruct (db_strict (db w)); by apply I_dropped.
  - destruct (db_strict (db w)); by apply I_dropped.
Qed.

Lemma persist_keeps w : I w -> I (Model.persist w).2.
Proof.
  intros Hw. rewrite persist_unfold. destruct (db_file (db w)) as [f|]; [|done].
  pose proof (foldM_keeps I persist_entry (db_list (db w))
                (fun acc x w' => persist_entry_keeps acc x w') [] w Hw) as Hloop.
  destruct (foldM persist_entry (db_list (db w)) [] w) as [[payload|e] w'];
    [by apply I_files | done].
Qed.

Lemma insert_doc_keeps inserted newDoc w :
  I w -> I (insert_doc inserted newDoc w).2.
Proof.
  intros Hw. rewrite insert_doc_run.
  destruct (isValidDoc newDoc false); [|done]. cbn zeta.
  assert (Hfresh : I (put_doc (generateUid (uid w))
                        (with_id newDoc (generateUid (uid w))) (next_uid w))).
  { apply I_insert; [by apply I_next_uid | apply get_id_with_id]. }
  destruct (get_id newDoc) as [id|] eqn:Hid; [|done].
  case_decide; [done|]. case_bool_decide; [done|]. by apply I_insert.
Qed.

Lemma store_update_keeps newDoc projection acc x w :
  I w -> I (store_update newDoc projection acc x w).2.
Proof.
  intros Hw. rewrite store_update_run. destruct newDoc as [newDoc|e]; [|done].
  destruct (project (with_id newDoc x) projection); by apply I_replace.
Qed.

Lemma updateById_id_keeps upd projection acc x w :
  I w -> I (updateById_id upd projection acc x w).2.
Proof.
  intros Hw. rewrite updateById_id_run. destruct (isId x); [|done].
  destruct (map_read (db_map (db w)) x) as [v|]; [|done].
  destruct (flagged v); [done|]. by apply store_update_keeps.
Qed.

Lemma update_entry_keeps query upd projection acc x w :
  I w -> I (update_entry query upd projection acc x w).2.
Proof.
  intros Hw. rewrite update_entry_run.
  destruct (live_match query x w).1 as [[doc|]|e]; try done.
  by apply store_update_keeps.
Qed.

Lemma deleteById_id_keeps acc x w : I w -> I (deleteById_id acc x w).2.
Proof.
  intros Hw.
  destruct (deleteById_id_turn acc x w)
    as [[e ->] | [[-> _] | [(doc & Hx & Hlive & _ & ->) | (b & Hx & ->)]]];
    [done | done | by apply I_mark | by apply I_mark_new].
Qed.

Lemma delete_entry_keeps query acc x w :
  I w -> I (delete_entry query acc x w).2.
Proof.
  intros Hw.
  destruct (delete_entry_turn query acc x w)
    as [[e ->] | [[-> _] | [(doc & Hx & Hlive & _ & ->) | (b & Hx & ->)]]];
    [done | done | by apply I_mark | by apply I_mark_new].
Qed.

Lemma after_keeps (c : call) (w : World) : I w -> I (after c w).
Proof.
  intros Hw. destruct c; simpl.
  - rewrite load_unfold. destruct (db_file (db w)) as [f|]; [|done].
    destruct (fs w !! f) as [text|]; [|by apply I_files].
    apply (foldM_keeps I); [|by apply I_flushed].
    intros. by apply load_line_keeps.
  - by apply persist_keeps.
  - unfold Model.insert.
    match goal with |- context [if ?b then _ else _] => destruct b end; [done|].
    apply (foldM_keeps I); [|done]. intros. by apply insert_doc_keeps.
  - by rewrite findOne_world.
  - by rewrite findMany_world.
  - by rewrite find_world.
  - rewrite updateById_unfold. destruct (isValidUpdate upd); [|done].
    apply (foldM_keeps I); [|done]. intros. by apply updateById_id_keeps.
  - rewrite update_unfold. destruct (isObject (JObj query)); [|done].
    destruct (isValidUpdate upd); [|done].
    apply (foldM_keeps I); [|done]. intros. by apply update_entry_keeps.
  - unfold Model.deleteById.
    apply (foldM_keeps I); [|done]. intros. by apply deleteById_id_keeps.
  - rewrite delete_unfold. destruct (isObject (JObj query)); [|done].
    apply (foldM_keeps I); [|done]. intros. by apply delete_entry_keeps.
  - rewrite drop_unfold. cbn zeta.
    change (mkWorld (new_LeafDB (db_strict (db w)) (db_file (db w))) (fs w) (uid w))
      with (flushed w).
    destruct (db_file (db w)); [apply persist_keeps|]; by apply I_flushed.
Qed.

(** So does [insert] on a payload with shared objects. *)
Lemma insert_shared_keeps payload shared w :
  I w -> I (Model.insert_shared payload shared w).2.
Proof.
  intros Hw. unfold Model.insert_shared.
  match goal with |- context [if ?b then _ else _] => destruct b end; [done|].
  apply (foldM_keeps I); [|done]. intros. by apply insert_doc_keeps.
Qed.

End Steps.

(** ** The members of the sequence have their entries *)

Section Members.
Context `{H : Helpers}.

Lemma members_stored_new strict file : members_stored (new_LeafDB strict file).
Proof. split; [constructor | by intros k ?%elem_of_nil]. Qed.

Lemma members_stored_set_doc x doc w :
  members_stored (db w) -> members_stored (db (set_doc x doc w)).
Proof.
  intros [Hnd Hm]. split; [done|]. intros k Hk. simpl.
  destruct (decide (k = x)) as [->|Hne];
    [by rewrite lookup_insert_eq | rewrite lookup_insert_ne by done; by apply Hm].
Qed.

Lemma members_stored_put_doc x doc w :
  members_stored (db w) -> members_stored (db (put_doc x doc w)).
Proof.
  intros [Hnd Hm]. split; [by apply NoDup_set_add|]. intros k Hk. simpl in *.
  destruct (decide (k = x)) as [->|Hne]; [by rewrite lookup_insert_eq|].
  rewrite lookup_insert_ne by done. apply Hm.
  apply elem_of_set_add in Hk as [?|?]; done.
Qed.

Lemma members_stored_dropped x w :
  members_stored (db w) -> members_stored (db (dropped x w)).
Proof.
  intros [Hnd Hm]. split; [by apply NoDup_filter|]. intros k Hk.
  apply list_elem_of_filter in Hk as [Hne Hk].
  rewrite lookup_dropped, decide_False by (by intros [? _]). by apply Hm.
Qed.

Lemma after_members_stored c w :
  members_stored (db w) -> members_stored (db (after c w)).
Proof.
  apply (after_keeps (fun w => members_stored (db w)));
    auto using members_stored_set_doc, members_stored_put_doc,
      members_stored_dropped.
  intros. apply members_stored_new.
Qed.

Lemma insert_shared_members_stored payload shared w :
  members_stored (db w) ->
  members_stored (db (Model.insert_shared payload shared w).2).
Proof.
  apply (insert_shared_keeps (fun w => members_stored (db w)));
    auto using members_stored_put_doc.
Qed.

Lemma reachable_members w : reachable w -> members_stored (db w).
Proof.
  induction 1 as [strict file files n | c w _ IH | w files _ IH]; simpl.
  - apply members_stored_new.
  - by apply after_members_stored.
  - done.
Qed.

(** C7, as the code has it.  [this.map] is an ordinary object, so
    [this.map['constructor']] evaluates to the function every object
    inherits: [deleteById] on a new store takes it for a live document,
    stores [{ $deleted: true }] under [constructor] and returns 1.  The
    mapping then has a key that the sequence lacks: the state is reachable
    and not in bijection. *)
Theorem deleteById_breaks_bijection (strict : bool) (file : option string)
    (files : gmap string string) (n : nat) :
  isId "constructor" = true ->
  toArray (One "constructor") = ["constructor"] ->
  let w := mkWorld (new_LeafDB strict file) files n in
  Model.deleteById (One "constructor") w
  = (Ok 1, set_doc "constructor" [("$deleted", JBool true)] w) /\
  reachable (Model.deleteById (One "constructor") w).2 /\
  db_list (db (Model.deleteById (One "constructor") w).2) = [] /\
  db_map (db (Model.deleteById (One "constructor") w).2) !! "constructor"
  = Some [("$deleted", JBool true)] /\
  ~ bijection (db (Model.deleteById (One "constructor") w).2).
Proof.
  intros Hid Harr w.
  assert (Hrun : Model.deleteById (One "constructor") w
                 = (Ok 1, set_doc "constructor" [("$deleted", JBool true)] w)).
  { unfold Model.deleteById. rewrite Harr. cbn [foldM]. unfold bind.
    by rewrite deleteById_id_run, Hid. }
  split; [done|]. split.
  { apply (reach_call (DeleteById (One "constructor"))). constructor. }
  rewrite Hrun. cbn [snd]. split_and!; [done | done |].
  intros [_ Hb]. simpl in Hb.
  assert (Hin : "constructor" ∈ @nil string).
  { apply Hb. by rewrite lookup_insert_eq. }
  by apply elem_of_nil in Hin.
Qed.

End Members.

(** ** Documents are stored under their own identifier *)

Section Identity.
Context `{H : Helpers}.

(** The shape validation of [load] demands a string identifier. *)
Hypothesis valid_has_id :
  forall d, isValidDoc d true = true -> is_Some (get_id d).

(** The two invariants of the index taken together. *)
Let sound (w : World) : Prop := members_stored (db w) /\ ids_carried (db w).

Lemma ids_carried_new strict file : ids_carried (new_LeafDB strict file).
Proof. intros k d. simpl. by rewrite lookup_empty. Qed.

Lemma sound_set_doc x doc w :
  get_id doc = Some x \/ ((x ∉ db_list (db w)) /\ is_deleted doc = true) ->
  sound w -> sound (set_doc x doc w).
Proof.
  intros Hdoc [Hm Hc]. split; [by apply members_stored_set_doc|].
  intros k d. simpl.
  intros [[<- <-] | [_ Hd]]%lookup_insert_Some Hk; [|by apply Hc].
  destruct Hdoc as [?|[Hx Hdel]]; [done|]. destruct Hk; [done | congruence].
Qed.

Lemma sound_put_doc x doc w :
  get_id doc = Some x -> sound w -> sound (put_doc x doc w).
Proof.
  intros Hdoc [Hm Hc]. split; [by apply members_stored_put_doc|].
  intros k d. simpl.
  intros [[<- <-] | [Hne Hd]]%lookup_insert_Some Hk; [done|].
  apply Hc; [done|]. destruct Hk as [Hk|?]; [|by right].
  apply elem_of_set_add in Hk as [?|?]; [done | by left].
Qed.

Lemma sound_dropped x w : sound w -> sound (dropped x w).
Proof.
  intros [Hm Hc]. split; [by apply members_stored_dropped|].
  intros k d. rewrite lookup_dropped. case_decide; [done|]. intros Hd Hk.
  apply Hc; [done|]. destruct Hk as [Hk|?]; [|by right].
  apply list_elem_of_filter in Hk as [_ ?]. by left.
Qed.

Lemma after_sound c w : sound w -> sound (after c w).
Proof.
  apply (after_keeps sound).
  - intros x newDoc w'. apply sound_set_doc. left. apply get_id_with_id.
  - intros x d w' Hw Hx Hlive. apply sound_set_doc; [|done]. left.
    rewrite get_id_mark_deleted. destruct Hw as [_ Hc]. apply (Hc x d Hx). by right.
  - intros x b w' Hw Hx. apply sound_set_doc; [|done]. right.
    split; [|apply is_deleted_mark_deleted].
    destruct Hw as [[_ Hm] _]. intros [d Hd]%Hm. congruence.
  - intros x doc w'. intros. by apply sound_put_doc.
  - intros doc w' Hw Hv. destruct (valid_has_id doc Hv) as [id Hid].
    rewrite (id_key_get_id doc id Hid). by apply sound_put_doc.
  - intros. by apply sound_dropped.
  - done.
  - intros. split; [apply members_stored_new | apply ids_carried_new].
  - done.
Qed.

Lemma insert_shared_sound payload shared w :
  sound w -> sound (Model.insert_shared payload shared w).2.
Proof.
  apply (insert_shared_keeps sound).
  - intros x doc w'. intros. by apply sound_put_doc.
  - done.
Qed.

Lemma reachable_sound w : reachable w -> sound w.
Proof.
  induction 1 as [strict file files n | c w _ IH | w files _ IH]; simpl.
  - split; [apply members_stored_new | apply ids_carried_new].
  - by apply after_sound.
  - done.
Qed.

End Identity.

(** ** The properties on concrete stores *)

Section Concrete.
Import Example.
Local Existing Instance Reference.helpers.

(** A property of the entries of a map built by successive insertions. *)
Lemma stored_insert_ind (P : string -> Obj -> Prop) (m : gmap string Obj) k doc :
  P k doc ->
  (forall k' d', m !! k' = Some d' -> P k' d') ->
  forall k' d', <[k := doc]> m !! k' = Some d' -> P k' d'.
Proof.
  intros Hk Hm k' d' [[<- <-] | [_ Hd]]%lookup_insert_Some; [done | by apply Hm].
Qed.

Lemma stored_empty_ind (P : string -> Obj -> Prop) :
  forall k' d', (∅ : gmap string Obj) !! k' = Some d' -> P k' d'.
Proof. intros k' d'. by rewrite lookup_empty. Qed.


Lemma two_left_ids_consistent : ids_consistent (db two_left).
Proof.
  unfold ids_consistent, two_left; simpl.
  repeat (apply (stored_insert_ind (fun k doc => get_id doc = Some k));
          [reflexivity|]).
  apply stored_empty_ind.
Qed.

Lemma two_left_bijection : bijection (db two_left).
Proof.
  unfold two_left; simpl.
  apply bijection_replace; [rewrite lookup_insert_ne by done; by rewrite lookup_insert_eq|].
  apply (bijection_put false (Some path) _ ["1"; "2"] "3" doc3).
  apply (bijection_put false (Some path) _ ["1"] "2" doc2).
  apply (bijection_put false (Some path) _ [] "1" doc1).
  apply bijection_new.
Qed.

Lemma roundtrips_doc1 : roundtrips doc1.
Proof. exists line1. vm_compute. by repeat split. Qed.

Lemma roundtrips_doc2 : roundtrips doc2.
Proof. exists (Reference.stringify (JObj doc2)). vm_compute. by repeat split. Qed.

Lemma roundtrips_doc3 : roundtrips doc3.
Proof. exists (Reference.stringify (JObj doc3)). vm_compute. by repeat split. Qed.

Lemma two_left_roundtrips k doc :
  db_map (db two_left) !! k = Some doc -> is_deleted doc = false -> roundtrips doc.
Proof.
  revert k doc. unfold two_left; simpl.
  pose (P := fun (_ : string) doc => is_deleted doc = false -> roundtrips doc).
  apply (stored_insert_ind P); [by intros [=]|].
  apply (stored_insert_ind P); [intros _; apply roundtrips_doc3|].
  apply (stored_insert_ind P); [intros _; apply roundtrips_doc2|].
  apply (stored_insert_ind P); [intros _; apply roundtrips_doc1|].
  apply stored_empty_ind.
Qed.

Lemma three_NoDup : NoDup ["1"; "2"; "3"].
Proof. apply (bool_decide_unpack _). vm_compute. reflexivity. Qed.

Lemma three_persistable : persistable three.
Proof.
  split; [apply three_NoDup|]. intros k Hk.
  repeat (apply elem_of_cons in Hk as [->|Hk]);
    [exists doc1 | exists doc2 | exists doc3 | by apply elem_of_nil in Hk];
    (split; [vm_compute; reflexivity | intros _; split; [reflexivity|]]).
  - apply roundtrips_doc1.
  - apply roundtrips_doc2.
  - apply roundtrips_doc3.
Qed.

Lemma two_left_persistable : persistable two_left.
Proof.
  split; [apply three_NoDup|]. intros k Hk.
  repeat (apply elem_of_cons in Hk as [->|Hk]);
    [exists doc1 | exists (mark_deleted doc2) | exists doc3
    | by apply elem_of_nil in Hk];
    (split; [vm_compute; reflexivity|]).
  - intros _. split; [reflexivity | apply roundtrips_doc1].
  - intros [=].
  - intros _. split; [reflexivity | apply roundtrips_doc3].
Qed.

Lemma insert_validates_in_turn_witness :
  Model.insert (More [doc1; broken; doc3]) (fresh true)
  = (Throw (InvalidNewDoc broken), put_doc "1" doc1 (fresh true)) /\
  "1" ∈ db_list (db (Model.insert (More [doc1; broken; doc3]) (fresh true)).2) /\
  db_map (db (Model.insert (More [doc1; broken; doc3]) (fresh true)).2) !! "1"
  = Some doc1.
Proof.
  apply (insert_validates_in_turn (fresh true) [doc1; broken; doc3] [doc3]
           doc1 broken "1").
  - reflexivity.
  - reflexivity.
  - reflexivity.
  - discriminate.
  - apply not_elem_of_nil.
  - reflexivity.
Defined.

(** [persist] on the store of the three documents when the second one
    does not serialize, under either policy, and on the store with a
    tombstone. *)
Lemma persist_compaction_witness :
  (@Model.persist refusing three_strict
   = (Throw (Foreign "Do not know how to serialize a BigInt"),
      dropped "2" three_strict) /\
   fs (@Model.persist refusing three_strict).2 = fs three_strict) /\
  ((@Model.persist refusing three).1 = Ok tt /\
   db_list (db (@Model.persist refusing three).2) = ["1"; "3"] /\
   db_map (db (@Model.persist refusing three).2) !! "2" = None) /\
  ("2" ∈ db_list (db (Model.persist two_left).2) /\
   db_map (db (Model.persist two_left).2) !! "2" = Some (mark_deleted doc2)).
Proof.
  split; [|split].
  - destruct (@persist_compaction refusing three_strict path eq_refl)
      as (_ & _ & Hstrict).
    apply (Hstrict eq_refl ["1"] "2" ["3"]).
    + reflexivity.
    + intros k ->%list_elem_of_singleton. vm_compute. reflexivity.
    + vm_compute. reflexivity.
  - destruct (@persist_compaction refusing three path eq_refl)
      as (_ & Hlenient & _).
    destruct (Hlenient (or_introl eq_refl)) as (Hok & Hl & Hm & _).
    split; [exact Hok|]. split.
    + rewrite Hl. vm_compute. reflexivity.
    + rewrite Hm. apply decide_True. split; [|split].
      * apply list_elem_of_further, list_elem_of_here.
      * vm_compute. reflexivity.
      * discriminate.
  - destruct (persist_compaction two_left path eq_refl) as [Hkeep _].
    apply Hkeep.
    + apply list_elem_of_further, list_elem_of_here.
    + vm_compute. reflexivity.
    + vm_compute. reflexivity.
Defined.

(** The claim C2 as the specification has it fails on [two_left]: its
    tombstoned document is still in the index after [persist]. *)
Lemma persist_keeps_tombstones_counterexample :
  ~ (forall k doc,
       db_map (db two_left) !! k = Some doc -> is_deleted doc = true ->
       (k ∉ db_list (db (Model.persist two_left).2)) /\
       db_map (db (Model.persist two_left).2) !! k = None).
Proof.
  intros Hclaim.
  destruct (Hclaim "2" (mark_deleted doc2)) as [_ Hnone].
  - vm_compute. reflexivity.
  - vm_compute. reflexivity.
  - vm_compute in Hnone. discriminate.
Qed.

(** [updateById('constructor', { type: 'weak' }); persist(); load()] on the
    store of the three documents. *)
Lemma persist_load_loses_unlisted_witness :
  let u := [("type", JStr "weak")] in
  let w1 := (Model.updateById (One "constructor") u None three).2 in
  (Model.updateById (One "constructor") u None three).1
  = Ok [with_id u "constructor"] /\
  db_map (db w1) !! "constructor" = Some (with_id u "constructor") /\
  db_map (purge (db w1)) !! "constructor" = Some (with_id u "constructor") /\
  (Model.persist w1).1 = Ok tt /\
  (Model.load (Model.persist w1).2).1 = Ok [] /\
  db_map (db (Model.load (Model.persist w1).2).2) !! "constructor" = None /\
  db (Model.load (Model.persist w1).2).2 <> purge (db w1).
Proof.
  intros u.
  apply (persist_load_loses_unlisted three path u None (with_id u "constructor")).
  - reflexivity.
  - apply three_persistable.
  - vm_compute. reflexivity.
  - vm_compute. reflexivity.
  - reflexivity.
  - reflexivity.
  - reflexivity.
  - reflexivity.
  - reflexivity.
  - reflexivity.
Defined.


(** The tombstoned second document of [two_left] on every path. *)
Lemma tombstoned_excluded_witness :
  (Model.findOne "2" None two_left).1 = Ok None /\
  Model.findMany (More ["1"; "2"; "3"]) None two_left
  = Model.findMany (More ["1"; "3"]) None two_left /\
  (Model.find [] None two_left).1 = (Model.find [] None (forget "2" two_left)).1 /\
  Model.updateById (More ["2"; "3"]) [("type", JStr "weak")] None two_left
  = Model.updateById (More ["3"]) [("type", JStr "weak")] None two_left /\
  db_map (db (Model.update [] [("type", JStr "weak")] None two_left).2) !! "2"
  = Some (mark_deleted doc2) /\
  Model.deleteById (One "2") two_left = Model.deleteById (More []) two_left /\
  db_map (db (Model.deleteById (One "2") two_left).2) !! "2"
  = Some (mark_deleted doc2) /\
  db_map (db (Model.delete [] two_left).2) !! "2" = Some (mark_deleted doc2).
Proof.
  destruct (tombstoned_excluded two_left "2" (mark_deleted doc2))
    as (Hone & Hmany & Hfind & HupdId & _ & Hupdate & HdelId & HdelId' & Hdelete).
  - vm_compute. reflexivity.
  - vm_compute. reflexivity.
  - split; [apply (Hone None)|].
    split; [apply Hmany; [vm_compute; reflexivity | reflexivity]|].
    split; [apply Hfind|].
    split; [apply HupdId; [vm_compute; reflexivity | reflexivity]|].
    split; [apply Hupdate|].
    split; [apply HdelId; [vm_compute; reflexivity | reflexivity]|].
    split; [apply HdelId' | apply Hdelete].
Defined.


(** [deleteById('constructor')] on a new store. *)
Lemma deleteById_breaks_bijection_witness :
  Model.deleteById (One "constructor") (fresh false)
  = (Ok 1, set_doc "constructor" [("$deleted", JBool true)] (fresh false)) /\
  reachable (Model.deleteById (One "constructor") (fresh false)).2 /\
  db_list (db (Model.deleteById (One "constructor") (fresh false)).2) = [] /\
  db_map (db (Model.deleteById (One "constructor") (fresh false)).2)
    !! "constructor"
  = Some [("$deleted", JBool true)] /\
  ~ bijection (db (Model.deleteById (One "constructor") (fresh false)).2).
Proof.
  apply (deleteById_breaks_bijection false (Some path) ∅ 0).
  - reflexivity.
  - reflexivity.
Defined.

Lemma delete_counts_new_tombstones_witness :
  ((Model.delete [("_id", JStr "2")] three).1 = Ok 1 /\
   (Model.find [] None (Model.delete [("_id", JStr "2")] three).2).1
   = Ok [doc1; doc3]) /\
  ((Model.deleteById (One "2") three).1 = Ok 1 /\
   (Model.find [] None (Model.deleteById (One "2") three).2).1
   = Ok [doc1; doc3]) /\
  (exists n w', Model.deleteById (More ["1"; "nobody"; "3"]) two_left = (Ok n, w')).
Proof.
  destruct (delete_counts_new_tombstones three) as (_ & _ & _ & _ & Hscenario).
  destruct (Hscenario "1" "2" "3" doc1 doc2 doc3 [("_id", JStr "2")] None doc1 doc3)
    as [Hdelete HdeleteById]; try discriminate; try (vm_compute; reflexivity).
  split; [exact Hdelete|]. split.
  - apply (HdeleteById (One "2")); reflexivity.
  - destruct (delete_counts_new_tombstones two_left) as (Hruns & _).
    apply Hruns. repeat constructor.
Defined.


Lemma load_last_line_wins_witness :
  (exists corrupted,
     (Model.load (twice true)).1 = Ok corrupted /\
     (line1 ∉ corrupted) /\ (line1' ∉ corrupted) /\
     (Forall (fun rawDoc => corrupt rawDoc = false)
             (split LF (line1 +:+ String LF line1')) ->
      corrupted = [])) /\
  length (filter (fun k => k = "1") (db_list (db (Model.load (twice true)).2))) = 1 /\
  db_map (db (Model.load (twice true)).2) !! "1" = Some doc1'.
Proof.
  apply (load_last_line_wins (twice true) path (line1 +:+ String LF line1')
           [] [] [] line1 line1' doc1 doc1' "1").
  - reflexivity.
  - vm_compute. reflexivity.
  - vm_compute. reflexivity.
  - right.
    replace (split LF (line1 +:+ String LF line1')) with [line1; line1']
      by (vm_compute; reflexivity).
    constructor; [vm_compute; reflexivity|].
    constructor; [vm_compute; reflexivity|]. constructor.
  - discriminate.
  - discriminate.
  - vm_compute. reflexivity.
  - vm_compute. reflexivity.
  - vm_compute. reflexivity.
  - vm_compute. reflexivity.
  - vm_compute. reflexivity.
  - vm_compute. reflexivity.
  - intros d []%elem_of_nil.
Defined.

End Concrete.

(** * Further properties of the store *)

(** ** What a call leaves alone *)

Section Frame.
Context `{H : Helpers}.

Lemma config_set_doc x doc w : config_of (set_doc x doc w) = config_of w.
Proof. done. Qed.

Lemma config_put_doc x doc w : config_of (put_doc x doc w) = config_of w.
Proof. done. Qed.

Lemma config_dropped x w : config_of (dropped x w) = config_of w.
Proof. done. Qed.

Lemma load_line_config acc rawDoc w :
  config_of (load_line acc rawDoc w).2 = config_of w.
Proof.
  rewrite load_line_run. case_decide; [done|].
  destruct (line_doc rawDoc); [done|]. by destruct (db_strict (db w)).
Qed.

Lemma persist_entry_config acc x w :
  config_of (persist_entry acc x w).2 = config_of w.
Proof.
  rewrite persist_entry_run.
  destruct (db_map (db w) !! x) as [doc|];
    [destruct (is_deleted doc); [done|]; destruct (JSON_stringify doc); [done|]|];
    by destruct (db_strict (db w)).
Qed.

Lemma insert_doc_config acc newDoc w :
  config_of (insert_doc acc newDoc w).2 = config_of w.
Proof.
  rewrite insert_doc_run. destruct (isValidDoc newDoc false); [|done]. cbn zeta.
  destruct (get_id newDoc) as [id|]; [|done].
  case_decide; [done|]. by case_bool_decide.
Qed.

Lemma store_update_config newDoc projection acc x w :
  config_of (store_update newDoc projection acc x w).2 = config_of w.
Proof.
  rewrite store_update_run. destruct newDoc as [newDoc|]; [|done].
  by destruct (project (with_id newDoc x) projection).
Qed.

Lemma apply_update_config upd projection acc x doc w :
  config_of (apply_update upd projection acc x doc w).2 = config_of w.
Proof. apply store_update_config. Qed.

Lemma updateById_id_config upd projection acc x w :
  config_of (updateById_id upd projection acc x w).2 = config_of w.
Proof.
  rewrite updateById_id_run. destruct (isId x); [|done].
  destruct (map_read (db_map (db w)) x) as [v|]; [|done].
  destruct (flagged v); [done | apply store_update_config].
Qed.

Lemma update_entry_config query upd projection acc x w :
  config_of (update_entry query upd projection acc x w).2 = config_of w.
Proof.
  rewrite update_entry_run.
  destruct (live_match query x w).1 as [[doc|]|]; try done. apply apply_update_config.
Qed.

Lemma deleteById_id_config acc x w :
  config_of (deleteById_id acc x w).2 = config_of w.
Proof.
  rewrite deleteById_id_run. destruct (isId x); [|done].
  destruct (map_read (db_map (db w)) x) as [v|]; [|done]. by destruct (flagged v).
Qed.

Lemma delete_entry_config query acc x w :
  config_of (delete_entry query acc x w).2 = config_of w.
Proof.
  rewrite delete_entry_run. by destruct (live_match query x w).1 as [[doc|]|].
Qed.

(** A loop whose turns keep the configuration keeps it. *)
Lemma foldM_config {A B} (body : B -> A -> M B) (l : list A) acc w :
  (forall acc x w, config_of (body acc x w).2 = config_of w) ->
  config_of (foldM body l acc w).2 = config_of w.
Proof.
  intros Hbody.
  apply (foldM_keeps (fun w' => config_of w' = config_of w)); [|done].
  intros acc' x w' <-. apply Hbody.
Qed.

Lemma same_store_config w w' : config_of w' = config_of w -> same_store w w'.
Proof. unfold config_of, same_store. intros [= -> -> ->]. done. Qed.

Lemma persist_loop_config l acc w :
  config_of (foldM persist_entry l acc w).2 = config_of w.
Proof. apply foldM_config, persist_entry_config. Qed.

Lemma load_same_store w : same_store w (Model.load w).2.
Proof.
  rewrite load_unfold. destruct (db_file (db w)) as [f|] eqn:Hf;
    [|by apply same_store_config].
  destruct (fs w !! f) as [text|].
  - apply same_store_config.
    rewrite foldM_config by apply load_line_config. unfold config_of; simpl. by rewrite Hf.
  - unfold same_store; simpl. split_and!; [done | done |].
    intros f' Hne. rewrite lookup_insert_ne; [done|]. congruence.
Qed.

Lemma persist_same_store w : same_store w (Model.persist w).2.
Proof.
  rewrite persist_unfold. destruct (db_file (db w)) as [f|] eqn:Hf;
    [|by apply same_store_config].
  pose proof (persist_loop_config (db_list (db w)) [] w) as Hc.
  destruct (foldM persist_entry (db_list (db w)) [] w) as [[payload|e] w'];
    simpl in *; [|by apply same_store_config].
  unfold config_of in Hc. injection Hc as Hs Hfile Hfs.
  unfold same_store; simpl. rewrite Hs, Hfile, Hf. split_and!; [done | done |].
  intros f' Hne. rewrite lookup_insert_ne by congruence. by rewrite Hfs.
Qed.

End Frame.

Section FrameOfCalls.
Context `{H : Helpers}.

Lemma after_config c w :
  uses_files c = false -> config_of (after c w) = config_of w.
Proof.
  destruct c as [| |p|i p|i p|q p|q u p|q u p|q|q|]; try done; intros _; simpl.
  - unfold Model.insert.
    destruct (match p with More _ => false | One o => negb (isObject (JObj o)) end);
      [done|]. apply foldM_config, insert_doc_config.
  - by rewrite findOne_world.
  - by rewrite findMany_world.
  - by rewrite find_world.
  - unfold Model.updateById. destruct (isValidUpdate u); [|done].
    apply foldM_config, updateById_id_config.
  - unfold Model.update. destruct (isObject (JObj q)); [|done].
    destruct (isValidUpdate u); [|done].
    apply (foldM_config (update_entry q u p)), update_entry_config.
  - apply foldM_config, deleteById_id_config.
  - rewrite delete_unfold. destruct (isObject (JObj q)); [|done].
    apply foldM_config, delete_entry_config.
Qed.

Lemma drop_same_store w : same_store w (Model.drop w).2.
Proof.
  rewrite drop_unfold. cbv zeta. destruct (db_file (db w)) as [f|] eqn:Hf.
  - destruct (persist_same_store
                (mkWorld (new_LeafDB (db_strict (db w)) (Some f)) (fs w) (uid w)))
      as (Hs & Hfile & Hfs).
    unfold same_store. rewrite Hs, Hfile, Hf. split_and!; [done | done |].
    intros f' Hne. by rewrite Hfs.
  - unfold same_store; simpl. by rewrite Hf.
Qed.

Lemma after_same_store c w : same_store w (after c w).
Proof.
  destruct (uses_files c) eqn:Hc; [|by apply same_store_config, after_config].
  destruct c; try done; simpl.
  - apply load_same_store.
  - apply persist_same_store.
  - apply drop_same_store.
Qed.

Lemma after_memory_files c w :
  db_file (db w) = None -> fs (after c w) = fs w.
Proof.
  intros Hmem. destruct (uses_files c) eqn:Hc.
  - destruct c; try done; simpl.
    + by rewrite load_unfold, Hmem.
    + by rewrite persist_unfold, Hmem.
    + by rewrite drop_unfold, Hmem.
  - pose proof (after_config c w Hc) as Hcfg. unfold config_of in Hcfg. congruence.
Qed.

(** X1. No call changes the policy ([strict]) or the backing file of a
    store, and no call touches a file other than the backing file.  The
    calls other than [load], [persist] and [drop] touch no file at all,
    and a store in memory mode never touches a file. *)
Theorem calls_keep_configuration (c : call) (w : World) :
  same_store w (after c w) /\
  (uses_files c = false \/ db_file (db w) = None -> fs (after c w) = fs w).
Proof.
  split; [apply after_same_store|].
  intros [Hc | Hmem]; [|by apply after_memory_files].
  pose proof (after_config c w Hc) as Hcfg. unfold config_of in Hcfg. congruence.
Qed.

End FrameOfCalls.

(** ** What the queries return *)

Section Reading.
Context `{H : Helpers}.

Lemma selected_spec q (m : gmap string Obj) k :
  selected q m k = true <->
  exists doc, m !! k = Some doc /\ is_deleted doc = false /\
              isQueryMatch doc q = Ok true.
Proof.
  unfold selected. destruct (m !! k) as [doc|]; [|split; [done | by intros (? & ? & _)]].
  split.
  - intros [Hlive Hq]%andb_true_iff. exists doc.
    destruct (is_deleted doc); [done|].
    by destruct (isQueryMatch doc q) as [[]|].
  - intros (doc' & [= <-] & -> & ->). done.
Qed.

Lemma find_loop q p (l : list string) : forall acc w payload w',
  foldM (find_entry q p) l acc w = (Ok payload, w') ->
  w' = w /\
  exists rs, payload = acc ++ rs /\
    Forall2 (fun k r => exists doc, db_map (db w) !! k = Some doc /\
                                    project doc p = Ok r)
            (filter (fun k => selected q (db_map (db w)) k = true) l) rs.
Proof.
  induction l as [|x l IH]; intros acc w payload w' Hrun; simpl in Hrun.
  - injection Hrun as <- <-. split; [done|]. exists []. by rewrite app_nil_r.
  - unfold bind in Hrun. rewrite find_entry_run, live_match_eval in Hrun.
    destruct (db_map (db w) !! x) as [doc|] eqn:Hx; [|done].
    destruct (is_deleted doc) eqn:Hdel.
    { rewrite filter_cons_False; [by apply IH|].
      unfold selected. by rewrite Hx, Hdel. }
    destruct (isQueryMatch doc q) as [[]|] eqn:Hq; [| |done].
    + rewrite filter_cons_True by (unfold selected; by rewrite Hx, Hdel, Hq).
      destruct (project doc p) as [r|] eqn:Hr; [|done].
      destruct (IH _ _ _ _ Hrun) as (-> & rs & -> & Hrs). split; [done|].
      exists (r :: rs). rewrite <- app_assoc. split; [done|].
      constructor; [by exists doc | done].
    + rewrite filter_cons_False; [by apply IH|].
      unfold selected. by rewrite Hx, Hdel, Hq.
Qed.

Lemma find_loop_runs q p (l : list string) : forall acc w,
  (forall k, k ∈ l -> exists doc,
     db_map (db w) !! k = Some doc /\
     (is_deleted doc = true \/ isQueryMatch doc q = Ok false \/
      (isQueryMatch doc q = Ok true /\ exists r, project doc p = Ok r))) ->
  exists payload, foldM (find_entry q p) l acc w = (Ok payload, w).
Proof.
  induction l as [|x l IH]; intros acc w Hl; simpl; [by eexists|].
  unfold bind. rewrite find_entry_run, live_match_eval.
  destruct (Hl x) as (doc & -> & Hdoc); [by left|].
  assert (Hrest : forall k, k ∈ l -> exists doc,
     db_map (db w) !! k = Some doc /\
     (is_deleted doc = true \/ isQueryMatch doc q = Ok false \/
      (isQueryMatch doc q = Ok true /\ exists r, project doc p = Ok r))).
  { intros k Hk. apply Hl. by right. }
  destruct (is_deleted doc) eqn:Hdel; [by apply IH|].
  destruct Hdoc as [? | [-> | [-> [r ->]]]]; [done | by apply IH | by apply IH].
Qed.

(** X2. The queries leave the store as it is, documents, insertion order,
    files and all, whether they return or throw. *)
Theorem queries_change_nothing (w : World) :
  (forall id p, (Model.findOne id p w).2 = w) /\
  (forall ids p, (Model.findMany ids p w).2 = w) /\
  (forall q p, (Model.find q p w).2 = w).
Proof.
  split; [|split].
  - intros id p. apply findOne_world.
  - intros ids p. apply findMany_world.
  - intros q p. apply find_world.
Qed.

(** X3. When [find] returns, it returns the projections of exactly the
    live documents that match the query, in insertion order, one per
    document.  It returns whenever the query is an object, every
    identifier of the sequence has a document, and matching and projecting
    do not throw on the live documents. *)
Theorem find_returns_matches (q : Obj) (p : option (list string)) (w : World) :
  (forall payload w',
     Model.find q p w = (Ok payload, w') ->
     isObject (JObj q) = true /\
     Forall2 (fun k r => exists doc, db_map (db w) !! k = Some doc /\
                                     project doc p = Ok r)
             (filter (fun k => selected q (db_map (db w)) k = true)
                     (db_list (db w)))
             payload) /\
  (isObject (JObj q) = true ->
   (forall k, k ∈ db_list (db w) -> exists doc,
      db_map (db w) !! k = Some doc /\
      (is_deleted doc = true \/ isQueryMatch doc q = Ok false \/
       (isQueryMatch doc q = Ok true /\ exists r, project doc p = Ok r))) ->
   exists payload, Model.find q p w = (Ok payload, w)).
Proof.
  split.
  - intros payload w'. rewrite find_unfold.
    destruct (isObject (JObj q)); [|done]. intros Hrun. split; [done|].
    by destruct (find_loop _ _ _ _ _ _ _ Hrun) as (_ & rs & -> & Hrs).
  - intros Hq Hl. rewrite find_unfold, Hq. by apply find_loop_runs.
Qed.

Lemma findMany_loop p (l : list string) : forall acc w payload w',
  foldM (findMany_id p) l acc w = (Ok payload, w') ->
  Forall (fun k => isId k = true) l /\
  exists rs, payload = acc ++ rs /\
    Forall2 (fun k r => exists v, map_read (db_map (db w)) k = Some v /\
                                  project_value v p = Ok r)
            (filter (fun k => live_read (db_map (db w)) k = true) l) rs.
Proof.
  induction l as [|x l IH]; intros acc w payload w' Hrun; simpl in Hrun.
  - injection Hrun as <- <-. split; [done|]. exists []. by rewrite app_nil_r.
  - unfold bind in Hrun. rewrite findMany_id_run in Hrun.
    destruct (isId x) eqn:Hid; [|done].
    destruct (map_read (db_map (db w)) x) as [v|] eqn:Hx.
    + destruct (flagged v) eqn:Hdel.
      * rewrite filter_cons_False by (unfold live_read; by rewrite Hx, Hdel).
        destruct (IH _ _ _ _ Hrun) as (Hids & Hrs). split; [by constructor | done].
      * rewrite filter_cons_True by (unfold live_read; by rewrite Hx, Hdel).
        destruct (project_value v p) as [r|] eqn:Hr; [|done].
        destruct (IH _ _ _ _ Hrun) as (Hids & rs & -> & Hrs).
        split; [by constructor|].
        exists (r :: rs). rewrite <- app_assoc. split; [done|].
        constructor; [by exists v | done].
    + rewrite filter_cons_False by (unfold live_read; by rewrite Hx).
      destruct (IH _ _ _ _ Hrun) as (Hids & Hrs). split; [by constructor | done].
Qed.

Lemma findMany_loop_runs p (l : list string) : forall acc w,
  Forall (fun k => isId k = true) l ->
  (forall k v, k ∈ l -> map_read (db_map (db w)) k = Some v ->
     flagged v = false -> exists r, project_value v p = Ok r) ->
  exists payload, foldM (findMany_id p) l acc w = (Ok payload, w).
Proof.
  induction l as [|x l IH]; intros acc w Hids Hl; simpl; [by eexists|].
  unfold bind. rewrite findMany_id_run.
  apply Forall_cons in Hids as [-> Hids].
  assert (Hrest : forall k v, k ∈ l -> map_read (db_map (db w)) k = Some v ->
     flagged v = false -> exists r, project_value v p = Ok r).
  { intros k v Hk. apply Hl. by right. }
  destruct (map_read (db_map (db w)) x) as [v|] eqn:Hx; [|by apply IH].
  destruct (flagged v) eqn:Hdel; [by apply IH|].
  destruct (Hl x v) as [r ->]; [by left | done | done |]. by apply IH.
Qed.

(** X4. [findMany] throws on an argument that is no array.  On an array,
    when it returns, every identifier it was given is valid, and it
    returns the projections of what [this.map] holds for them and is
    truthy without a tombstone, in the order given and as often as given;
    the others are skipped without an error.  What [this.map] holds for an
    identifier is its document when it has one, and else what the object
    inherits under that name; a document counts when it is live.  It
    returns whenever the identifiers are valid and projecting does not
    throw. *)
Theorem findMany_returns_live (ids : list string) (p : option (list string))
    (w : World) :
  (forall s, Model.findMany (One s) p w = (Throw (InvalidIds s), w)) /\
  (forall payload w',
     Model.findMany (More ids) p w = (Ok payload, w') ->
     Forall (fun k => isId k = true) (toArray (More ids)) /\
     Forall2 (fun k r => exists v, map_read (db_map (db w)) k = Some v /\
                                   project_value v p = Ok r)
             (filter (fun k => live_read (db_map (db w)) k = true)
                     (toArray (More ids)))
             payload) /\
  (Forall (fun k => isId k = true) (toArray (More ids)) ->
   (forall k v, k ∈ toArray (More ids) -> map_read (db_map (db w)) k = Some v ->
      flagged v = false -> exists r, project_value v p = Ok r) ->
   exists payload, Model.findMany (More ids) p w = (Ok payload, w)) /\
  (forall k doc,
     db_map (db w) !! k = Some doc ->
     map_read (db_map (db w)) k = Some (Document doc) /\
     live_read (db_map (db w)) k = negb (is_deleted doc) /\
     project_value (Document doc) p = project doc p).
Proof.
  split_and!.
  - done.
  - intros payload w' Hrun. rewrite findMany_unfold in Hrun.
    destruct (findMany_loop _ _ _ _ _ _ Hrun) as (Hids & rs & -> & Hrs). done.
  - intros Hids Hl. rewrite findMany_unfold. by apply findMany_loop_runs.
  - intros k doc Hk. split_and!; [by apply map_read_stored | | done].
    by apply live_read_stored.
Qed.

End Reading.
(** ** Dropping and loading *)

Section Dropping.
Context `{H : Helpers}.

Lemma World_eq (a b : World) :
  db a = db b -> fs a = fs b -> uid a = uid b -> a = b.
Proof. destruct a, b; simpl. by intros -> -> ->. Qed.

(** Loading the empty text leaves an empty index. *)
Lemma load_empty_file w f :
  db_file (db w) = Some f -> fs w !! f = Some "" ->
  Model.load w = (Ok [], flushed w).
Proof. intros Hf Hfs. by rewrite load_unfold, Hf, Hfs. Qed.

(** X5. [drop] always returns: it empties the index, keeps the policy and
    the backing file, and overwrites the backing file, when there is one,
    with the empty text; in memory mode it touches no file.  On the
    dropped store [find] returns nothing and [load] finds no document. *)
Theorem drop_empties_store (w : World) :
  Model.drop w
  = (Ok tt,
     mkWorld (new_LeafDB (db_strict (db w)) (db_file (db w)))
             match db_file (db w) with
             | Some f => <[f := ""]> (fs w)
             | None => fs w
             end
             (uid w)) /\
  (forall q p, isObject (JObj q) = true ->
     Model.find q p (Model.drop w).2 = (Ok [], (Model.drop w).2)) /\
  (forall f, db_file (db w) = Some f ->
     Model.load (Model.drop w).2 = (Ok [], (Model.drop w).2)).
Proof.
  assert (Hdrop : Model.drop w
    = (Ok tt,
       mkWorld (new_LeafDB (db_strict (db w)) (db_file (db w)))
               match db_file (db w) with
               | Some f => <[f := ""]> (fs w)
               | None => fs w
               end
               (uid w))).
  { rewrite drop_unfold. cbv zeta. destruct (db_file (db w)) as [f|] eqn:Hf; [|done].
    by rewrite persist_unfold. }
  rewrite Hdrop. split; [done|]. split.
  - intros q p Hq. rewrite find_unfold, Hq. done.
  - intros f Hf. rewrite Hf. rewrite (load_empty_file _ f); [done | done |].
    simpl. by rewrite lookup_insert_eq.
Qed.

Lemma load_line_flushed acc rawDoc w :
  flushed (load_line acc rawDoc w).2 = flushed w.
Proof.
  rewrite load_line_run. case_decide; [done|].
  destruct (line_doc rawDoc); [done|]. by destruct (db_strict (db w)).
Qed.

Lemma load_flushed w f text :
  db_file (db w) = Some f -> fs w !! f = Some text ->
  flushed (Model.load w).2 = flushed w.
Proof.
  intros Hf Hfs. rewrite load_unfold, Hf, Hfs.
  apply (foldM_keeps (fun w' => flushed w' = flushed w)); [|done].
  intros acc x w' <-. apply load_line_flushed.
Qed.

Lemma load_of_flushed w f text :
  db_file (db w) = Some f -> fs w !! f = Some text ->
  Model.load w = foldM load_line (split LF text) [] (flushed w).
Proof. intros Hf Hfs. by rewrite load_unfold, Hf, Hfs. Qed.

(** X6. [load] of a store whose backing file does not exist creates the
    file with the empty text, reports no corrupted line, and keeps the
    documents in memory as they are.  A second [load] then finds the empty
    file and empties the index. *)
Theorem load_creates_missing_file (w : World) (f : string) :
  db_file (db w) = Some f ->
  fs w !! f = None ->
  Model.load w = (Ok [], mkWorld (db w) (<[f := ""]> (fs w)) (uid w)) /\
  Model.load (Model.load w).2
  = (Ok [],
     mkWorld (new_LeafDB (db_strict (db w)) (Some f)) (<[f := ""]> (fs w)) (uid w)).
Proof.
  intros Hf Hfs.
  assert (Hload : Model.load w = (Ok [], mkWorld (db w) (<[f := ""]> (fs w)) (uid w))).
  { by rewrite load_unfold, Hf, Hfs. }
  rewrite Hload. split; [done|]. simpl.
  rewrite (load_empty_file _ f); [|done|simpl; by rewrite lookup_insert_eq].
  unfold flushed; simpl. by rewrite Hf.
Qed.

(** X7. [load] of an existing backing file starts from an empty index:
    what it returns and the index it leaves depend on the policy and on
    the file, not on the documents in memory, which are discarded.  So
    loading twice is the same as loading once. *)
Theorem load_replaces_memory (w : World) (f text : string) :
  db_file (db w) = Some f ->
  fs w !! f = Some text ->
  (forall w2, config_of w2 = config_of w -> uid w2 = uid w ->
     Model.load w2 = Model.load w) /\
  Model.load (Model.load w).2 = Model.load w.
Proof.
  intros Hf Hfs.
  assert (Hdep : forall w2, flushed w2 = flushed w -> Model.load w2 = Model.load w).
  { intros w2 Hfl.
    assert (Hf2 : db_file (db w2) = Some f).
    { rewrite <- Hf. by injection Hfl. }
    assert (Hfs2 : fs w2 !! f = Some text).
    { rewrite <- Hfs. injection Hfl as _ _ ->. done. }
    by rewrite (load_of_flushed w2 f text), (load_of_flushed w f text), Hfl. }
  split.
  - intros w2 Hcfg Huid. apply Hdep. unfold config_of in Hcfg.
    injection Hcfg as Hs Hfile Hfiles. unfold flushed. by rewrite Hs, Hfile, Hfiles, Huid.
  - apply Hdep. by apply (load_flushed w f text).
Qed.

End Dropping.

(** ** Inserting and finding again *)

Section InsertingMore.
Context `{H : Helpers}.

Lemma restore_db docs : forall w1 w2,
  db w1 = db w2 -> db (restore docs w1) = db (restore docs w2).
Proof.
  induction docs as [|d docs IH]; intros w1 w2 Hdb; simpl; [done|].
  apply IH. unfold put_doc; simpl. by rewrite Hdb.
Qed.

Lemma insert_unfold payload w :
  Model.insert payload w =
  if insertable payload then foldM insert_doc (toArray payload) [] w
  else (Throw InvalidPayload, w).
Proof.
  unfold Model.insert, insertable. destruct payload as [o|l]; [|done].
  by destruct (isObject (JObj o)).
Qed.

(** One turn of the loop of [insert], by the kind of the document. *)
Lemma insert_doc_turn inserted newDoc w :
  isValidDoc newDoc false = true ->
  insert_doc inserted newDoc w =
  if lacks_id newDoc then
    (Ok (inserted ++ [with_id newDoc (generateUid (uid w))]),
     put_doc (generateUid (uid w)) (with_id newDoc (generateUid (uid w))) (next_uid w))
  else if bool_decide (id_key newDoc ∈ db_list (db w))
       then (Throw (IdExists (id_key newDoc)), w)
       else (Ok (inserted ++ [newDoc]), put_doc (id_key newDoc) newDoc w).
Proof.
  intros Hvalid. rewrite insert_doc_run, Hvalid. cbv zeta.
  unfold lacks_id, id_key. destruct (get_id newDoc) as [id|]; [|done].
  case_decide; [by rewrite bool_decide_eq_true_2|].
  by rewrite (bool_decide_eq_false_2 (id = "")).
Qed.

Lemma insert_loop (l : list Obj) : forall acc w inserted w',
  foldM insert_doc l acc w = (Ok inserted, w') ->
  inserted = acc ++ assign_ids (uid w) l /\
  Forall (fun newDoc => isValidDoc newDoc false = true) l /\
  db w' = db (restore (assign_ids (uid w) l) w) /\
  fs w' = fs w /\
  uid w' = uid w + length (filter (fun newDoc => lacks_id newDoc = true) l).
Proof.
  induction l as [|x l IH]; intros acc w inserted w' Hrun; simpl in Hrun.
  - injection Hrun as <- <-. simpl. rewrite app_nil_r. split_and!; try done; lia.
  - unfold bind in Hrun.
    destruct (isValidDoc x false) eqn:Hvalid;
      [|by rewrite insert_doc_run, Hvalid in Hrun].
    rewrite insert_doc_turn in Hrun by done. cbn [assign_ids].
    destruct (lacks_id x) eqn:Hx.
    + rewrite filter_cons_True by done.
      destruct (IH _ _ _ _ Hrun) as (-> & Hl & Hdb & Hfs & Huid).
      simpl in Hdb, Hfs, Huid. rewrite <- app_assoc.
      split_and!; [done | by constructor | | done | simpl; lia].
      rewrite Hdb. simpl. rewrite id_key_with_id. by apply restore_db.
    + rewrite filter_cons_False by (by rewrite Hx).
      case_bool_decide; [done|].
      destruct (IH _ _ _ _ Hrun) as (-> & Hl & Hdb & Hfs & Huid).
      rewrite <- app_assoc. split_and!; [done | by constructor | done | done | done].
Qed.

Lemma insert_loop_runs (l : list Obj) : forall acc w,
  Forall (fun newDoc => isValidDoc newDoc false = true) l ->
  (forall pre newDoc post, l = pre ++ newDoc :: post -> lacks_id newDoc = false ->
     (id_key newDoc ∉ db_list (db w)) /\
     forall d, d ∈ assign_ids (uid w) pre -> id_key d <> id_key newDoc) ->
  exists w', foldM insert_doc l acc w = (Ok (acc ++ assign_ids (uid w) l), w').
Proof.
  induction l as [|x l IH]; intros acc w Hvalid Hfree; simpl.
  - exists w. by rewrite app_nil_r.
  - apply Forall_cons in Hvalid as [Hx Hvalid].
    unfold bind. rewrite insert_doc_turn by done.
    destruct (lacks_id x) eqn:Hlx.
    + destruct (IH (acc ++ [with_id x (generateUid (uid w))])
                  (put_doc (generateUid (uid w)) (with_id x (generateUid (uid w)))
                           (next_uid w)) Hvalid) as [w' Hw'].
      { intros pre newDoc post -> Hlacks.
        destruct (Hfree (x :: pre) newDoc post eq_refl Hlacks) as [Hnew Hpre].
        cbn [assign_ids] in Hpre. rewrite Hlx in Hpre. split.
        - simpl. rewrite elem_of_set_add. intros [Heq | Hin]; [|done].
          apply (Hpre (with_id x (generateUid (uid w)))); [by left|].
          by rewrite id_key_with_id.
        - intros d Hd. apply Hpre. by right. }
      exists w'. rewrite Hw'. simpl. by rewrite <- app_assoc.
    + destruct (Hfree [] x l eq_refl Hlx) as [Hnew _].
      rewrite bool_decide_eq_false_2 by done.
      destruct (IH (acc ++ [x]) (put_doc (id_key x) x w) Hvalid) as [w' Hw'].
      { intros pre newDoc post -> Hlacks.
        destruct (Hfree (x :: pre) newDoc post eq_refl Hlacks) as [Hnew' Hpre].
        cbn [assign_ids] in Hpre. rewrite Hlx in Hpre. split.
        - simpl. rewrite elem_of_set_add. intros [Heq | Hin]; [|done].
          apply (Hpre x); [by left | done].
        - intros d Hd. apply Hpre. by right. }
      exists w'. rewrite Hw'. simpl. by rewrite <- app_assoc.
Qed.

Lemma insert_shared_unfold payload shared w :
  Model.insert_shared payload shared w =
  if insertable payload then foldM (insert_turn shared) (toArray payload) [] w
  else (Throw InvalidPayload, w).
Proof.
  unfold Model.insert_shared, insertable. destruct payload as [o|l]; [|done].
  by destruct (isObject (JObj o)).
Qed.

(** [insert] on a payload in which no object occurs twice. *)
Lemma insert_shared_distinct payload shared w :
  (forall i j, shared !! i = Some j -> j = i) ->
  Model.insert_shared payload shared w = Model.insert payload w.
Proof.
  intros Hshared. unfold Model.insert_shared, Model.insert.
  match goal with |- context [if ?b then _ else _] => destruct b end; [done|].
  generalize (@nil Obj) as acc. revert w.
  induction (toArray payload) as [|x l IH]; intros w acc; [done|].
  cbn [foldM]. unfold bind.
  assert (current shared acc x = x) as Hx.
  { unfold current. destruct (shared !! length acc) as [j|] eqn:Hj; [|done].
    rewrite (Hshared _ _ Hj).
    by rewrite (proj2 (lookup_ge_None acc (length acc))) by lia. }
  rewrite insert_turn_run, Hx.
  destruct (insert_doc acc x w) as [[acc'|e] w']; [apply IH | done].
Qed.

(** X8. [shared] tells which places of the payload hold an object met
    before.  When none does: when [insert] returns, every document of the
    payload was valid, it returns the documents in the order of the
    payload, those without an identifier (absent or empty) with the next
    generated identifier set, and the index is the one obtained by adding
    them in that order; no file is touched; it returns whenever the
    payload is an array or an object, every document is valid, and no
    identifier given in the payload is known to the store or carried by
    an earlier document of the payload.  When the first two places hold
    the same object without identifier, [insert] writes the generated
    identifier into that object at its first turn, meets it there at the
    second, and throws that it exists already, the object being in the
    index once. *)
Theorem insert_stores_in_order (payload : OneOrMore Obj) (shared : list nat)
    (w : World) :
  ((forall i j, shared !! i = Some j -> j = i) ->
   (forall inserted w',
      Model.insert_shared payload shared w = (Ok inserted, w') ->
      insertable payload = true /\
      Forall (fun newDoc => isValidDoc newDoc false = true) (toArray payload) /\
      inserted = assign_ids (uid w) (toArray payload) /\
      db w' = db (restore inserted w) /\
      fs w' = fs w) /\
   (insertable payload = true ->
    Forall (fun newDoc => isValidDoc newDoc false = true) (toArray payload) ->
    (forall pre newDoc post,
       toArray payload = pre ++ newDoc :: post -> lacks_id newDoc = false ->
       (id_key newDoc ∉ db_list (db w)) /\
       forall d, d ∈ assign_ids (uid w) pre -> id_key d <> id_key newDoc) ->
    (Model.insert_shared payload shared w).1
    = Ok (assign_ids (uid w) (toArray payload))) /\
   Model.insert_shared payload shared w = Model.insert payload w) /\
  (forall d rest,
     insertable payload = true ->
     toArray payload = d :: d :: rest ->
     shared !! 1 = Some 0 ->
     lacks_id d = true ->
     isValidDoc d false = true ->
     isValidDoc (with_id d (generateUid (uid w))) false = true ->
     generateUid (uid w) <> "" ->
     Model.insert_shared payload shared w
     = (Throw (IdExists (generateUid (uid w))),
        put_doc (generateUid (uid w)) (with_id d (generateUid (uid w)))
                (next_uid w))).
Proof.
  split.
  - intros Hdistinct. rewrite (insert_shared_distinct payload shared w Hdistinct).
    split_and!; [| | done].
    + intros inserted w'. rewrite insert_unfold.
      destruct (insertable payload); [|done]. intros Hrun.
      destruct (insert_loop _ _ _ _ _ Hrun) as (-> & Hvalid & Hdb & Hfs & _). done.
    + intros Hp Hvalid Hfree. rewrite insert_unfold, Hp.
      destruct (insert_loop_runs (toArray payload) [] w Hvalid Hfree) as [w' ->].
      done.
  - intros d rest Hp Harr Hshared Hlacks Hvalid Hvalid' Hne.
    rewrite insert_shared_unfold, Hp, Harr. cbn [foldM]. unfold bind.
    assert (current shared [] d = d) as Hfirst.
    { unfold current. simpl. by destruct (shared !! 0) as [[|j]|]. }
    rewrite insert_turn_run, Hfirst, insert_doc_turn, Hlacks by done.
    rewrite insert_turn_run. unfold current. simpl. rewrite Hshared. simpl.
    rewrite insert_doc_run, Hvalid', get_id_with_id. cbv zeta.
    rewrite decide_False by done. rewrite bool_decide_eq_true_2; [done|].
    simpl. apply elem_of_set_add. by left.
Qed.

(** X9. A document returned by [insert] is found again by [findOne] under
    its identifier, provided no later document of the same call took the
    same identifier, the identifier is valid and the document carries no
    tombstone. *)
Theorem insert_then_findOne (payload : OneOrMore Obj) (w w' : World)
    (pre post : list Obj) (doc r : Obj) (p : option (list string)) :
  Model.insert payload w = (Ok (pre ++ doc :: post), w') ->
  (forall d, d ∈ post -> id_key d <> id_key doc) ->
  isId (id_key doc) = true ->
  is_deleted doc = false ->
  project doc p = Ok r ->
  Model.findOne (id_key doc) p w' = (Ok (Some r), w').
Proof.
  intros Hrun Hpost Hid Hlive Hr. rewrite insert_unfold in Hrun.
  destruct (insertable payload); [|done].
  destruct (insert_loop _ _ _ _ _ Hrun) as (Hins & _ & Hdb & _).
  simpl in Hins. rewrite <- Hins in Hdb.
  assert (Hdoc : db_map (db w') !! id_key doc = Some doc).
  { rewrite Hdb. by apply restore_map_last. }
  rewrite findOne_run, Hid, (map_read_stored _ _ doc) by done.
  cbn [flagged project_value]. by rewrite Hlive, Hr.
Qed.

End InsertingMore.

(** ** The insertion order *)

Section Sequence.
Context `{H : Helpers}.

(** A loop whose turns keep the sequence keeps it. *)
Lemma foldM_list {A B} (body : B -> A -> M B) (l : list A) acc w :
  (forall acc x w, db_list (db (body acc x w).2) = db_list (db w)) ->
  db_list (db (foldM body l acc w).2) = db_list (db w).
Proof.
  intros Hbody.
  apply (foldM_keeps (fun w' => db_list (db w') = db_list (db w))); [|done].
  intros acc' x w' <-. apply Hbody.
Qed.

Lemma store_update_list newDoc projection acc x w :
  db_list (db (store_update newDoc projection acc x w).2) = db_list (db w).
Proof.
  rewrite store_update_run. destruct newDoc as [newDoc|]; [|done].
  by destruct (project (with_id newDoc x) projection).
Qed.

Lemma apply_update_list upd projection acc x doc w :
  db_list (db (apply_update upd projection acc x doc w).2) = db_list (db w).
Proof. apply store_update_list. Qed.

Lemma updateById_id_list upd projection acc x w :
  db_list (db (updateById_id upd projection acc x w).2) = db_list (db w).
Proof.
  rewrite updateById_id_run. destruct (isId x); [|done].
  destruct (map_read (db_map (db w)) x) as [v|]; [|done].
  destruct (flagged v); [done | apply store_update_list].
Qed.

Lemma update_entry_list query upd projection acc x w :
  db_list (db (update_entry query upd projection acc x w).2) = db_list (db w).
Proof.
  rewrite update_entry_run.
  destruct (live_match query x w).1 as [[doc|]|]; try done. apply apply_update_list.
Qed.

Lemma deleteById_id_list acc x w :
  db_list (db (deleteById_id acc x w).2) = db_list (db w).
Proof.
  rewrite deleteById_id_run. destruct (isId x); [|done].
  destruct (map_read (db_map (db w)) x) as [v|]; [|done]. by destruct (flagged v).
Qed.

Lemma delete_entry_list query acc x w :
  db_list (db (delete_entry query acc x w).2) = db_list (db w).
Proof.
  rewrite delete_entry_run. by destruct (live_match query x w).1 as [[doc|]|].
Qed.

Lemma insert_doc_grows acc newDoc w :
  exists new, db_list (db (insert_doc acc newDoc w).2) = db_list (db w) ++ new.
Proof.
  assert (Hadd : forall k, exists new, set_add k (db_list (db w)) = db_list (db w) ++ new).
  { intros k. unfold set_add. case_decide; [exists []; by rewrite app_nil_r | by eexists]. }
  rewrite insert_doc_run.
  destruct (isValidDoc newDoc false); [|exists []; by rewrite app_nil_r]. cbv zeta.
  destruct (get_id newDoc) as [id|]; [|apply Hadd].
  case_decide; [apply Hadd|].
  case_bool_decide; [exists []; by rewrite app_nil_r | apply Hadd].
Qed.

Lemma insert_grows payload w :
  exists new, db_list (db (Model.insert payload w).2) = db_list (db w) ++ new.
Proof.
  rewrite insert_unfold.
  destruct (insertable payload); [|exists []; by rewrite app_nil_r].
  apply (foldM_keeps (fun w' => exists new, db_list (db w') = db_list (db w) ++ new));
    [|exists []; by rewrite app_nil_r].
  intros acc x w' [new Hnew].
  destruct (insert_doc_grows acc x w') as [new' ->].
  exists (new ++ new'). by rewrite Hnew, app_assoc.
Qed.

Lemma after_list c w :
  uses_files c = false ->
  match c with
  | Insert _ => exists new, db_list (db (after c w)) = db_list (db w) ++ new
  | _ => db_list (db (after c w)) = db_list (db w)
  end.
Proof.
  destruct c as [| |p|i p|i p|q p|q u p|q u p|q|q|]; try done; intros _; simpl.
  - apply insert_grows.
  - by rewrite findOne_world.
  - by rewrite findMany_world.
  - by rewrite find_world.
  - unfold Model.updateById. destruct (isValidUpdate u); [|done].
    apply foldM_list, updateById_id_list.
  - unfold Model.update. destruct (isObject (JObj q)); [|done].
    destruct (isValidUpdate u); [|done].
    apply (foldM_list (update_entry q u p)), update_entry_list.
  - apply foldM_list, deleteById_id_list.
  - rewrite delete_unfold. destruct (isObject (JObj q)); [|done].
    apply foldM_list, delete_entry_list.
Qed.

(** X10. The insertion order is fixed once and for all: a query, an
    update or a delete leaves the sequence of identifiers as it is, and
    [insert] only appends to it, also when it throws.  Only [load],
    [persist] and [drop] take identifiers out of the sequence. *)
Theorem sequence_only_grows (c : call) (w : World) :
  uses_files c = false ->
  (exists new, db_list (db (after c w)) = db_list (db w) ++ new) /\
  ((forall payload, c <> Insert payload) ->
   db_list (db (after c w)) = db_list (db w)).
Proof.
  intros Hc. pose proof (after_list c w Hc) as Hl. split.
  - destruct c; try done; exists []; by rewrite app_nil_r.
  - intros Hne. destruct c as [| |p| | | | | | | |]; try done.
    by destruct (Hne p).
Qed.

(** X11. An identifier of the sequence is never accepted again: after any
    call other than [load], [persist] and [drop], so also after the
    document was deleted, inserting a valid document that carries it
    throws, and the store is left as it is. *)
Theorem known_id_is_rejected (c : call) (payload : OneOrMore Obj)
    (newDoc : Obj) (id : string) (w : World) :
  uses_files c = false ->
  id ∈ db_list (db w) ->
  id <> "" ->
  insertable payload = true ->
  toArray payload = [newDoc] ->
  isValidDoc newDoc false = true ->
  get_id newDoc = Some id ->
  Model.insert payload (after c w) = (Throw (IdExists id), after c w).
Proof.
  intros Hc Hin Hne Hp Harr Hvalid Hid.
  assert (Hstill : id ∈ db_list (db (after c w))).
  { pose proof (after_list c w Hc) as Hl.
    destruct c; try done; try (by rewrite Hl).
    destruct Hl as [new ->]. apply elem_of_app. by left. }
  rewrite insert_unfold, Hp, Harr. cbn [foldM]. unfold bind.
  rewrite insert_doc_run, Hvalid, Hid. cbv zeta.
  by rewrite decide_False, bool_decide_eq_true_2.
Qed.

End Sequence.

(** ** Deleting is final *)

Section Settling.
Context {B : Type}.
Variable settledP : World -> string -> Prop.
Variable plain : string -> Prop.
Variable body : B -> string -> M B.

Hypothesis body_settles : forall acc x w acc' w',
  plain x ->
  body acc x w = (Ok acc', w') ->
  settledP w' x /\ forall k, settledP w k -> settledP w' k.

Lemma settling_loop (l : list string) : forall acc w acc' w',
  (forall k, k ∈ l -> plain k) ->
  foldM body l acc w = (Ok acc', w') ->
  (forall k, k ∈ l -> settledP w' k) /\ (forall k, settledP w k -> settledP w' k).
Proof.
  induction l as [|x l IH]; intros acc w acc' w' Hplain Hrun; simpl in Hrun.
  - injection Hrun as <- <-. split; [by intros k ?%elem_of_nil | done].
  - unfold bind in Hrun. destruct (body acc x w) as [[a1|e] w1] eqn:Hx; [|done].
    destruct (body_settles _ _ _ _ _ (Hplain x ltac:(by left)) Hx) as [Hsx Hkeep].
    destruct (IH _ _ _ _ ltac:(intros; apply Hplain; by right) Hrun)
      as [Hl Hkeep']. split.
    + intros k [-> | Hk]%elem_of_cons; [by apply Hkeep' | by apply Hl].
    + intros k Hk. by apply Hkeep', Hkeep.
Qed.

End Settling.

Section Idling.
Context {B : Type}.
Variable settledP : World -> string -> Prop.
Variable body : B -> string -> M B.

Hypothesis body_idles : forall acc x w, settledP w x -> body acc x w = (Ok acc, w).

Lemma idle_loop (l : list string) acc w :
  (forall k, k ∈ l -> settledP w k) -> foldM body l acc w = (Ok acc, w).
Proof.
  induction l as [|x l IH]; intros Hl; simpl; [done|].
  unfold bind. rewrite body_idles by (apply Hl; by left).
  apply IH. intros k Hk. apply Hl. by right.
Qed.

End Idling.

Section Final.
Context `{H : Helpers}.

Lemma live_match_settled q x w :
  settled q w x -> (live_match q x w).1 = Ok None.
Proof.
  intros (doc & Hx & Hdoc). rewrite live_match_eval, Hx.
  destruct (is_deleted doc); [done|]. by destruct Hdoc as [? | ->].
Qed.

Lemma settled_set_other q x d w k :
  k <> x -> settled q w k -> settled q (set_doc x d w) k.
Proof.
  intros Hne (doc & Hk & Hdoc). exists doc. simpl.
  by rewrite lookup_insert_ne.
Qed.

Lemma delete_entry_settles q acc x w acc' w' :
  True ->
  delete_entry q acc x w = (Ok acc', w') ->
  settled q w' x /\ forall k, settled q w k -> settled q w' k.
Proof.
  intros _. rewrite delete_entry_run, live_match_eval.
  destruct (db_map (db w) !! x) as [doc|] eqn:Hx; [|done].
  destruct (is_deleted doc) eqn:Hdel.
  { intros [= <- <-]. split; [|done]. exists doc. auto. }
  destruct (isQueryMatch doc q) as [[]|] eqn:Hq; [| |done].
  - intros [= <- <-]. split.
    + exists (mark_deleted doc). simpl. rewrite lookup_insert_eq.
      split; [done|]. left. apply is_deleted_mark_deleted.
    + intros k Hk. destruct (decide (k = x)) as [->|Hne];
        [|by apply settled_set_other].
      exists (mark_deleted doc). simpl. rewrite lookup_insert_eq.
      split; [done|]. left. apply is_deleted_mark_deleted.
  - intros [= <- <-]. split; [|done]. exists doc. auto.
Qed.

Lemma deleteById_id_settles acc x w acc' w' :
  x <> "__proto__" ->
  deleteById_id acc x w = (Ok acc', w') ->
  settled_id w' x /\ forall k, settled_id w k -> settled_id w' k.
Proof.
  intros Hplain. rewrite deleteById_id_run. unfold settled_id, live_read.
  destruct (isId x) eqn:Hid; [|done].
  destruct (map_read (db_map (db w)) x) as [v|] eqn:Hx.
  - destruct (flagged v) eqn:Hdel.
    + intros [= <- <-]. by rewrite Hx, Hdel.
    + intros [= <- <-]. simpl.
      assert (Hnew : map_read (<[x := mark_deleted (spread v)]> (db_map (db w))) x
                     = Some (Document (mark_deleted (spread v))))
        by apply map_read_insert_eq.
      rewrite Hnew. cbn [flagged]. rewrite is_deleted_mark_deleted.
      split; [done|]. intros k [Hk Hlive]. split; [done|].
      destruct (decide (k = x)) as [->|Hne].
      * rewrite Hnew. cbn [flagged]. by rewrite is_deleted_mark_deleted.
      * by rewrite map_read_insert_ne.
  - intros [= <- <-]. by rewrite Hx.
Qed.

Lemma delete_entry_idles q acc x w :
  settled q w x -> delete_entry q acc x w = (Ok acc, w).
Proof. intros Hx. by rewrite delete_entry_run, live_match_settled. Qed.

Lemma find_entry_idles q p acc x w :
  settled q w x -> find_entry q p acc x w = (Ok acc, w).
Proof. intros Hx. by rewrite find_entry_run, live_match_settled. Qed.

Lemma update_entry_idles q u p acc x w :
  settled q w x -> update_entry q u p acc x w = (Ok acc, w).
Proof. intros Hx. by rewrite update_entry_run, live_match_settled. Qed.

Lemma deleteById_id_idles acc x w :
  settled_id w x -> deleteById_id acc x w = (Ok acc, w).
Proof.
  intros [Hid Hlive]. rewrite deleteById_id_run, Hid. unfold live_read in Hlive.
  destruct (map_read (db_map (db w)) x) as [v|]; [|done]. by destruct (flagged v).
Qed.

Lemma updateById_id_idles u p acc x w :
  settled_id w x -> updateById_id u p acc x w = (Ok acc, w).
Proof.
  intros [Hid Hlive]. rewrite updateById_id_run, Hid. unfold live_read in Hlive.
  destruct (map_read (db_map (db w)) x) as [v|]; [|done]. by destruct (flagged v).
Qed.

(** X12. Deleting by query is final: once [delete] has returned for a
    query, no live document matches it any more.  A second [delete] by
    the same query returns 0, [find] returns no document and a valid
    [update] updates none, and none of them changes the store. *)
Theorem delete_is_final (q : Obj) (w w' : World) (n : nat) :
  Model.delete q w = (Ok n, w') ->
  Model.delete q w' = (Ok 0, w') /\
  (forall p, Model.find q p w' = (Ok [], w')) /\
  (forall u p, isValidUpdate u = true -> Model.update q u p w' = (Ok [], w')).
Proof.
  rewrite delete_unfold. destruct (isObject (JObj q)) eqn:Hq; [|done]. intros Hrun.
  destruct (settling_loop (settled q) (fun _ => True) (delete_entry q)
              (delete_entry_settles q) _ _ _ _ _ (fun _ _ => Logic.I) Hrun)
    as [Hall _].
  assert (Hlist : db_list (db w') = db_list (db w)).
  { change w' with (Ok n, w').2. rewrite <- Hrun.
    apply foldM_list, delete_entry_list. }
  rewrite <- Hlist in Hall. split_and!.
  - rewrite delete_unfold, Hq.
    by apply (idle_loop (settled q) (delete_entry q) (delete_entry_idles q)).
  - intros p. rewrite find_unfold, Hq.
    by apply (idle_loop (settled q) (find_entry q p) (find_entry_idles q p)).
  - intros u p Hu. unfold Model.update. rewrite Hq, Hu. simpl.
    unfold bind, get_db.
    by apply (idle_loop (settled q) (update_entry q u p) (update_entry_idles q u p)).
Qed.

(** X13. Deleting by identifier is final for identifiers other than
    [__proto__]: once [deleteById] has returned for them, a second
    [deleteById] of the same identifiers returns 0, a valid [updateById]
    of them updates none, [findOne] returns null for each of them, and
    none of these changes the store.  With [__proto__] among them it is
    not: on a new store [deleteById(['$deleted', '__proto__'])] returns 1
    and makes [{ $deleted: true }] the prototype of [this.map], so the
    same call again finds [true] under [$deleted] and returns 1 once
    more. *)
Theorem deleteById_is_final (q : OneOrMore string) (w w' : World) (n : nat) :
  ("__proto__" ∉ toArray q ->
   Model.deleteById q w = (Ok n, w') ->
   Model.deleteById q w' = (Ok 0, w') /\
   (forall u p, isValidUpdate u = true ->
                Model.updateById q u p w' = (Ok [], w')) /\
   (forall k p, k ∈ toArray q -> Model.findOne k p w' = (Ok None, w'))) /\
  (toArray q = ["$deleted"; "__proto__"] ->
   isId "$deleted" = true -> isId "__proto__" = true ->
   db_map (db w) = ∅ ->
   (Model.deleteById q w).1 = Ok 1 /\
   (Model.deleteById q (Model.deleteById q w).2).1 = Ok 1).
Proof.
  split.
  - intros Hplain. unfold Model.deleteById. intros Hrun.
    destruct (settling_loop settled_id (fun k => k <> "__proto__") deleteById_id
                deleteById_id_settles (toArray q) 0 w n w') as [Hall _];
      [by intros k Hk -> | done |].
    split_and!.
    + by apply (idle_loop settled_id deleteById_id deleteById_id_idles).
    + intros u p Hu. rewrite updateById_unfold, Hu.
      by apply (idle_loop settled_id (updateById_id u p) (updateById_id_idles u p)).
    + intros k p Hk. destruct (Hall k Hk) as [Hid Hlive].
      rewrite findOne_run, Hid. unfold live_read in Hlive.
      destruct (map_read (db_map (db w')) k) as [v|]; [|done].
      by destruct (flagged v).
  - intros Hq Hid1 Hid2 Hempty. unfold Model.deleteById. rewrite Hq.
    pose (d := [("$deleted", JBool true)] : Obj).
    assert (R1 : map_read (db_map (db w)) "$deleted" = None)
      by (rewrite Hempty; reflexivity).
    assert (R2 : map_read (db_map (db w)) "__proto__"
                 = Some (NotADocument ObjectPrototype))
      by (rewrite Hempty; reflexivity).
    assert (R3 : map_read (db_map (db (set_doc "__proto__" d w))) "$deleted"
                 = Some (NotADocument (Plain (JBool true))))
      by (simpl; rewrite Hempty; reflexivity).
    assert (R4 : map_read (db_map (db (set_doc "$deleted" d
                                         (set_doc "__proto__" d w))))
                   "__proto__" = Some (Document d))
      by (simpl; rewrite Hempty; reflexivity).
    assert (Hfirst : foldM deleteById_id ["$deleted"; "__proto__"] 0 w
                     = (Ok 1, set_doc "__proto__" d w)).
    { cbn [foldM]. unfold bind.
      rewrite deleteById_id_run, Hid1, R1.
      by rewrite deleteById_id_run, Hid2, R2. }
    rewrite Hfirst. split; [done|]. cbn [snd foldM]. unfold bind.
    rewrite deleteById_id_run, Hid1, R3. cbn [flagged].
    change (mark_deleted (spread (NotADocument (Plain (JBool true))))) with d.
    by rewrite deleteById_id_run, Hid2, R4.
Qed.

End Final.
(** ** Persisting twice *)

Section PersistingTwice.
Context `{H : Helpers}.

(** Under the strict policy a loop of [persist] that runs to its end met
    no failing entry. *)
Lemma persist_loop_strict (l : list string) : forall payload w payload' w',
  db_strict (db w) = true ->
  foldM persist_entry l payload w = (Ok payload', w') ->
  forall k, k ∈ l -> unserializable (db_map (db w)) k = false.
Proof.
  induction l as [|x l IH]; intros payload w payload' w' Hs Hrun k Hk;
    [by apply elem_of_nil in Hk|].
  simpl in Hrun. unfold bind in Hrun.
  destruct (persist_entry_cases payload x w) as [[Hx Hturn] | (_ & _ & _ & Hturn)];
    rewrite Hturn in Hrun; [|by rewrite Hs in Hrun].
  apply elem_of_cons in Hk as [-> | Hk]; [done|]. by apply (IH _ _ _ _ Hs Hrun).
Qed.

(** What a loop of [persist] that runs to its end leaves. *)
Lemma persist_loop_result (l : list string) w payload w' :
  foldM persist_entry l [] w = (Ok payload, w') ->
  payload = omap (serialized (db_map (db w))) l /\
  db_list (db w')
  = filter (fun k => ~ (k ∈ l /\ unserializable (db_map (db w)) k = true))
           (db_list (db w)) /\
  (forall k, db_map (db w') !! k
             = if decide (k ∈ l /\ unserializable (db_map (db w)) k = true /\
                          k <> "__proto__")
               then None else db_map (db w) !! k) /\
  db_file (db w') = db_file (db w) /\ fs w' = fs w.
Proof.
  intros Hrun. destruct (db_strict (db w)) eqn:Hs.
  - pose proof (persist_loop_strict l [] w payload w' Hs Hrun) as Hclean.
    rewrite persist_loop_clean in Hrun by done. injection Hrun as <- <-.
    split_and!; [done | | | done | done].
    + symmetry. apply filter_all. intros k [Hk Hu]. rewrite Hclean in Hu by done. done.
    + intros k. rewrite decide_False; [done|].
      intros (Hk & Hu & _). rewrite Hclean in Hu by done. done.
  - destruct (persist_loop_lenient l [] w Hs)
      as (w'' & Hrun' & Hl & Hm & _ & Hfile & Hfs & _).
    rewrite Hrun in Hrun'. injection Hrun' as -> ->. done.
Qed.

(** X14. When [persist] returns, the index it leaves holds no entry that
    fails to serialize, and the file holds the lines of its live
    documents: persisting again returns, writes the same text and changes
    nothing, under either policy. *)
Theorem persist_twice (w w1 : World) :
  Model.persist w = (Ok tt, w1) ->
  Model.persist w1 = (Ok tt, w1) /\
  (forall k, k ∈ db_list (db w1) -> unserializable (db_map (db w1)) k = false) /\
  exists f, db_file (db w1) = Some f /\
    fs w1 !! f = Some (join LF (omap (serialized (db_map (db w1))) (db_list (db w1)))).
Proof.
  rewrite persist_unfold. destruct (db_file (db w)) as [f|] eqn:Hf; [|done].
  destruct (foldM persist_entry (db_list (db w)) [] w) as [[payload|e] w'] eqn:Hrun;
    [|done].
  intros [= <-].
  destruct (persist_loop_result _ _ _ _ Hrun) as (Hpayload & Hl & Hm & Hfile & Hfs).
  assert (Hl' : db_list (db w')
    = filter (fun k => unserializable (db_map (db w)) k = false) (db_list (db w))).
  { rewrite Hl. apply filter_iff_in. intros k Hk. split.
    - intros Hn. destruct (unserializable (db_map (db w)) k); [|done]. by destruct Hn.
    - intros Hu [_ Hu']. congruence. }
  assert (Hsame : forall k, unserializable (db_map (db w)) k = false ->
                            db_map (db w') !! k = db_map (db w) !! k).
  { intros k Hu. rewrite Hm, decide_False; [done|]. intros (_ & ? & _). congruence. }
  assert (Hclean : forall k, k ∈ db_list (db w') ->
                             unserializable (db_map (db w')) k = false).
  { intros k Hk. rewrite Hl' in Hk. apply list_elem_of_filter in Hk as [Hu _].
    destruct (serialized_lookup _ _ k (Hsame k Hu)) as (_ & -> & _). done. }
  assert (Hlines : payload = omap (serialized (db_map (db w'))) (db_list (db w'))).
  { rewrite Hpayload, Hl'. by apply omap_serialized_filter. }
  split_and!.
  - rewrite persist_unfold. simpl. rewrite Hfile, Hf.
    rewrite persist_loop_clean by done. simpl.
    rewrite <- Hlines. by rewrite insert_insert_eq.
  - done.
  - exists f. simpl. rewrite Hfile, Hf. split; [done|].
    by rewrite lookup_insert_eq, Hlines.
Qed.

End PersistingTwice.

(** ** What an update stores and returns *)

Lemma Forall2_impl_elem {A B} (P Q : A -> B -> Prop) (l : list A) (k : list B) :
  Forall2 P l k -> (forall x y, x ∈ l -> P x y -> Q x y) -> Forall2 Q l k.
Proof.
  induction 1 as [|x y l k Hxy Hlk IH]; intros HPQ; constructor.
  - apply HPQ; [by left | done].
  - apply IH. intros x' y' Hx'. apply HPQ. by right.
Qed.

Section Replacing.
Context `{H : Helpers}.
Variable sel : gmap string Obj -> string -> bool.
Variable ready : gmap string Obj -> string -> Prop.
Variable rel : gmap string Obj -> string -> Obj -> Obj -> Prop.
Variable plain : string -> Prop.
Variable body : list Obj -> string -> M (list Obj).

(** Storing under a plain name changes nothing for the other names. *)
Hypothesis sel_other : forall (m : gmap string Obj) x stored k,
  plain x -> k <> x -> sel (<[x := stored]> m) k = sel m k.

Hypothesis ready_other : forall (m : gmap string Obj) x stored k,
  plain x -> k <> x -> ready m k -> ready (<[x := stored]> m) k.

Hypothesis rel_other : forall (m : gmap string Obj) x stored k s r,
  plain x -> k <> x -> rel (<[x := stored]> m) k s r -> rel m k s r.

(** A turn that does not throw passes, or replaces what was selected
    and pushes the projection of the replacement. *)
Hypothesis body_turn : forall acc x w acc' w',
  body acc x w = (Ok acc', w') ->
  (sel (db_map (db w)) x = false /\ acc' = acc /\ w' = w) \/
  (sel (db_map (db w)) x = true /\
   exists stored r, rel (db_map (db w)) x stored r /\
                    acc' = acc ++ [r] /\ w' = set_doc x stored w).

Hypothesis body_runs : forall acc x w,
  ready (db_map (db w)) x -> exists acc' w', body acc x w = (Ok acc', w').

Lemma replace_loop (l : list string) :
  NoDup l ->
  (forall k, k ∈ l -> plain k) ->
  forall acc w payload w',
    foldM body l acc w = (Ok payload, w') ->
    exists rs, payload = acc ++ rs /\
      Forall2 (fun k r => exists stored,
                 rel (db_map (db w)) k stored r /\
                 db_map (db w') !! k = Some stored)
              (filter (fun k => sel (db_map (db w)) k = true) l) rs /\
      (forall k, k ∉ filter (fun k => sel (db_map (db w)) k = true) l ->
                 db_map (db w') !! k = db_map (db w) !! k).
Proof.
  induction 1 as [|x l Hx Hnd IH]; intros Hplain acc w payload w' Hrun;
    simpl in Hrun.
  - injection Hrun as <- <-. exists []. rewrite app_nil_r. split_and!; [done | | done].
    constructor.
  - assert (Hpx : plain x) by (apply Hplain; by left).
    assert (Hpl : forall k, k ∈ l -> plain k) by (intros; apply Hplain; by right).
    unfold bind in Hrun. destruct (body acc x w) as [[a1|e] w1] eqn:Hturn; [|done].
    destruct (IH Hpl _ _ _ _ Hrun) as (rs & -> & Hrs & Hrest).
    destruct (body_turn _ _ _ _ _ Hturn)
      as [(Hsel & -> & ->) | (Hsel & stored & r & Hup & -> & ->)].
    + rewrite filter_cons_False by (by rewrite Hsel). by exists rs.
    + rewrite filter_cons_True by done.
      assert (Hother : forall k, k <> x ->
        db_map (db (set_doc x stored w)) !! k = db_map (db w) !! k).
      { intros k Hne. simpl. by rewrite lookup_insert_ne. }
      assert (Hfilter :
        filter (fun k => sel (db_map (db (set_doc x stored w))) k = true) l
        = filter (fun k => sel (db_map (db w)) k = true) l).
      { apply filter_iff_in. intros k Hk. simpl.
        rewrite sel_other; [done | done | by intros ->]. }
      rewrite Hfilter in Hrs, Hrest.
      assert (Hxl : x ∉ filter (fun k => sel (db_map (db w)) k = true) l).
      { intros [_ ?]%list_elem_of_filter. done. }
      exists (r :: rs). rewrite <- app_assoc. split_and!; [done | |].
      * constructor.
        -- exists stored. split; [done|]. rewrite Hrest by done.
           simpl. by rewrite lookup_insert_eq.
        -- apply (Forall2_impl_elem _ _ _ _ Hrs).
           intros k r' [_ Hk]%list_elem_of_filter (stored' & Hup' & Hk').
           exists stored'. split; [|done].
           apply (rel_other _ x stored); [done | by intros -> | done].
      * intros k [Hne Hk]%not_elem_of_cons. rewrite Hrest by done. by apply Hother.
Qed.

Lemma replace_loop_runs (l : list string) :
  NoDup l ->
  (forall k, k ∈ l -> plain k) ->
  forall acc w,
    (forall k, k ∈ l -> ready (db_map (db w)) k) ->
    exists payload w', foldM body l acc w = (Ok payload, w').
Proof.
  induction 1 as [|x l Hx Hnd IH]; intros Hplain acc w Hl; simpl;
    [by eexists _, _|].
  assert (Hpx : plain x) by (apply Hplain; by left).
  assert (Hpl : forall k, k ∈ l -> plain k) by (intros; apply Hplain; by right).
  unfold bind. destruct (body_runs acc x w) as (a1 & w1 & Hturn); [apply Hl; by left|].
  rewrite Hturn. apply IH; [done|]. intros k Hk.
  destruct (body_turn _ _ _ _ _ Hturn)
    as [(_ & _ & ->) | (_ & stored & r & _ & _ & ->)]; [apply Hl; by right|].
  simpl. apply ready_other; [done | by intros -> | apply Hl; by right].
Qed.

End Replacing.

Section Updating.
Context `{H : Helpers}.

Lemma selected_other q (m : gmap string Obj) x stored k :
  True -> k <> x -> selected q (<[x := stored]> m) k = selected q m k.
Proof. intros _ Hne. unfold selected. by rewrite lookup_insert_ne. Qed.

Lemma updated_other u p (m : gmap string Obj) x stored k s r :
  True -> k <> x -> updated u p (<[x := stored]> m) k s r -> updated u p m k s r.
Proof.
  intros _ Hne (doc & newDoc & Hdoc & Hrest). exists doc, newDoc.
  by rewrite lookup_insert_ne in Hdoc.
Qed.

Lemma update_ready_other q u p (m : gmap string Obj) x stored k :
  True -> k <> x -> update_ready q u p m k ->
  update_ready q u p (<[x := stored]> m) k.
Proof. intros _ Hne. unfold update_ready. by rewrite lookup_insert_ne. Qed.

Lemma live_read_other (m : gmap string Obj) x stored k :
  x <> "__proto__" -> k <> x -> live_read (<[x := stored]> m) k = live_read m k.
Proof. intros Hp Hne. unfold live_read. by rewrite map_read_insert_ne. Qed.

Lemma updated_value_other u p (m : gmap string Obj) x stored k s r :
  x <> "__proto__" -> k <> x ->
  updated_value u p (<[x := stored]> m) k s r -> updated_value u p m k s r.
Proof.
  intros Hp Hne (v & newDoc & Hv & Hrest). exists v, newDoc.
  by rewrite map_read_insert_ne in Hv.
Qed.

Lemma updateById_ready_other u p (m : gmap string Obj) x stored k :
  x <> "__proto__" -> k <> x -> updateById_ready u p m k ->
  updateById_ready u p (<[x := stored]> m) k.
Proof. intros Hp Hne. unfold updateById_ready. by rewrite map_read_insert_ne. Qed.

Lemma apply_update_turn u p acc x doc w acc' w' :
  db_map (db w) !! x = Some doc ->
  apply_update u p acc x doc w = (Ok acc', w') ->
  exists stored r, updated u p (db_map (db w)) x stored r /\
                   acc' = acc ++ [r] /\ w' = set_doc x stored w.
Proof.
  intros Hx. rewrite apply_update_run.
  destruct (newDoc_of doc u) as [newDoc|] eqn:Hnew; [|done].
  destruct (project (with_id newDoc x) p) as [r|] eqn:Hr; [|done].
  intros [= <- <-]. exists (with_id newDoc x), r. split; [|done].
  by exists doc, newDoc.
Qed.

Lemma update_entry_turn q u p acc x w acc' w' :
  update_entry q u p acc x w = (Ok acc', w') ->
  (selected q (db_map (db w)) x = false /\ acc' = acc /\ w' = w) \/
  (selected q (db_map (db w)) x = true /\
   exists stored r, updated u p (db_map (db w)) x stored r /\
                    acc' = acc ++ [r] /\ w' = set_doc x stored w).
Proof.
  rewrite update_entry_run, live_match_eval. unfold selected.
  destruct (db_map (db w) !! x) as [doc|] eqn:Hx; [|done].
  destruct (is_deleted doc) eqn:Hdel; [intros [= <- <-]; by left|].
  destruct (isQueryMatch doc q) as [[]|]; [| intros [= <- <-]; by left | done].
  intros Hrun. right. split; [done|]. by apply (apply_update_turn u p acc x doc).
Qed.

Lemma updateById_id_turn u p acc x w acc' w' :
  updateById_id u p acc x w = (Ok acc', w') ->
  (live_read (db_map (db w)) x = false /\ acc' = acc /\ w' = w) \/
  (live_read (db_map (db w)) x = true /\
   exists stored r, updated_value u p (db_map (db w)) x stored r /\
                    acc' = acc ++ [r] /\ w' = set_doc x stored w).
Proof.
  rewrite updateById_id_run. unfold live_read.
  destruct (isId x); [|done].
  destruct (map_read (db_map (db w)) x) as [v|] eqn:Hx; [|intros [= <- <-]; by left].
  destruct (flagged v) eqn:Hdel; [intros [= <- <-]; by left|].
  rewrite store_update_run.
  destruct (newDoc_of_value v u) as [newDoc|] eqn:Hnew; [|done].
  destruct (project (with_id newDoc x) p) as [r|] eqn:Hr; [|done].
  intros [= <- <-]. right. split; [done|].
  exists (with_id newDoc x), r. split; [|done]. by exists v, newDoc.
Qed.

Lemma update_entry_runs q u p acc x w :
  update_ready q u p (db_map (db w)) x ->
  exists acc' w', update_entry q u p acc x w = (Ok acc', w').
Proof.
  intros (doc & Hx & Hdoc). rewrite update_entry_run, live_match_eval, Hx.
  destruct (is_deleted doc) eqn:Hdel; [by eexists _, _|].
  destruct Hdoc as [? | [-> | [-> (newDoc & r & Hnew & Hr)]]];
    [done | by eexists _, _ |].
  rewrite apply_update_run, Hnew, Hr. by eexists _, _.
Qed.

Lemma updateById_id_runs u p acc x w :
  updateById_ready u p (db_map (db w)) x ->
  exists acc' w', updateById_id u p acc x w = (Ok acc', w').
Proof.
  intros [Hid Hdoc]. rewrite updateById_id_run, Hid.
  destruct (map_read (db_map (db w)) x) as [v|] eqn:Hx; [|by eexists _, _].
  destruct (flagged v) eqn:Hdel; [by eexists _, _|].
  destruct (Hdoc v eq_refl Hdel) as (newDoc & r & Hnew & Hr).
  rewrite store_update_run, Hnew, Hr. by eexists _, _.
Qed.


(** X15. On a store whose sequence lists each identifier once, when
    [update] returns, each live document that matched the query was
    replaced by the new document with the identifier it is stored under
    set, the projections of the replacements are returned in insertion
    order, and every other document and the insertion order are as
    before.  It returns whenever query and update are valid and, on each
    live match, building the new document and projecting it do not throw. *)
Theorem update_replaces_matches (q u : Obj) (p : option (list string)) (w : World) :
  NoDup (db_list (db w)) ->
  (forall payload w',
     Model.update q u p w = (Ok payload, w') ->
     Forall2 (fun k r => exists stored,
                updated u p (db_map (db w)) k stored r /\
                db_map (db w') !! k = Some stored)
             (filter (fun k => selected q (db_map (db w)) k = true) (db_list (db w)))
             payload /\
     (forall k, k ∉ filter (fun k => selected q (db_map (db w)) k = true)
                           (db_list (db w)) ->
                db_map (db w') !! k = db_map (db w) !! k) /\
     db_list (db w') = db_list (db w)) /\
  (isObject (JObj q) = true ->
   isValidUpdate u = true ->
   (forall k, k ∈ db_list (db w) -> update_ready q u p (db_map (db w)) k) ->
   exists payload w', Model.update q u p w = (Ok payload, w')).
Proof.
  intros Hnd.
  assert (Hunfold : isObject (JObj q) = true -> isValidUpdate u = true ->
    Model.update q u p w = foldM (update_entry q u p) (db_list (db w)) [] w).
  { intros Hq Hu. unfold Model.update. by rewrite Hq, Hu. }
  split.
  - intros payload w' Hrun.
    destruct (isObject (JObj q)) eqn:Hq;
      [|unfold Model.update in Hrun; by rewrite Hq in Hrun].
    destruct (isValidUpdate u) eqn:Hu;
      [|unfold Model.update in Hrun; by rewrite Hq, Hu in Hrun].
    rewrite Hunfold in Hrun by done.
    destruct (replace_loop (selected q) (updated u p) (fun _ => True)
                (update_entry q u p) (selected_other q) (updated_other u p)
                (update_entry_turn q u p)
                _ Hnd (fun _ _ => Logic.I) _ _ _ _ Hrun)
      as (rs & -> & Hrs & Hrest).
    split_and!; [done | done |].
    change w' with (Ok ([] ++ rs), w').2. rewrite <- Hrun.
    apply foldM_list, update_entry_list.
  - intros Hq Hu Hready. rewrite Hunfold by done.
    by apply (replace_loop_runs (selected q) (update_ready q u p)
                (updated u p) (fun _ => True) (update_entry q u p)
                (update_ready_other q u p)
                (update_entry_turn q u p) (update_entry_runs q u p)).
Qed.

(** X16. When [updateById] returns for identifiers that are pairwise
    different and other than [__proto__], each of them under which
    [this.map] holds something truthy without tombstone, its live document
    or else what the object inherits under that name, got the new document
    with the identifier set as its entry; the projections of these are
    returned in the order of the identifiers, and every other entry and
    the insertion order are as before; the other identifiers are skipped.
    For an identifier with an entry this is the update of its live
    document.  It returns whenever the update and the identifiers are
    valid and building and projecting do not throw. *)
Theorem updateById_replaces_live (q : OneOrMore string) (u : Obj)
    (p : option (list string)) (w : World) :
  NoDup (toArray q) ->
  "__proto__" ∉ toArray q ->
  (forall payload w',
     Model.updateById q u p w = (Ok payload, w') ->
     Forall2 (fun k r => exists stored,
                updated_value u p (db_map (db w)) k stored r /\
                db_map (db w') !! k = Some stored)
             (filter (fun k => live_read (db_map (db w)) k = true) (toArray q))
             payload /\
     (forall k, k ∉ filter (fun k => live_read (db_map (db w)) k = true)
                           (toArray q) ->
                db_map (db w') !! k = db_map (db w) !! k) /\
     db_list (db w') = db_list (db w)) /\
  (isValidUpdate u = true ->
   (forall k, k ∈ toArray q -> updateById_ready u p (db_map (db w)) k) ->
   exists payload w', Model.updateById q u p w = (Ok payload, w')) /\
  (forall k doc stored r,
     db_map (db w) !! k = Some doc ->
     live_read (db_map (db w)) k = negb (is_deleted doc) /\
     (updated_value u p (db_map (db w)) k stored r <->
      updated u p (db_map (db w)) k stored r)).
Proof.
  intros Hnd Hplain.
  assert (Hplain' : forall k, k ∈ toArray q -> k <> "__proto__")
    by (by intros k Hk ->).
  assert (Hunfold : isValidUpdate u = true ->
    Model.updateById q u p w = foldM (updateById_id u p) (toArray q) [] w).
  { intros Hu. unfold Model.updateById. by rewrite Hu. }
  split_and!.
  - intros payload w' Hrun.
    destruct (isValidUpdate u) eqn:Hu;
      [|unfold Model.updateById in Hrun; by rewrite Hu in Hrun].
    rewrite Hunfold in Hrun by done.
    destruct (replace_loop live_read (updated_value u p)
                (fun k => k <> "__proto__") (updateById_id u p)
                live_read_other (updated_value_other u p)
                (updateById_id_turn u p)
                _ Hnd Hplain' _ _ _ _ Hrun) as (rs & -> & Hrs & Hrest).
    split_and!; [done | done |].
    change w' with (Ok ([] ++ rs), w').2. rewrite <- Hrun.
    apply foldM_list, updateById_id_list.
  - intros Hu Hready. rewrite Hunfold by done.
    by apply (replace_loop_runs live_read (updateById_ready u p)
                (updated_value u p) (fun k => k <> "__proto__")
                (updateById_id u p) (updateById_ready_other u p)
                (updateById_id_turn u p) (updateById_id_runs u p)).
  - intros k doc stored r Hk. split; [by apply live_read_stored|].
    unfold updated_value, updated. rewrite (map_read_stored _ k doc Hk). split.
    + intros (v & newDoc & [= <-] & Hrest). by exists doc, newDoc.
    + intros (d & newDoc & Hd & Hrest). exists (Document d), newDoc.
      split; [congruence | done].
Qed.

End Updating.
(** ** Constructing a store *)

Section Constructing.
Context `{H : Helpers}.
Variable mkdirSync : string -> M unit.
Variable path_resolve : string -> string -> string.

Lemma constructor_unfold options w :
  constructor mkdirSync path_resolve options w =
  let w0 := mkWorld (new_LeafDB (Options.strict options) None) (fs w) (uid w) in
  match Options.root options with
  | Some root =>
      if decide (root = "") then (Ok tt, w0)
      else
        match mkdirSync root w0 with
        | (Ok _, w1) =>
            let w2 :=
              mkWorld (mkDB (db_strict (db w1))
                            (Some (path_resolve root (file_name options)))
                            (db_map (db w1)) (db_list (db w1)))
                      (fs w1) (uid w1) in
            if Options.disableAutoload options then (Ok tt, w2)
            else match Model.load w2 with
                 | (Ok _, w3) => (Ok tt, w3)
                 | (Throw e, w3) => (Throw e, w3)
                 end
        | (Throw e, w1) => (Throw e, w1)
        end
  | None => (Ok tt, w0)
  end.
Proof.
  unfold constructor, bind, put_db, set_file, get_db, ret; simpl.
  destruct (Options.root options) as [root|]; [|done].
  case_decide; [done|].
  destruct (mkdirSync root _) as [[[]|e] w1]; [|done]. simpl.
  destruct (Options.disableAutoload options); [done|].
  by destruct (Model.load _) as [[c|e] w3].
Qed.

(** X17. A store constructed without a root directory, or with the empty
    string as root, is in memory mode whatever the other options say: no
    directory is made, no file is read or written, the index is empty,
    and [load] and [persist] throw and change nothing. *)
Theorem constructor_memory_mode (options : Options.t) (w : World) :
  Options.root options = None \/ Options.root options = Some "" ->
  constructor mkdirSync path_resolve options w
  = (Ok tt, mkWorld (new_LeafDB (Options.strict options) None) (fs w) (uid w)) /\
  Model.load (constructor mkdirSync path_resolve options w).2
  = (Throw LoadInMemoryMode, (constructor mkdirSync path_resolve options w).2) /\
  Model.persist (constructor mkdirSync path_resolve options w).2
  = (Throw PersistInMemoryMode, (constructor mkdirSync path_resolve options w).2).
Proof.
  intros Hroot.
  assert (Hnew : constructor mkdirSync path_resolve options w
    = (Ok tt, mkWorld (new_LeafDB (Options.strict options) None) (fs w) (uid w))).
  { rewrite constructor_unfold. by destruct Hroot as [-> | ->]. }
  rewrite Hnew. split; [done|]. split.
  - by rewrite load_unfold.
  - by rewrite persist_unfold.
Qed.

(** X18. Whatever the options, the store the constructor leaves, also when
    it throws, is in a state the invariants of a running store speak of,
    provided making the directory leaves the instance alone. *)
Theorem constructed_is_reachable (options : Options.t) (w : World) :
  (forall root w1, db (mkdirSync root w1).2 = db w1) ->
  reachable (constructor mkdirSync path_resolve options w).2.
Proof.
  intros Hmk. rewrite constructor_unfold. cbv zeta.
  destruct (Options.root options) as [root|]; [|apply reach_new].
  case_decide; [apply reach_new|].
  pose proof (Hmk root (mkWorld (new_LeafDB (Options.strict options) None)
                                (fs w) (uid w))) as Hdb.
  destruct (mkdirSync root _) as [[[]|e] [d1 fs1 uid1]]; simpl in Hdb; subst d1;
    [|apply reach_new].
  simpl.
  assert (Hfile : reachable
    (mkWorld (mkDB (Options.strict options)
                   (Some (path_resolve root (file_name options))) ∅ [])
             fs1 uid1)) by apply reach_new.
  destruct (Options.disableAutoload options); [done|].
  pose proof (reach_call Load _ Hfile) as Hload. simpl in Hload.
  by destruct (Model.load _) as [[c|e] w3].
Qed.

(** Loading the text that [persist] writes for the index [m], [l]: the
    live documents, in the order of [l]. *)
Lemma load_persisted_text (m : gmap string Obj) (l : list string) (w0 : World)
    (f : string) :
  NoDup l ->
  (forall k, k ∈ l <-> is_Some (m !! k)) ->
  (forall k doc, m !! k = Some doc -> get_id doc = Some k) ->
  (forall k doc, m !! k = Some doc -> is_deleted doc = false -> roundtrips doc) ->
  db_file (db w0) = Some f ->
  fs w0 !! f = Some (join LF (omap (serialized m) l)) ->
  Model.load w0
  = (Ok [],
     mkWorld (mkDB (db_strict (db w0)) (Some f)
                   (filter (fun kv => is_deleted kv.2 = false) m)
                   (filter (fun k => live_at m k = true) l))
             (fs w0) (uid w0)).
Proof.
  intros Hnd Hbij Hids Hrt Hf Hfs.
  rewrite load_unfold, Hf, Hfs.
  destruct (persisted_lines m l (fun k doc _ => Hrt k doc)) as (Hlf & Hok & Hdocs).
  rewrite load_text_lines, Hdocs by done. f_equal.
  destruct (restore_live m l (flushed w0)) as [Hl Hm].
  { done. }
  { intros k doc _ Hd _. apply id_key_get_id. by apply Hids. }
  apply World_eq; simpl.
  - apply LeafDB_eq; simpl.
    + by rewrite restore_strict.
    + by rewrite restore_file.
    + apply map_eq. intros k. rewrite Hm. simpl.
      rewrite lookup_empty. unfold live_at.
      destruct (m !! k) as [doc|] eqn:Hd.
      * destruct (is_deleted doc) eqn:Hdel; simpl.
        -- rewrite decide_False by (by intros [_ ?]).
           symmetry. apply map_lookup_filter_None. right. intros d' Hd'. simpl. congruence.
        -- rewrite decide_True.
           ++ symmetry. by apply map_lookup_filter_Some.
           ++ split; [|done]. apply Hbij. by rewrite Hd.
      * rewrite decide_False by (by intros [_ ?]).
        symmetry. apply map_lookup_filter_None. by left.
    + by rewrite Hl.
  - pose proof (foldM_config load_line (split LF (join LF (omap (serialized m) l)))
                  [] (flushed w0) load_line_config) as Hc.
    rewrite load_text_lines, Hdocs in Hc by done. unfold config_of in Hc. simpl in Hc.
    congruence.
  - pose proof (foldM_keeps (fun w' => flushed w' = flushed w0) load_line
                  (split LF (join LF (omap (serialized m) l)))
                  (fun acc x w' Hw' => eq_trans (load_line_flushed acc x w') Hw')
                  [] (flushed w0) eq_refl) as Hc.
    rewrite load_text_lines, Hdocs in Hc by done. simpl in Hc.
    unfold flushed in Hc. by injection Hc.
Qed.

(** X19. What one store persisted, a store constructed on the same file
    restores: after [persist] returned for a store whose live documents
    serialize to one line each and parse back valid, constructing a store
    whose root and name resolve to that file, with autoload, returns and
    yields the live documents in their insertion order, without the
    tombstoned ones, under the policy of the new store; the file is left
    as it is. *)
Theorem constructor_restores_persisted (options : Options.t) (root f : string)
    (w w0 : World) :
  db_file (db w) = Some f ->
  bijection (db w) ->
  ids_consistent (db w) ->
  (forall k doc, db_map (db w) !! k = Some doc -> is_deleted doc = false ->
                 roundtrips doc) ->
  Options.root options = Some root ->
  root <> "" ->
  Options.disableAutoload options = false ->
  path_resolve root (file_name options) = f ->
  (forall w1, mkdirSync root w1 = (Ok tt, w1)) ->
  fs w0 = fs (Model.persist w).2 ->
  constructor mkdirSync path_resolve options w0
  = (Ok tt,
     mkWorld (mkDB (Options.strict options) (Some f)
                   (db_map (purge (db w))) (db_list (purge (db w))))
             (fs w0) (uid w0)).
Proof.
  intros Hf [Hnd Hbij] Hids Hrt Hroot Hne Hauto Hpath Hmk Hfs.
  assert (Hclean : forall k, k ∈ db_list (db w) ->
                             unserializable (db_map (db w)) k = false).
  { intros k [doc Hd]%Hbij. unfold unserializable. rewrite Hd.
    destruct (is_deleted doc) eqn:Hdel; [done|].
    by destruct (Hrt k doc Hd Hdel) as (line & -> & _). }
  assert (Htext : fs w0 !! f
    = Some (join LF (omap (serialized (db_map (db w))) (db_list (db w))))).
  { rewrite Hfs, persist_unfold, Hf, persist_loop_clean by done. simpl.
    by rewrite lookup_insert_eq. }
  rewrite constructor_unfold, Hroot. cbv zeta.
  rewrite decide_False by done. rewrite Hmk, Hauto, Hpath. simpl.
  rewrite (load_persisted_text (db_map (db w)) (db_list (db w)) _ f); done.
Qed.

End Constructing.


(** ** What holds of every running store *)

Section Invariants.
Context `{H : Helpers}.

(** X22. In every reachable state the sequence names no identifier twice
    and each identifier it names has its entry in the mapping, so the
    loops over the sequence never read a missing entry; a mapping key may
    be missing from the sequence.  [insert] on a payload with shared
    objects keeps this too. *)
Theorem reachable_members_stored (w : World) :
  (reachable w -> members_stored (db w)) /\
  (forall payload shared,
     members_stored (db w) ->
     members_stored (db (Model.insert_shared payload shared w).2)).
Proof.
  split; [apply reachable_members|].
  intros payload shared. apply insert_shared_members_stored.
Qed.

(** X20. When the shape validation of [load] demands a string
    identifier, in every reachable state each document that the sequence
    names, and each document without tombstone, is stored under its own
    identifier.  A tombstone that [deleteById] made from an inherited
    member carries none. *)
Theorem reachable_ids_carried (w : World) :
  (forall d, isValidDoc d true = true -> is_Some (get_id d)) ->
  (reachable w -> ids_carried (db w)) /\
  (forall payload shared,
     members_stored (db w) -> ids_carried (db w) ->
     ids_carried (db (Model.insert_shared payload shared w).2)).
Proof.
  intros Hvalid. split.
  - intros Hw. by destruct (reachable_sound Hvalid w Hw).
  - intros payload shared Hm Hc.
    by destruct (insert_shared_sound payload shared w (conj Hm Hc)).
Qed.

(** X21. For a store with a backing file in which the sequence has no
    duplicates, each of its members has its entry, and each live one is
    stored under its own identifier and serializes to one line that
    parses back valid, [persist()] followed by [load()] returns without
    corrupted lines, keeps policy and file, and yields the live members
    of the sequence in their order with their documents.  When sequence
    and mapping are in bijection this is the index before [persist] less
    its tombstoned documents. *)
Theorem persist_load_roundtrip (w : World) (f : string) :
  db_file (db w) = Some f ->
  persistable w ->
  (Model.persist w).1 = Ok tt /\
  (Model.load (Model.persist w).2).1 = Ok [] /\
  db_strict (db (Model.load (Model.persist w).2).2) = db_strict (db w) /\
  db_file (db (Model.load (Model.persist w).2).2) = db_file (db w) /\
  db_list (db (Model.load (Model.persist w).2).2)
  = filter (fun k => live_at (db_map (db w)) k = true) (db_list (db w)) /\
  (forall k, db_map (db (Model.load (Model.persist w).2).2) !! k
             = if decide (k ∈ db_list (db w) /\ live_at (db_map (db w)) k = true)
               then db_map (db w) !! k else None) /\
  (bijection (db w) ->
   db (Model.load (Model.persist w).2).2 = purge (db w)).
Proof.
  intros Hf Hw.
  destruct (persist_load_run w f Hf Hw) as (Hp & Hl & Hs & Hfile & Hlist & Hm).
  split_and!; try done.
  intros [_ Hbij]. apply LeafDB_eq; [done | done | | done].
  apply map_eq. intros k. rewrite Hm. unfold purge; simpl. unfold live_at.
  destruct (db_map (db w) !! k) as [doc|] eqn:Hd.
  - destruct (is_deleted doc) eqn:Hdel; simpl.
    + rewrite decide_False by (by intros [_ ?]).
      symmetry. apply map_lookup_filter_None. right. intros d' Hd'. simpl. congruence.
    + rewrite decide_True.
      * symmetry. by apply map_lookup_filter_Some.
      * split; [|done]. apply Hbij. by rewrite Hd.
  - rewrite decide_False by (by intros [_ ?]).
    symmetry. apply map_lookup_filter_None. by left.
Qed.

End Invariants.
(** ** The further properties on concrete stores *)

Section Scenarios.
Import Example.
Local Existing Instance Reference.helpers.

Lemma reference_valid_has_id (d : Obj) :
  isValidDoc d true = true -> is_Some (get_id d).
Proof.
  simpl. unfold Reference.isValidDoc, get_id.
  intros [_ Hid]%andb_true_iff.
  destruct (obj_get "_id" d) as [[]|]; done.
Qed.

Lemma calls_keep_configuration_witness :
  same_store (fresh false) (after (Insert (One doc1)) (fresh false)) /\
  fs (after (Insert (One doc1)) (fresh false)) = fs (fresh false).
Proof.
  destruct (calls_keep_configuration (Insert (One doc1)) (fresh false)) as [Hs Hfs].
  split; [exact Hs | apply Hfs; left; reflexivity].
Defined.

Lemma find_returns_matches_witness :
  Forall2 (fun k r => exists doc, db_map (db three) !! k = Some doc /\
                                  project doc None = Ok r)
          (filter (fun k => selected [("type", JStr "normal")] (db_map (db three)) k
                            = true)
                  (db_list (db three)))
          [doc1; doc2] /\
  exists payload, Model.find [("type", JStr "normal")] None three = (Ok payload, three).
Proof.
  destruct (find_returns_matches [("type", JStr "normal")] None three)
    as [Hret Hruns].
  split.
  - apply (Hret [doc1; doc2] three). vm_compute. reflexivity.
  - apply Hruns; [reflexivity|].
    intros k Hk. simpl in Hk.
    apply elem_of_cons in Hk as [-> | Hk]; [|apply elem_of_cons in Hk as [-> | Hk];
      [|apply elem_of_cons in Hk as [-> | Hk]; [|by apply elem_of_nil in Hk]]].
    + exists doc1. split; [vm_compute; reflexivity|].
      right; right. split; [vm_compute; reflexivity|]. by eexists.
    + exists doc2. split; [vm_compute; reflexivity|].
      right; right. split; [vm_compute; reflexivity|]. by eexists.
    + exists doc3. split; [vm_compute; reflexivity|].
      right; left. vm_compute; reflexivity.
Defined.

(** [findMany] on identifiers with a live document, with a tombstoned
    one, with none, and on the name of an inherited member. *)
Lemma findMany_returns_live_witness :
  Model.findMany (One "3") None two_left = (Throw (InvalidIds "3"), two_left) /\
  Forall2 (fun k r => exists v, map_read (db_map (db two_left)) k = Some v /\
                                project_value v None = Ok r)
          (filter (fun k => live_read (db_map (db two_left)) k = true)
                  (toArray (More ["3"; "9"; "2"; "toString"; "1"; "3"])))
          [doc3; []; doc1; doc3] /\
  exists payload,
    Model.findMany (More ["3"; "9"; "2"; "toString"; "1"; "3"]) None two_left
    = (Ok payload, two_left).
Proof.
  destruct (findMany_returns_live ["3"; "9"; "2"; "toString"; "1"; "3"] None
              two_left) as (Hguard & Hret & Hruns & _).
  split; [apply Hguard|]. split.
  - apply (Hret [doc3; []; doc1; doc3] two_left). vm_compute. reflexivity.
  - apply Hruns.
    + repeat constructor.
    + intros k v _ _ _. destruct v as [doc|v]; by eexists.
Defined.

Lemma drop_empties_store_witness :
  Model.find [] None (Model.drop three).2 = (Ok [], (Model.drop three).2) /\
  Model.load (Model.drop three).2 = (Ok [], (Model.drop three).2).
Proof.
  destruct (drop_empties_store three) as (_ & Hfind & Hload).
  split; [apply Hfind; reflexivity | apply (Hload path); reflexivity].
Defined.

Lemma load_creates_missing_file_witness :
  Model.load three = (Ok [], mkWorld (db three) (<[path := ""]> (fs three)) (uid three)) /\
  Model.load (Model.load three).2
  = (Ok [],
     mkWorld (new_LeafDB (db_strict (db three)) (Some path))
             (<[path := ""]> (fs three)) (uid three)).
Proof.
  apply (load_creates_missing_file three path); [reflexivity|].
  vm_compute. reflexivity.
Defined.

Lemma load_replaces_memory_witness :
  Model.load (Model.load (half_corrupt false)).2 = Model.load (half_corrupt false).
Proof.
  destruct (load_replaces_memory (half_corrupt false) path
              (line1 +:+ String LF garbage)) as [_ Hagain].
  - reflexivity.
  - vm_compute. reflexivity.
  - exact Hagain.
Defined.

(** [insert([doc1, d])] and [insert([d, d])] on a new store, for a [d]
    without identifier. *)
Lemma insert_stores_in_order_witness :
  (Model.insert_shared (More [doc1; [("type", JStr "normal")]]) [0; 1]
                       (fresh false)).1
  = Ok [doc1; with_id [("type", JStr "normal")] (generateUid 0)] /\
  db (Model.insert_shared (More [doc1; [("type", JStr "normal")]]) [0; 1]
                          (fresh false)).2
  = db (restore [doc1; with_id [("type", JStr "normal")] (generateUid 0)]
                (fresh false)) /\
  Model.insert_shared (More [[("type", JStr "normal")]; [("type", JStr "normal")]])
                      [0; 0] (fresh false)
  = (Throw (IdExists (generateUid 0)),
     put_doc (generateUid 0) (with_id [("type", JStr "normal")] (generateUid 0))
             (next_uid (fresh false))).
Proof.
  destruct (insert_stores_in_order (More [doc1; [("type", JStr "normal")]]) [0; 1]
              (fresh false)) as [Hdistinct _].
  destruct Hdistinct as (Hret & Hruns & _).
  { intros [|[|i]] j Hj; simpl in Hj; by inversion Hj. }
  split; [|split].
  - apply Hruns.
    + reflexivity.
    + repeat constructor.
    + intros pre newDoc post Harr Hlacks. simpl in Harr.
      destruct pre as [|a [|b pre]]; simpl in Harr.
      * injection Harr as <- <-. split; [by intros ?%elem_of_nil|].
        by intros d ?%elem_of_nil.
      * injection Harr as <- <- <-. vm_compute in Hlacks. discriminate.
      * injection Harr as _ _ Harr. by destruct pre.
  - destruct (Hret [doc1; with_id [("type", JStr "normal")] (generateUid 0)]
                   (Model.insert_shared (More [doc1; [("type", JStr "normal")]])
                                        [0; 1] (fresh false)).2)
      as (_ & _ & _ & Hdb & _); [|exact Hdb].
    vm_compute. reflexivity.
  - destruct (insert_stores_in_order
                (More [[("type", JStr "normal")]; [("type", JStr "normal")]])
                [0; 0] (fresh false)) as [_ Hshared].
    apply (Hshared [("type", JStr "normal")] []); try reflexivity.
    vm_compute. discriminate.
Defined.

Lemma insert_then_findOne_witness :
  Model.findOne "1" None (put_doc "1" doc1 (fresh false))
  = (Ok (Some doc1), put_doc "1" doc1 (fresh false)).
Proof.
  apply (insert_then_findOne (One doc1) (fresh false) (put_doc "1" doc1 (fresh false))
           [] [] doc1 doc1 None).
  - vm_compute. reflexivity.
  - by intros d ?%elem_of_nil.
  - reflexivity.
  - reflexivity.
  - reflexivity.
Defined.

Lemma sequence_only_grows_witness :
  db_list (db (after (Delete []) three)) = db_list (db three).
Proof.
  destruct (sequence_only_grows (Delete []) three) as [_ Hsame]; [reflexivity|].
  apply Hsame. discriminate.
Defined.

Lemma known_id_is_rejected_witness :
  Model.insert (One doc2) (after (Delete [("_id", JStr "2")]) three)
  = (Throw (IdExists "2"), after (Delete [("_id", JStr "2")]) three).
Proof.
  apply (known_id_is_rejected (Delete [("_id", JStr "2")]) (One doc2) doc2 "2" three).
  - reflexivity.
  - apply (bool_decide_unpack _). vm_compute. reflexivity.
  - discriminate.
  - reflexivity.
  - reflexivity.
  - vm_compute. reflexivity.
  - reflexivity.
Defined.

Lemma delete_is_final_witness :
  Model.delete [("type", JStr "normal")] (Model.delete [("type", JStr "normal")] three).2
  = (Ok 0, (Model.delete [("type", JStr "normal")] three).2) /\
  Model.find [("type", JStr "normal")] None
             (Model.delete [("type", JStr "normal")] three).2
  = (Ok [], (Model.delete [("type", JStr "normal")] three).2).
Proof.
  destruct (delete_is_final [("type", JStr "normal")] three
              (Model.delete [("type", JStr "normal")] three).2 2)
    as (Hagain & Hfind & _).
  - vm_compute. reflexivity.
  - split; [exact Hagain | apply Hfind].
Defined.

Lemma deleteById_is_final_witness :
  (Model.deleteById (More ["1"; "2"]) (Model.deleteById (More ["1"; "2"]) three).2
   = (Ok 0, (Model.deleteById (More ["1"; "2"]) three).2) /\
   Model.findOne "1" None (Model.deleteById (More ["1"; "2"]) three).2
   = (Ok None, (Model.deleteById (More ["1"; "2"]) three).2)) /\
  ((Model.deleteById (More ["$deleted"; "__proto__"]) (fresh false)).1 = Ok 1 /\
   (Model.deleteById (More ["$deleted"; "__proto__"])
      (Model.deleteById (More ["$deleted"; "__proto__"]) (fresh false)).2).1
   = Ok 1).
Proof.
  split.
  - destruct (deleteById_is_final (More ["1"; "2"]) three
                (Model.deleteById (More ["1"; "2"]) three).2 2) as [Hfinal _].
    destruct Hfinal as (Hagain & _ & Hfind).
    + apply (bool_decide_unpack _). vm_compute. reflexivity.
    + vm_compute. reflexivity.
    + split; [exact Hagain|]. apply Hfind. simpl. by left.
  - destruct (deleteById_is_final (More ["$deleted"; "__proto__"]) (fresh false)
                (fresh false) 0) as [_ Hagain].
    apply Hagain; reflexivity.
Defined.

Lemma persist_twice_witness :
  Model.persist (Model.persist two_left).2 = (Ok tt, (Model.persist two_left).2).
Proof.
  destruct (persist_twice two_left (Model.persist two_left).2) as [Hagain _].
  - vm_compute. reflexivity.
  - exact Hagain.
Defined.

Lemma update_replaces_matches_witness :
  (forall k, k ∉ filter (fun k => selected [("type", JStr "strong")]
                                           (db_map (db three)) k = true)
                        (db_list (db three)) ->
     db_map (db (Model.update [("type", JStr "strong")] [("type", JStr "weak")]
                              None three).2) !! k
     = db_map (db three) !! k) /\
  exists payload w',
    Model.update [("type", JStr "strong")] [("type", JStr "weak")] None three
    = (Ok payload, w').
Proof.
  destruct (update_replaces_matches [("type", JStr "strong")] [("type", JStr "weak")]
              None three three_NoDup) as [Hret Hruns].
  split.
  - destruct (Hret [[("type", JStr "weak"); ("_id", JStr "3")]]
                   (Model.update [("type", JStr "strong")] [("type", JStr "weak")]
                                 None three).2) as (_ & Hrest & _); [|exact Hrest].
    vm_compute. reflexivity.
  - apply Hruns; [reflexivity | reflexivity |].
    intros k Hk. simpl in Hk.
    apply elem_of_cons in Hk as [-> | Hk]; [|apply elem_of_cons in Hk as [-> | Hk];
      [|apply elem_of_cons in Hk as [-> | Hk]; [|by apply elem_of_nil in Hk]]].
    + exists doc1. split; [vm_compute; reflexivity|].
      right; left. vm_compute; reflexivity.
    + exists doc2. split; [vm_compute; reflexivity|].
      right; left. vm_compute; reflexivity.
    + exists doc3. split; [vm_compute; reflexivity|].
      right; right. split; [vm_compute; reflexivity|].
      eexists _, _. split; vm_compute; reflexivity.
Defined.

Lemma updateById_replaces_live_witness :
  (forall k, k ∉ filter (fun k => live_read (db_map (db two_left)) k = true)
                        (toArray (More ["2"; "3"])) ->
     db_map (db (Model.updateById (More ["2"; "3"]) [("type", JStr "weak")]
                                  None two_left).2) !! k
     = db_map (db two_left) !! k) /\
  exists payload w',
    Model.updateById (More ["2"; "3"]) [("type", JStr "weak")] None two_left
    = (Ok payload, w').
Proof.
  destruct (updateById_replaces_live (More ["2"; "3"]) [("type", JStr "weak")]
              None two_left) as (Hret & Hruns & _).
  { apply (bool_decide_unpack _). vm_compute. reflexivity. }
  { apply (bool_decide_unpack _). vm_compute. reflexivity. }
  split.
  - destruct (Hret [[("type", JStr "weak"); ("_id", JStr "3")]]
                   (Model.updateById (More ["2"; "3"]) [("type", JStr "weak")]
                                     None two_left).2) as (_ & Hrest & _); [|exact Hrest].
    vm_compute. reflexivity.
  - apply Hruns; [reflexivity|].
    intros k Hk. simpl in Hk.
    apply elem_of_cons in Hk as [-> | Hk];
      [|apply elem_of_cons in Hk as [-> | Hk]; [|by apply elem_of_nil in Hk]].
    + split; [reflexivity|]. intros v Hv Hlive.
      vm_compute in Hv. injection Hv as <-. vm_compute in Hlive. discriminate.
    + split; [reflexivity|]. intros v Hv _.
      vm_compute in Hv. injection Hv as <-.
      eexists _, _. split; vm_compute; reflexivity.
Defined.

Lemma constructor_memory_mode_witness :
  constructor Platform.mkdirSync Platform.path_resolve Platform.nowhere three
  = (Ok tt, mkWorld (new_LeafDB true None) (fs three) (uid three)).
Proof.
  destruct (constructor_memory_mode Platform.mkdirSync Platform.path_resolve
              Platform.nowhere three) as [Hnew _].
  - right. reflexivity.
  - exact Hnew.
Defined.

Lemma constructed_is_reachable_witness :
  reachable (constructor Platform.mkdirSync Platform.path_resolve Platform.here
                         (half_corrupt true)).2.
Proof.
  apply constructed_is_reachable. intros root w1. reflexivity.
Defined.

Lemma constructor_restores_persisted_witness :
  constructor Platform.mkdirSync Platform.path_resolve Platform.here
              (Model.persist two_left).2
  = (Ok tt,
     mkWorld (mkDB false (Some path)
                   (db_map (purge (db two_left))) (db_list (purge (db two_left))))
             (fs (Model.persist two_left).2) (uid (Model.persist two_left).2)).
Proof.
  apply (constructor_restores_persisted Platform.mkdirSync Platform.path_resolve
           Platform.here "." path two_left (Model.persist two_left).2).
  - reflexivity.
  - apply two_left_bijection.
  - apply two_left_ids_consistent.
  - apply two_left_roundtrips.
  - reflexivity.
  - discriminate.
  - reflexivity.
  - vm_compute. reflexivity.
  - intros w1. reflexivity.
  - reflexivity.
Defined.

Lemma reachable_ids_carried_witness :
  ids_carried (db (after (DeleteById (One "constructor"))
                         (after (Insert (More [doc1; doc2; doc3])) (fresh false)))).
Proof.
  destruct (reachable_ids_carried
              (after (DeleteById (One "constructor"))
                     (after (Insert (More [doc1; doc2; doc3])) (fresh false))))
    as [Hreach _].
  - apply reference_valid_has_id.
  - apply Hreach. apply reach_call. apply reach_call. apply reach_new.
Defined.

Lemma reachable_members_stored_witness :
  members_stored (db (after (DeleteById (One "constructor"))
                            (after (Insert (More [doc1; doc2; doc3])) (fresh false)))).
Proof.
  destruct (reachable_members_stored
              (after (DeleteById (One "constructor"))
                     (after (Insert (More [doc1; doc2; doc3])) (fresh false))))
    as [Hreach _].
  apply Hreach. apply reach_call. apply reach_call. apply reach_new.
Defined.

Lemma persist_load_roundtrip_witness :
  (Model.persist two_left).1 = Ok tt /\
  (Model.load (Model.persist two_left).2).1 = Ok [] /\
  db (Model.load (Model.persist two_left).2).2 = purge (db two_left).
Proof.
  destruct (persist_load_roundtrip two_left path eq_refl two_left_persistable)
    as (Hp & Hl & _ & _ & _ & _ & Hpurge).
  split; [exact Hp|]. split; [exact Hl|]. apply Hpurge, two_left_bijection.
Defined.

End Scenarios.

